(** * Lead-generation pipeline: classifier, scorer, pagination, worker and API routes

    A shallow embedding of the TypeScript sources

    - the worker script : [isRecruitmentAgency], [calculateLeadScore] and the
      job processor it registers with [scrapingQueue.process];
    - [lib/services/linkedin-scraper.ts] : [LinkedInScraper.searchJobs], and
      the extractors [extractJobsFromPage], [extractHiringManagerInfo] and
      [extractJobDescription];
    - [lib/services/job-queue.ts] : [cancelJob], [addScrapingJob];
    - [lib/services/google-sheets.ts] : [GoogleSheetsService.exportLeads] with
      [ensureSheetExists] and [clearSheet];
    - [app/api/jobs/route.ts] : [searchCriteriaSchema] and [POST];
    - [app/api/jobs/[id]/route.ts] : [DELETE];
    - [components/SearchForm.tsx] and [app/page.tsx] : the state of the form
      and [handleNewJob];

    together with the properties of these functions.

    Conventions of the embedding.

    - A JavaScript string is a [string] whose characters are UTF-16 code units
      below 256 (the Latin-1 range); [String.length] is then the [.length] of
      the source and [toLowerCase] is the restriction of the built-in to that
      range.
    - A JavaScript number is a rational [Q] where the source computes with
      fractions (progress values, [maxPages]) and a [Z] where it only counts.
      [Math.round x] is [Qfloor (x + 1/2)].
    - The relational tables are the list of their rows ([leads], [companies])
      or a finite map from the text of the primary key to the row ([jobs]).
      The store refuses a row that breaks a constraint of the schema
      ([lib/db/schema.ts]): a [varchar(n)] column takes at most [n]
      characters, a text holds no character of code 0, an [integer] column
      takes the 32-bit range, the [jobId] and the [companyId] of a lead refer
      to rows that exist, and the id of a job is read as a uuid where the
      route handler compares it. A refused statement throws and changes
      nothing; what happens next is what the [try]/[catch] around it says.
      Not modelled: the values of the serial keys after a refused insert, the
      truncation of trailing spaces by [varchar(n)], and the loss of the
      connection.
    - The browser, the spreadsheet API and the clock are parameters
      (record [Env]); the queue is a finite map from job ids to queue
      entries. *)

From Stdlib Require Import ZArith QArith Qround Lqa String Ascii List Bool Lia.
From Stdlib Require Import DecimalString.
From stdpp Require Import base option gmap strings.
Import ListNotations.

Local Open Scope string_scope.
Local Open Scope list_scope.
Local Open Scope Z_scope.

(** ** JavaScript strings *)

Module JsString.

(** [String.prototype.toLowerCase] on one code unit of the Latin-1 range:
    [A]..[Z] and the accented capitals U+00C0..U+00DE (U+00D7, the
    multiplication sign, excepted) move up by 32. *)
Definition toLowerCaseChar (c : ascii) : ascii :=
  let n := N_of_ascii c in
  if ((65 <=? n) && (n <=? 90) ||
      (192 <=? n) && (n <=? 222) && negb (n =? 215))%N
  then ascii_of_N (n + 32)
  else c.

Fixpoint toLowerCase (s : string) : string :=
  match s with
  | EmptyString => EmptyString
  | String c s' => String (toLowerCaseChar c) (toLowerCase s')
  end.

(** [s.startsWith(t)] *)
Fixpoint startsWith (s t : string) {struct t} : bool :=
  match t, s with
  | EmptyString, _ => true
  | String _ _, EmptyString => false
  | String b t', String a s' => if Ascii.eqb a b then startsWith s' t' else false
  end.

(** [s.includes(t)]: [t] occurs in [s] at some position. *)
Fixpoint includes (s t : string) : bool :=
  if startsWith s t then true
  else match s with
       | EmptyString => false
       | String _ s' => includes s' t
       end.

(** Truthiness of an optional string ([undefined] and [''] are falsy). *)
Definition truthy (o : option string) : bool :=
  match o with
  | Some s => negb (String.eqb s "")
  | None => false
  end.

End JsString.
Import JsString.

(** ** Listings ([linkedin-scraper.ts]) *)

Record HiringManager := {
  hm_name : option string;
  hm_title : option string;
  hm_linkedinUrl : option string;
  hm_email : option string
}.

Record JobListing := {
  title : string;
  company : string;
  location : string;
  url : string;
  description : option string;
  salary : option string;
  postedDate : option string;
  hiringManager : option HiringManager
}.

(** ** Agency classifier and lead scorer (worker script) *)

Definition RECRUITMENT_AGENCY_KEYWORDS : list string :=
  [ "recruitment"; "recruiter"; "talent"; "staffing"; "headhunter";
    "executive search"; "consulting"; "temp agency"; "placement";
    "resource solutions"; "people solutions"; "workforce";
    "reed"; "adecco"; "randstad"; "hays"; "michael page";
    "robert half"; "kelly services"; "manpower"; "allegis" ].

Definition isRecruitmentAgency (companyName : string) : bool :=
  let name := toLowerCase companyName in
  existsb (fun keyword => includes name (toLowerCase keyword))
          RECRUITMENT_AGENCY_KEYWORDS.

Definition qualityKeywords : list string :=
  [ "senior"; "lead"; "manager"; "director"; "head of" ].

(** [job.hiringManager?.name] and [job.hiringManager?.email] *)
Definition managerName (job : JobListing) : option string :=
  hiringManager job ≫= hm_name.

Definition managerEmail (job : JobListing) : option string :=
  hiringManager job ≫= hm_email.

(** The value of [score] when [calculateLeadScore] reaches its [return]. *)
Definition rawLeadScore (job : JobListing) : Z :=
  let score := 50 in
  let score :=
    if negb (isRecruitmentAgency (company job)) then score + 30 else score - 20 in
  let score := if truthy (managerName job) then score + 15 else score in
  let score := if truthy (managerEmail job) then score + 20 else score in
  let score := if truthy (salary job) then score + 10 else score in
  let score :=
    if truthy (description job) &&
       (200 <? Z.of_nat (String.length (default "" (description job))))
    then score + 5 else score in
  let titleLower := toLowerCase (title job) in
  let score :=
    if existsb (fun keyword => includes titleLower keyword) qualityKeywords
    then score + 10 else score in
  score.

Definition calculateLeadScore (job : JobListing) : Z :=
  Z.max 0 (Z.min 100 (rawLeadScore job)).

(** *** The scorer as the specification words it

    The properties below compare [calculateLeadScore] with this relational
    reading of the scoring rule. *)

(** Two strings are equal up to the case of their letters. *)
Definition eq_ignoring_case (a b : string) : Prop :=
  toLowerCase a = toLowerCase b.

(** [kw] occurs in [s] as a substring, in any casing. *)
Definition contains_ignoring_case (s kw : string) : Prop :=
  exists pre mid post, s = (pre ++ mid ++ post)%string /\ eq_ignoring_case mid kw.

(** An optional text field is present: it is defined and not empty. *)
Definition present (o : option string) : Prop :=
  exists s, o = Some s /\ s <> "".

Definition seniority_keywords : list string :=
  [ "senior"; "lead"; "manager"; "director"; "head of" ].

(** [delta] is [pts] when the condition holds and [0] otherwise. *)
Definition adds (P : Prop) (pts delta : Z) : Prop :=
  (P /\ delta = pts) \/ (~ P /\ delta = 0).

Definition clamp (lo hi x : Z) : Z :=
  if x <? lo then lo else if hi <? x then hi else x.

Definition raw_score_spec (job : JobListing) (raw : Z) : Prop :=
  exists a n e s d t : Z,
    ((isRecruitmentAgency (company job) = false /\ a = 30) \/
     (isRecruitmentAgency (company job) = true /\ a = -20)) /\
    adds (present (managerName job)) 15 n /\
    adds (present (managerEmail job)) 20 e /\
    adds (present (salary job)) 10 s /\
    adds (exists text, description job = Some text /\
                       (200 < String.length text)%nat) 5 d /\
    adds (exists kw, In kw seniority_keywords /\
                     contains_ignoring_case (title job) kw) 10 t /\
    raw = 50 + a + n + e + s + d + t.

Definition lead_score_spec (job : JobListing) (result : Z) : Prop :=
  exists raw, raw_score_spec job raw /\ result = clamp 0 100 raw.

(** ** Search criteria and pagination ([linkedin-scraper.ts]) *)

Record SearchCriteria := {
  keywords : string;
  sc_location : string;
  experience : option string;
  jobType : option string;
  industry : option string;
  companySize : option string;
  excludeAgencies : option bool;
  maxPages : option Q
}.

Record ScrapingProgress := {
  currentPage : Z;
  totalPages : Q;
  jobsFound : Z;
  progress : Z
}.

(** [Math.round]: the nearest integer, halves going up. *)
Definition Math_round (x : Q) : Z := Qfloor (x + (1 # 2)).

(** [n || d] on an optional number: [undefined] and [0] give the default. *)
Definition orDefault (n : option Q) (d : Q) : Q :=
  match n with
  | Some q => if Qeq_bool q 0 then d else q
  | None => d
  end.

(** What the browser does when the loop of [searchJobs] visits one page. The
    body of the [try] block can throw at [page.goto], in
    [extractJobsFromPage], or at the probe for the Next button, which comes
    after the listings of the page have been pushed and reported. *)
Inductive PageOutcome :=
| GotoFails
| ExtractFails
| NextProbeFails (pageJobs : list JobListing)
| PageLoaded (pageJobs : list JobListing) (hasNextPage : bool).

(** The scraper object: [this.page] is set and [this.isLoggedIn]. *)
Record Scraper := {
  pageOpen : bool;
  isLoggedIn : bool
}.

(** What one call of [searchJobs] has done so far: the listings pushed to
    [jobs], the page indices passed to [page.goto], the page numbers written
    by [console.error], and the records passed to [onProgress], all in the
    order of the calls. *)
Record SearchRun := {
  found : list JobListing;
  fetched : list nat;
  pageErrors : list nat;
  reports : list ScrapingProgress
}.

Definition emptyRun : SearchRun :=
  {| found := []; fetched := []; pageErrors := []; reports := [] |}.

(** The values of [page] at which the loop test [page < maxPages] holds. *)
Definition pageIndices (maxPages : Q) : list nat :=
  seq 0 (Z.to_nat (Qceiling maxPages)).

Definition visit (page : nat) (r : SearchRun) : SearchRun :=
  {| found := found r; fetched := fetched r ++ [page];
     pageErrors := pageErrors r; reports := reports r |}.

(** [jobs.push(...pageJobs)] followed by the call of [onProgress]. *)
Definition pushAndReport (maxPages : Q) (page : nat) (pageJobs : list JobListing)
    (r : SearchRun) : SearchRun :=
  let jobs := found r ++ pageJobs in
  {| found := jobs; fetched := fetched r; pageErrors := pageErrors r;
     reports := reports r ++
       [ {| currentPage := Z.of_nat page + 1;
            totalPages := maxPages;
            jobsFound := Z.of_nat (length jobs);
            progress :=
              Math_round ((inject_Z (Z.of_nat page + 1) / maxPages) * 100)%Q |} ] |}.

(** The [catch] block: [console.error(`Error on page ${page + 1}:`)]. *)
Definition logPageError (page : nat) (r : SearchRun) : SearchRun :=
  {| found := found r; fetched := fetched r;
     pageErrors := pageErrors r ++ [S page]; reports := reports r |}.

(** The [for] loop of [searchJobs] over the remaining page indices. Only the
    [break] of a loaded page without a Next button leaves the loop early; the
    [catch] block falls through to the next iteration. *)
Fixpoint searchLoop (fetch : nat -> PageOutcome) (maxPages : Q)
    (pages : list nat) (r : SearchRun) : SearchRun :=
  match pages with
  | [] => r
  | page :: rest =>
      let r := visit page r in
      match fetch page with
      | GotoFails | ExtractFails =>
          searchLoop fetch maxPages rest (logPageError page r)
      | NextProbeFails pageJobs =>
          searchLoop fetch maxPages rest
            (logPageError page (pushAndReport maxPages page pageJobs r))
      | PageLoaded pageJobs hasNextPage =>
          let r := pushAndReport maxPages page pageJobs r in
          if hasNextPage then searchLoop fetch maxPages rest r else r
      end
  end.

(** [LinkedInScraper.searchJobs]: an error message when the two guards
    throw, the finished run otherwise. *)
Definition searchJobs (scraper : Scraper) (fetch : nat -> PageOutcome)
    (criteria : SearchCriteria) : string + SearchRun :=
  if negb (pageOpen scraper) then inl "Browser not initialized"
  else if negb (isLoggedIn scraper) then inl "Not logged in to LinkedIn"
  else
    let maxPages := orDefault (maxPages criteria) 5 in
    inr (searchLoop fetch maxPages (pageIndices maxPages) emptyRun).

(** *** Reading a page outcome *)

(** The page throws inside the [try] block, so that the [catch] block logs
    it. *)
Definition pageFails (o : PageOutcome) : bool :=
  match o with
  | PageLoaded _ _ => false
  | _ => true
  end.

(** The page loads and shows no Next button: the loop breaks. *)
Definition endsSearch (o : PageOutcome) : bool :=
  match o with
  | PageLoaded _ false => true
  | _ => false
  end.

(** The listings the page contributes to [jobs]. *)
Definition listingsOf (o : PageOutcome) : list JobListing :=
  match o with
  | NextProbeFails pageJobs | PageLoaded pageJobs _ => pageJobs
  | _ => []
  end.

(** The pages of [pages] up to and including the first one that ends the
    search. *)
Fixpoint pagesVisited (fetch : nat -> PageOutcome) (pages : list nat) : list nat :=
  match pages with
  | [] => []
  | page :: rest =>
      page :: (if endsSearch (fetch page) then [] else pagesVisited fetch rest)
  end.

(** The scraper as the processor holds it after a successful login. *)
Definition loggedIn : Scraper := {| pageOpen := true; isLoggedIn := true |}.

(** ** The relational store ([lib/db/schema.ts]) *)

Inductive JobStatus := pending | running | completed | failed | cancelled.

Record JobRow := {
  job_status : JobStatus;
  job_searchCriteria : SearchCriteria;
  job_totalJobsFound : Z;
  job_leadsGenerated : Z;
  job_progress : Z;
  job_errorMessage : option string;
  job_createdAt : Z;
  job_updatedAt : Z;
  job_completedAt : option Z
}.

Record CompanyRow := {
  company_id : Z;
  company_name : string;
  company_isRecruitmentAgency : bool;
  company_isBlacklisted : bool
}.

(** The columns of [leads] that the code under study reads or writes; the
    timestamps filled by column defaults are left out. *)
Record LeadRow := {
  lead_id : Z;
  lead_jobId : string;
  lead_companyId : option Z;
  lead_fullName : option string;
  lead_firstName : option string;
  lead_lastName : option string;
  lead_title : option string;
  lead_email : option string;
  lead_linkedinUrl : option string;
  lead_jobTitle : string;
  lead_jobUrl : string;
  lead_jobLocation : option string;
  lead_jobDescription : option string;
  lead_jobSalary : option string;
  lead_leadScore : Z;
  lead_isQualified : bool;
  lead_qualificationNotes : option string;
  lead_exportedToSheets : bool;
  lead_exportedAt : option Z
}.

Record Db := {
  jobs : gmap string JobRow;
  companies : list CompanyRow;
  leads : list LeadRow
}.

(** The argument of [db.update(jobs).set({...})]: the columns it names. *)
Record JobPatch := {
  set_status : option JobStatus;
  set_totalJobsFound : option Z;
  set_leadsGenerated : option Z;
  set_progress : option Z;
  set_errorMessage : option string;
  set_updatedAt : option Z;
  set_completedAt : option Z
}.

Definition orElse {A} (new old : option A) : option A :=
  match new with Some _ => new | None => old end.

Definition applyPatch (p : JobPatch) (row : JobRow) : JobRow :=
  {| job_status := default (job_status row) (set_status p);
     job_searchCriteria := job_searchCriteria row;
     job_totalJobsFound := default (job_totalJobsFound row) (set_totalJobsFound p);
     job_leadsGenerated := default (job_leadsGenerated row) (set_leadsGenerated p);
     job_progress := default (job_progress row) (set_progress p);
     job_errorMessage := orElse (set_errorMessage p) (job_errorMessage row);
     job_createdAt := job_createdAt row;
     job_updatedAt := default (job_updatedAt row) (set_updatedAt p);
     job_completedAt := orElse (set_completedAt p) (job_completedAt row) |}.

(** [db.update(jobs).set(p).where(eq(jobs.id, jobId))] *)
Definition updateJobRow (jobId : string) (p : JobPatch) (d : Db) : Db :=
  {| jobs := alter (applyPatch p) jobId (jobs d);
     companies := companies d;
     leads := leads d |}.

(** [db.query.companies.findFirst({ where: eq(companies.name, name) })] *)
Definition findCompany (name : string) (d : Db) : option CompanyRow :=
  find (fun c => String.eqb (company_name c) name) (companies d).

(** [db.insert(companies).values({...}).returning()] when the store takes
    the row; the serial key is the rank of the row. *)
Definition insertCompany (name : string) (agency : bool) (d : Db) : CompanyRow * Db :=
  let row := {| company_id := Z.of_nat (length (companies d)) + 1;
                company_name := name;
                company_isRecruitmentAgency := agency;
                company_isBlacklisted := false |} in
  (row, {| jobs := jobs d; companies := companies d ++ [row]; leads := leads d |}).

(** [db.insert(leads).values(row)] when the store takes the row, with the
    serial key filled in. *)
Definition insertLead (row : LeadRow) (d : Db) : Db :=
  {| jobs := jobs d; companies := companies d; leads := leads d ++ [row] |}.

Definition setExported (now : Z) (row : LeadRow) : LeadRow :=
  {| lead_id := lead_id row; lead_jobId := lead_jobId row;
     lead_companyId := lead_companyId row; lead_fullName := lead_fullName row;
     lead_firstName := lead_firstName row; lead_lastName := lead_lastName row;
     lead_title := lead_title row; lead_email := lead_email row;
     lead_linkedinUrl := lead_linkedinUrl row; lead_jobTitle := lead_jobTitle row;
     lead_jobUrl := lead_jobUrl row; lead_jobLocation := lead_jobLocation row;
     lead_jobDescription := lead_jobDescription row;
     lead_jobSalary := lead_jobSalary row; lead_leadScore := lead_leadScore row;
     lead_isQualified := lead_isQualified row;
     lead_qualificationNotes := lead_qualificationNotes row;
     lead_exportedToSheets := true;
     lead_exportedAt := Some now |}.

(** [db.update(leads).set({ exportedToSheets: true, exportedAt: new Date() })
       .where(eq(leads.jobUrl, jobUrl))] *)
Definition markExported (now : Z) (jobUrl : string) (d : Db) : Db :=
  {| jobs := jobs d; companies := companies d;
     leads := map (fun row => if String.eqb (lead_jobUrl row) jobUrl
                              then setExported now row else row) (leads d) |}.

(** *** The constraints of the schema

    A statement that breaks a constraint of the schema is refused by the
    store: it throws and changes nothing. *)

(** [text]: a text without the character of code 0, which the store
    does not take, or no value. *)
Definition text (value : option string) : bool :=
  match value with
  | Some s => negb (existsb (Ascii.eqb Ascii.zero) (list_ascii_of_string s))
  | None => true
  end.

(** [varchar(n)]: a text of at most [n] characters, or no value. *)
Definition varchar (n : nat) (value : option string) : bool :=
  text value &&
  match value with
  | Some s => (String.length s <=? n)%nat
  | None => true
  end.

(** [integer]: the 32-bit range. *)
Definition integer (n : Z) : bool :=
  (-2147483648 <=? n) && (n <=? 2147483647).

(** The column [name] of [companies]. *)
Definition acceptsCompany (name : string) : bool := varchar 255 (Some name).

(** The columns of [leads] that hold a text or a number. *)
Definition leadFits (row : LeadRow) : bool :=
  varchar 255 (lead_fullName row) && varchar 100 (lead_firstName row) &&
  varchar 100 (lead_lastName row) && varchar 255 (lead_title row) &&
  varchar 255 (lead_email row) && varchar 500 (lead_linkedinUrl row) &&
  varchar 255 (Some (lead_jobTitle row)) && varchar 500 (Some (lead_jobUrl row)) &&
  varchar 255 (lead_jobLocation row) && text (lead_jobDescription row) &&
  varchar 255 (lead_jobSalary row) && integer (lead_leadScore row) &&
  text (lead_qualificationNotes row).

(** The two references of [leads]: [jobId] to the row of a job and
    [companyId], when given, to the row of a company. *)
Definition leadRefers (row : LeadRow) (d : Db) : bool :=
  match jobs d !! lead_jobId row with
  | Some _ => true
  | None => false
  end &&
  match lead_companyId row with
  | Some key => existsb (fun c => company_id c =? key) (companies d)
  | None => true
  end.

Definition acceptsLead (row : LeadRow) (d : Db) : bool :=
  leadRefers row d && leadFits row.

(** ** The job processor (worker script) *)

Record ScrapingJobData := {
  jobId : string;
  searchCriteria : SearchCriteria;
  linkedinEmail : string;
  linkedinPassword : string
}.

(** [LeadData] of [google-sheets.ts], the element type of [validLeads]. *)
Record LeadData := {
  ld_fullName : option string;
  ld_firstName : option string;
  ld_lastName : option string;
  ld_title : option string;
  ld_email : option string;
  ld_linkedinUrl : option string;
  ld_companyName : string;
  ld_jobTitle : string;
  ld_jobUrl : string;
  ld_jobLocation : option string;
  ld_jobSalary : option string;
  ld_leadScore : Z;
  ld_qualificationNotes : option string
}.

(** The collaborators of one run: the browser, the spreadsheet API and the
    clock. [launchError] is the message of the exception of
    [scraper.initialize], if it throws; [loginSuccess] the answer of
    [scraper.login]; [fetch] the outcome of each page of the search; the two
    extractors answer for a listing URL (both catch their own errors, and
    within one run a URL is taken to give one answer);
    [spreadsheet] is the id of the created sheet, if [createSpreadsheet]
    succeeds; [exportSucceeds] tells whether [exportLeads] does; [now] is
    [new Date()]. *)
Record Env := {
  launchError : option string;
  loginSuccess : bool;
  fetch : nat -> PageOutcome;
  extractJobDescription : string -> string;
  extractHiringManagerInfo : string -> option HiringManager;
  spreadsheet : option string;
  exportSucceeds : bool;
  now : Z
}.

(** What an observer of the run sees, in order: the calls of
    [job.progress], the rows of the job written by [db.update(jobs)], and the
    batch handed to [googleSheets.exportLeads]. *)
Inductive Event :=
| QueueProgress (value : Q)
| JobRowWritten (id : string) (row : JobRow)
| SheetExported (spreadsheetId : string) (rows : list LeadData).

Record World := {
  db : Db;
  events : list Event
}.

Definition emit (e : Event) (w : World) : World :=
  {| db := db w; events := events w ++ [e] |}.

(** [job.progress(value)] *)
Definition jobProgress (value : Q) (w : World) : World :=
  emit (QueueProgress value) w.

(** [db.update(jobs).set(p).where(eq(jobs.id, id))], observed. *)
Definition updateJob (id : string) (p : JobPatch) (w : World) : World :=
  let d := updateJobRow id p (db w) in
  match jobs d !! id with
  | Some row => {| db := d; events := events w ++ [JobRowWritten id row] |}
  | None => {| db := d; events := events w |}
  end.

Definition patchRunning (now : Z) : JobPatch :=
  {| set_status := Some running; set_totalJobsFound := None;
     set_leadsGenerated := None; set_progress := None;
     set_errorMessage := None; set_updatedAt := Some now;
     set_completedAt := None |}.

Definition patchProgress (p : Z) : JobPatch :=
  {| set_status := None; set_totalJobsFound := None;
     set_leadsGenerated := None; set_progress := Some p;
     set_errorMessage := None; set_updatedAt := None;
     set_completedAt := None |}.

Definition patchDiscovery (p found : Z) : JobPatch :=
  {| set_status := None; set_totalJobsFound := Some found;
     set_leadsGenerated := None; set_progress := Some p;
     set_errorMessage := None; set_updatedAt := None;
     set_completedAt := None |}.

Definition patchEnrichment (p generated : Z) : JobPatch :=
  {| set_status := None; set_totalJobsFound := None;
     set_leadsGenerated := Some generated; set_progress := Some p;
     set_errorMessage := None; set_updatedAt := None;
     set_completedAt := None |}.

Definition patchCompleted (now : Z) : JobPatch :=
  {| set_status := Some completed; set_totalJobsFound := None;
     set_leadsGenerated := None; set_progress := Some 100;
     set_errorMessage := None; set_updatedAt := Some now;
     set_completedAt := Some now |}.

Definition patchFailed (now : Z) (message : string) : JobPatch :=
  {| set_status := Some failed; set_totalJobsFound := None;
     set_leadsGenerated := None; set_progress := None;
     set_errorMessage := Some message; set_updatedAt := Some now;
     set_completedAt := None |}.

(** The callback handed to [searchJobs]. The source issues the store
    update without awaiting it; here it takes effect at once, in the order
    of the calls. The store refuses the update when the rounded percentage
    is outside the range of the [integer] column [progress], and
    [.catch(console.error)] swallows the error. ([jobsFound], the number of
    listings collected so far, is taken to stay within that range.) *)
Definition onProgress (id : string) (w : World) (p : ScrapingProgress) : World :=
  let value := (10 + inject_Z (progress p) * (6 # 10))%Q in
  let w := jobProgress value w in
  if integer (Math_round value)
  then updateJob id (patchDiscovery (Math_round value) (jobsFound p)) w
  else w.

(** The state of the loop over [jobListings]. *)
Record LoopState := {
  world : World;
  processedCount : nat;
  validLeads : list LeadData
}.

(** [{ ...jobListing, description, hiringManager }] *)
Definition enhance (jobListing : JobListing) (description : string)
    (manager : option HiringManager) : JobListing :=
  {| title := title jobListing; company := company jobListing;
     location := location jobListing; url := url jobListing;
     description := Some description; salary := salary jobListing;
     postedDate := postedDate jobListing; hiringManager := manager |}.

(** The row inserted for a qualified listing. *)
Definition leadRow (id : Z) (job : string) (companyId : Z) (jobListing : JobListing)
    (description : string) (manager : option HiringManager) (leadScore : Z) : LeadRow :=
  {| lead_id := id; lead_jobId := job; lead_companyId := Some companyId;
     lead_fullName := manager ≫= hm_name;
     lead_firstName := None; lead_lastName := None;
     lead_title := manager ≫= hm_title;
     lead_email := manager ≫= hm_email;
     lead_linkedinUrl := manager ≫= hm_linkedinUrl;
     lead_jobTitle := title jobListing; lead_jobUrl := url jobListing;
     lead_jobLocation := Some (location jobListing);
     lead_jobDescription := Some description;
     lead_jobSalary := salary jobListing;
     lead_leadScore := leadScore; lead_isQualified := true;
     lead_qualificationNotes := None;
     lead_exportedToSheets := false; lead_exportedAt := None |}.

Definition leadData (leadRecord : LeadRow) (companyName : string) : LeadData :=
  {| ld_fullName := lead_fullName leadRecord;
     ld_firstName := lead_firstName leadRecord;
     ld_lastName := lead_lastName leadRecord;
     ld_title := lead_title leadRecord;
     ld_email := lead_email leadRecord;
     ld_linkedinUrl := lead_linkedinUrl leadRecord;
     ld_companyName := companyName;
     ld_jobTitle := lead_jobTitle leadRecord;
     ld_jobUrl := lead_jobUrl leadRecord;
     ld_jobLocation := lead_jobLocation leadRecord;
     ld_jobSalary := lead_jobSalary leadRecord;
     ld_leadScore := lead_leadScore leadRecord;
     ld_qualificationNotes := lead_qualificationNotes leadRecord |}.

(** How the body of the [try] block of the loop ends: at its end, or at
    an insert that the store refuses, which throws. *)
Inductive Attempt :=
| Passed (st : LoopState)
| Threw (st : LoopState).

(** The state the loop goes on with. *)
Definition stateOf (a : Attempt) : LoopState :=
  match a with
  | Passed st | Threw st => st
  end.

(** The body of [if (leadScore > 40)]: find or create the company, insert
    the lead, push it to [validLeads]. A company row inserted before the
    store refuses the lead stays. *)
Definition keepLead (id : string) (jobListing : JobListing) (description : string)
    (manager : option HiringManager) (leadScore : Z) (st : LoopState) : Attempt :=
  let d := db (world st) in
  match
    match findCompany (company jobListing) d with
    | Some c => Some (c, d)
    | None =>
        if acceptsCompany (company jobListing)
        then Some (insertCompany (company jobListing)
                     (isRecruitmentAgency (company jobListing)) d)
        else None
    end
  with
  | None => Threw st
  | Some (companyRecord, d) =>
      let leadRecord :=
        leadRow (Z.of_nat (length (leads d)) + 1) id (company_id companyRecord)
                jobListing description manager leadScore in
      if acceptsLead leadRecord d then
        Passed {| world := {| db := insertLead leadRecord d;
                              events := events (world st) |};
                  processedCount := processedCount st;
                  validLeads := validLeads st ++
                                [leadData leadRecord (company jobListing)] |}
      else
        Threw {| world := {| db := d; events := events (world st) |};
                 processedCount := processedCount st;
                 validLeads := validLeads st |}
  end.

(** The listing never reaches the scorer: [excludeAgencies] is set and the
    company classifies as an agency. *)
Definition skipped (criteria : SearchCriteria) (jobListing : JobListing) : bool :=
  default false (excludeAgencies criteria) &&
  isRecruitmentAgency (company jobListing).

(** One iteration of [for (const jobListing of jobListings)]; [total] is
    [jobListings.length]. When the body throws, the [catch] block logs the
    error and the loop goes on with the next listing: the count of processed
    listings and the progress are not touched. *)
Definition processListing (env : Env) (id : string) (criteria : SearchCriteria)
    (total : nat) (st : LoopState) (jobListing : JobListing) : LoopState :=
  if skipped criteria jobListing then st
  else
    let description := extractJobDescription env (url jobListing) in
    let manager := extractHiringManagerInfo env (url jobListing) in
    let enhancedJob := enhance jobListing description manager in
    let leadScore := calculateLeadScore enhancedJob in
    match
      if 40 <? leadScore
      then keepLead id jobListing description manager leadScore st
      else Passed st
    with
    | Threw st => st
    | Passed st =>
        let processedCount := S (processedCount st) in
        let progressPercent :=
          (70 + (inject_Z (Z.of_nat processedCount) / inject_Z (Z.of_nat total)) * 20)%Q in
        let w := jobProgress progressPercent (world st) in
        let w := updateJob id (patchEnrichment (Math_round progressPercent)
                                              (Z.of_nat (length (validLeads st)))) w in
        {| world := w; processedCount := processedCount; validLeads := validLeads st |}
    end.

(** How the processor ends: its return value, or the error it rethrows. *)
Inductive Outcome :=
| Returned (totalJobsFound leadsGenerated : Z)
| Thrown (message : string).

(** The [catch] block of the processor. *)
Definition failJob (env : Env) (id message : string) (w : World) : Outcome * World :=
  (Thrown message, updateJob id (patchFailed (now env) message) w).

(** "Update leads as exported": one update per element of [validLeads]. *)
Definition markLeads (env : Env) (valid : list LeadData) (d : Db) : Db :=
  fold_left (fun d lead => markExported (now env) (ld_jobUrl lead) d) valid d.

(** "Mark job as completed" and the return. *)
Definition completeJob (env : Env) (id : string) (total generated : nat)
    (w : World) : Outcome * World :=
  let w := updateJob id (patchCompleted (now env)) w in
  let w := jobProgress 100 w in
  (Returned (Z.of_nat total) (Z.of_nat generated), w).

(** "Export to Google Sheets if we have leads", then completion. *)
Definition exportAndComplete (env : Env) (id : string) (total : nat)
    (st : LoopState) : Outcome * World :=
  let valid := validLeads st in
  if (0 <? length valid)%nat then
    let w := jobProgress 90 (world st) in
    match spreadsheet env with
    | None => failJob env id "Failed to create spreadsheet" w
    | Some spreadsheetId =>
        if exportSucceeds env then
          let w := emit (SheetExported spreadsheetId valid) w in
          let w := {| db := markLeads env valid (db w); events := events w |} in
          completeJob env id total (length valid) w
        else failJob env id "Failed to export leads to Google Sheets" w
    end
  else completeJob env id total (length valid) (world st).

(** The processor registered with [scrapingQueue.process]. *)
Definition process (env : Env) (data : ScrapingJobData) (w : World) : Outcome * World :=
  let id := jobId data in
  let criteria := searchCriteria data in
  let w := updateJob id (patchRunning (now env)) w in
  match launchError env with
  | Some message => failJob env id message w
  | None =>
      let scraper := {| pageOpen := true; isLoggedIn := loginSuccess env |} in
      if negb (loginSuccess env) then failJob env id "Failed to login to LinkedIn" w
      else
        let w := jobProgress 10 w in
        let w := updateJob id (patchProgress 10) w in
        match searchJobs scraper (fetch env) criteria with
        | inl message => failJob env id message w
        | inr run =>
            let w := fold_left (onProgress id) (reports run) w in
            let jobListings := found run in
            let st := fold_left (processListing env id criteria (length jobListings))
                        jobListings
                        {| world := w; processedCount := 0; validLeads := [] |} in
            exportAndComplete env id (length jobListings) st
        end
  end.

(** The score the processor computes for a discovered listing: none when
    the listing is skipped before enrichment. *)
Definition computedScore (env : Env) (criteria : SearchCriteria)
    (jobListing : JobListing) : option Z :=
  if skipped criteria jobListing then None
  else Some (calculateLeadScore
               (enhance jobListing (extractJobDescription env (url jobListing))
                        (extractHiringManagerInfo env (url jobListing)))).

(** The fixed qualification threshold. *)
Definition qualification_threshold : Z := 40.

(** *** Observing a run *)

(** The values passed to [job.progress], in order. *)
Definition queueProgress (es : list Event) : list Q :=
  flat_map (fun e => match e with QueueProgress v => [v] | _ => [] end) es.

(** The successive states of the row of job [id], in order. *)
Definition rowsWritten (id : string) (es : list Event) : list JobRow :=
  flat_map (fun e => match e with
                     | JobRowWritten i row => if String.eqb i id then [row] else []
                     | _ => []
                     end) es.

(** The rows of [leads] that belong to job [id]. *)
Definition leadsOf (id : string) (d : Db) : list LeadRow :=
  List.filter (fun row => String.eqb (lead_jobId row) id) (leads d).

(** A list of values never goes down. *)
Definition nondecreasing {A} (le : A -> A -> Prop) (l : list A) : Prop :=
  forall i j x y, (i <= j)%nat -> nth_error l i = Some x -> nth_error l j = Some y -> le x y.

(** The list never goes down and stays below [bound]. *)
Definition rising {A} (le : A -> A -> Prop) (bound : A) (l : list A) : Prop :=
  nondecreasing le l /\ Forall (fun x => le x bound) l.

(** Since the world [w0] the column [m] of the row of job [id] has only
    risen, from [a0] to its present value [n]. *)
Definition tracked {A} (id : string) (w0 : World) (le : A -> A -> Prop)
    (m : JobRow -> A) (a0 : A) (w : World) (n : A) : Prop :=
  exists row new,
    jobs (db w) !! id = Some row /\ m row = n /\
    events w = events w0 ++ new /\
    rising le n (a0 :: map m (rowsWritten id new)).

(** Since the world [w0] the values passed to [job.progress] have only
    risen, up to [q]. *)
Definition queued (w0 : World) (w : World) (q : Q) : Prop :=
  exists new,
    events w = events w0 ++ new /\
    rising Qle q (queueProgress new).

(** Each element of the list is at least its predecessor, the first at
    least [lo]. *)
Fixpoint chain {A} (le : A -> A -> Prop) (lo : A) (l : list A) : Prop :=
  match l with
  | [] => True
  | x :: l' => le lo x /\ chain le x l'
  end.

(** The [progress] field of the record reported for page index [page]. *)
Definition pageProgress (maxPages : Q) (page : nat) : Z :=
  Math_round ((inject_Z (Z.of_nat page + 1) / maxPages) * 100)%Q.

(** The page gets as far as the call of [onProgress]. *)
Definition pageReports (o : PageOutcome) : bool :=
  match o with
  | NextProbeFails _ | PageLoaded _ _ => true
  | _ => false
  end.

(** The value the callback passes to [job.progress] for a reported
    percentage, and the value the loop over the listings passes after
    [count] listings out of [total]. *)
Definition discoveryValue (percent : Z) : Q :=
  (10 + inject_Z percent * (6 # 10))%Q.

Definition enrichmentValue (total count : nat) : Q :=
  (70 + (inject_Z (Z.of_nat count) / inject_Z (Z.of_nat total)) * 20)%Q.

(** The marking of exported leads as one pass over the table: a row is
    marked when its [jobUrl] is among [urls]. *)
Definition markedBy (env : Env) (urls : list string) (row : LeadRow) : LeadRow :=
  if existsb (String.eqb (lead_jobUrl row)) urls then setExported (now env) row else row.

(** ** The queue ([job-queue.ts]) *)

(** An entry of the Bull queue. A job that a worker holds is locked, and
    [job.remove()] throws on a locked job. *)
Record QueueEntry := {
  entry_data : ScrapingJobData;
  entry_locked : bool
}.

Record Server := {
  store : Db;
  queue : gmap string QueueEntry
}.

(** [addScrapingJob]: [scrapingQueue.add] under the caller's job id; an id
    already in the queue is not added again. *)
Definition addScrapingJob (id : string) (criteria : SearchCriteria)
    (email password : string) (q : gmap string QueueEntry) : gmap string QueueEntry :=
  match q !! id with
  | Some _ => q
  | None =>
      <[id := {| entry_data := {| jobId := id; searchCriteria := criteria;
                                  linkedinEmail := email;
                                  linkedinPassword := password |};
                 entry_locked := false |}]> q
  end.

(** [cancelJob]: [false] when the job is not in the queue or [remove]
    throws, [true] after the removal. *)
Definition cancelJob (id : string) (q : gmap string QueueEntry)
    : bool * gmap string QueueEntry :=
  match q !! id with
  | None => (false, q)
  | Some job => if entry_locked job then (false, q) else (true, delete id q)
  end.

(** ** The API routes *)

(** A parsed JSON document. *)
#[local] Unset Elimination Schemes.
Inductive json :=
| JNull
| JBool (b : bool)
| JNum (n : Q)
| JStr (s : string)
| JArr (items : list json)
| JObj (members : list (string * json)).
#[local] Set Elimination Schemes.

(** [value[key]] on a parsed document: the last member of that name of an
    object, [undefined] on anything else. *)
Definition member (key : string) (value : json) : option json :=
  match value with
  | JObj members =>
      fold_left (fun acc kv => if String.eqb (fst kv) key then Some (snd kv) else acc)
                members None
  | _ => None
  end.

(** The field validators of zod used by the schema; the outer [None] is a
    validation issue. *)
Definition z_string_min1 (v : option json) : option string :=
  match v with
  | Some (JStr s) => if (1 <=? String.length s)%nat then Some s else None
  | _ => None
  end.

Definition z_string_optional (v : option json) : option (option string) :=
  match v with
  | None => Some None
  | Some (JStr s) => Some (Some s)
  | Some _ => None
  end.

Definition z_boolean_optional (v : option json) : option (option bool) :=
  match v with
  | None => Some None
  | Some (JBool b) => Some (Some b)
  | Some _ => None
  end.

(** [z.number().min(lo).max(hi).optional()] *)
Definition z_number_min_max_optional (lo hi : Q) (v : option json) : option (option Q) :=
  match v with
  | None => Some None
  | Some (JNum n) => if Qle_bool lo n && Qle_bool n hi then Some (Some n) else None
  | Some _ => None
  end.

(** [searchCriteriaSchema.safeParse(input)]: the parsed criteria on success. *)
Definition searchCriteriaSchema (input : option json) : option SearchCriteria :=
  match input with
  | Some (JObj members) =>
      let o := JObj members in
      kw ← z_string_min1 (member "keywords" o);
      loc ← z_string_min1 (member "location" o);
      exp ← z_string_optional (member "experience" o);
      jt ← z_string_optional (member "jobType" o);
      ind ← z_string_optional (member "industry" o);
      cs ← z_string_optional (member "companySize" o);
      ea ← z_boolean_optional (member "excludeAgencies" o);
      mp ← z_number_min_max_optional 1 20 (member "maxPages" o);
      Some {| keywords := kw; sc_location := loc; experience := exp;
              jobType := jt; industry := ind; companySize := cs;
              excludeAgencies := ea; maxPages := mp |}
  | _ => None
  end.

(** The surroundings of one request: the two environment variables, the
    value of [uuidv4()] and the clock. *)
Record ApiEnv := {
  LINKEDIN_EMAIL : option string;
  LINKEDIN_PASSWORD : option string;
  uuid : string;
  requestTime : Z
}.

Inductive PostResponse :=
| JobCreated (id : string) (status : JobStatus)
| PostError (httpStatus : Z) (error : string).

(** [db.insert(jobs).values(row)]; the primary key rejects a second row of
    the same id. *)
Definition insertJob (id : string) (row : JobRow) (d : Db) : option Db :=
  match jobs d !! id with
  | Some _ => None
  | None => Some {| jobs := <[id := row]> (jobs d);
                    companies := companies d; leads := leads d |}
  end.

(** [POST /api/jobs]. [body] is the parsed request body, [None] when
    [request.json()] throws. *)
Definition POST (env : ApiEnv) (body : option json) (s : Server)
    : PostResponse * Server :=
  match body with
  | None | Some JNull => (PostError 500 "Failed to create job", s)
  | Some b =>
      match searchCriteriaSchema (member "searchCriteria" b) with
      | None => (PostError 400 "Invalid search criteria", s)
      | Some criteria =>
          if truthy (LINKEDIN_EMAIL env) && truthy (LINKEDIN_PASSWORD env) then
            let id := uuid env in
            let row := {| job_status := pending; job_searchCriteria := criteria;
                          job_totalJobsFound := 0; job_leadsGenerated := 0;
                          job_progress := 0; job_errorMessage := None;
                          job_createdAt := requestTime env;
                          job_updatedAt := requestTime env;
                          job_completedAt := None |} in
            match insertJob id row (store s) with
            | None => (PostError 500 "Failed to create job", s)
            | Some d =>
                (JobCreated id pending,
                 {| store := d;
                    queue := addScrapingJob id criteria
                               (default "" (LINKEDIN_EMAIL env))
                               (default "" (LINKEDIN_PASSWORD env)) (queue s) |})
            end
          else (PostError 500 "LinkedIn credentials not configured", s)
      end
  end.

Inductive DeleteResponse :=
| JobCancelled
| DeleteError (httpStatus : Z) (error : string).

Definition patchCancelled (now : Z) : JobPatch :=
  {| set_status := Some cancelled; set_totalJobsFound := None;
     set_leadsGenerated := None; set_progress := None;
     set_errorMessage := None; set_updatedAt := Some now;
     set_completedAt := None |}.

Definition JobStatus_eqb (a b : JobStatus) : bool :=
  match a, b with
  | pending, pending | running, running | completed, completed
  | failed, failed | cancelled, cancelled => true
  | _, _ => false
  end.

(** *** The [uuid] column [jobs.id]

    The rows of [jobs] are kept under the text of their id. A comparison
    [eq(jobs.id, text)] first reads [text] as a uuid, and throws when it is
    none. *)

(** A hexadecimal digit, in lower case. *)
Definition hexDigit (c : ascii) : option ascii :=
  let n := nat_of_ascii c in
  if ((48 <=? n) && (n <=? 57) || (97 <=? n) && (n <=? 102))%nat then Some c
  else if ((65 <=? n) && (n <=? 70))%nat then Some (ascii_of_nat (n + 32))
  else None.

(** The bytes of a uuid from the position [i] on: two digits each, and an
    optional hyphen after every second byte but the last. *)
Fixpoint readBytes (count i : nat) (src : string) : option (list ascii * string) :=
  match count with
  | O => Some ([], src)
  | S count' =>
      match src with
      | String a (String b rest) =>
          match hexDigit a, hexDigit b with
          | Some a', Some b' =>
              let rest :=
                match rest with
                | String "-" after => if Nat.odd i && (i <? 15)%nat then after else rest
                | _ => rest
                end in
              match readBytes count' (S i) rest with
              | Some (digits, tail) => Some (a' :: b' :: digits, tail)
              | None => None
              end
          | _, _ => None
          end
      | _ => None
      end
  end.

(** The 32 digits in groups of 8, 4, 4, 4 and 12. *)
Definition hyphenated (digits : list ascii) : string :=
  string_of_list_ascii
    (firstn 8 digits ++ "-"%char :: firstn 4 (skipn 8 digits) ++
     "-"%char :: firstn 4 (skipn 12 digits) ++
     "-"%char :: firstn 4 (skipn 16 digits) ++
     "-"%char :: skipn 20 digits).

(** The text under which the store keeps the uuid that [text] spells (in
    either case, with or without hyphens or braces), if it spells one. *)
Definition parseUuid (text : string) : option string :=
  let braces := match text with String "{" _ => true | _ => false end in
  let src := match text with String "{" rest => rest | _ => text end in
  match readBytes 16 0 src with
  | Some (digits, tail) =>
      if String.eqb tail (if braces then "}" else "") then Some (hyphenated digits)
      else None
  | None => None
  end.

(** [db.query.jobs.findFirst({ where: eq(jobs.id, id) })]: the key and the
    row found, if any, or [None] when the query throws. A row kept under
    [id] itself is the one found. *)
Definition findJob (id : string) (d : Db) : option (option (string * JobRow)) :=
  match jobs d !! id with
  | Some row => Some (Some (id, row))
  | None =>
      match parseUuid id with
      | Some key => Some (pair key <$> jobs d !! key)
      | None => None
      end
  end.

(** [DELETE /api/jobs/[id]] *)
Definition DELETE (now : Z) (id : string) (s : Server) : DeleteResponse * Server :=
  match findJob id (store s) with
  | None => (DeleteError 500 "Failed to cancel job", s)
  | Some None => (DeleteError 404 "Job not found", s)
  | Some (Some (key, dbJob)) =>
      if JobStatus_eqb (job_status dbJob) completed
      then (DeleteError 400 "Cannot cancel completed job", s)
      else
        let (cancelled, q) := cancelJob id (queue s) in
        if cancelled
        then (JobCancelled,
              {| store := updateJobRow key (patchCancelled now) (store s); queue := q |})
        else (DeleteError 500 "Failed to cancel job", {| store := store s; queue := q |})
  end.

(** *** Reading a run of the processor *)

(** The listing reaches the scorer and its score exceeds the threshold. *)
Definition qualifies (env : Env) (criteria : SearchCriteria) (l : JobListing) : bool :=
  match computedScore env criteria l with
  | Some score => 40 <? score
  | None => false
  end.

(** The search the processor runs once it is logged in. *)
Definition searchRun (env : Env) (criteria : SearchCriteria) : SearchRun :=
  let limit := orDefault (maxPages criteria) 5 in
  searchLoop (fetch env) limit (pageIndices limit) emptyRun.

(** The row the loop inserts for the listing [l], under the keys it is
    given. *)
Definition rowOf (env : Env) (id : string) (l : JobListing) (rowId companyId : Z) : LeadRow :=
  leadRow rowId id companyId l
          (extractJobDescription env (url l))
          (extractHiringManagerInfo env (url l))
          (calculateLeadScore
             (enhance l (extractJobDescription env (url l))
                      (extractHiringManagerInfo env (url l)))).

(** The texts that the loop stores for the listing fit their columns. *)
Definition fitsColumns (env : Env) (l : JobListing) : bool :=
  let manager := extractHiringManagerInfo env (url l) in
  varchar 255 (Some (company l)) && varchar 255 (Some (title l)) &&
  varchar 500 (Some (url l)) && varchar 255 (Some (location l)) &&
  text (Some (extractJobDescription env (url l))) && varchar 255 (salary l) &&
  varchar 255 (manager ≫= hm_name) && varchar 255 (manager ≫= hm_title) &&
  varchar 255 (manager ≫= hm_email) && varchar 500 (manager ≫= hm_linkedinUrl).

(** The store [d] takes the rows that [keepLead] inserts: the row of the
    job exists, the company has a row or its name fits the column, and the
    lead fits its columns. *)
Definition takes (id : string) (d : Db) (jobListing : JobListing)
    (description : string) (manager : option HiringManager) (leadScore : Z) : bool :=
  match jobs d !! id with Some _ => true | None => false end &&
  (match findCompany (company jobListing) d with Some _ => true | None => false end ||
   acceptsCompany (company jobListing)) &&
  leadFits (leadRow 0 id 0 jobListing description manager leadScore).

(** The store [d] takes the rows that the loop inserts for the listing. *)
Definition stores (env : Env) (id : string) (d : Db) (l : JobListing) : bool :=
  takes id d l (extractJobDescription env (url l))
        (extractHiringManagerInfo env (url l))
        (calculateLeadScore
           (enhance l (extractJobDescription env (url l))
                    (extractHiringManagerInfo env (url l)))).

(** The loop makes a lead of the listing: it qualifies and the store takes
    its rows. *)
Definition persists (env : Env) (criteria : SearchCriteria) (id : string) (d : Db)
    (l : JobListing) : bool :=
  qualifies env criteria l && stores env id d l.

(** The rows a run has added to a table that held [before] rows. *)
Definition added {A} (before : list A) (after : list A) : list A :=
  skipn (length before) after.

(** The processor got past launch and login. *)
Definition setupSucceeds (env : Env) : Prop :=
  launchError env = None /\ loginSuccess env = true.

(** The batches handed to the spreadsheet, with the sheet they went to. *)
Definition exportedBatches (es : list Event) : list (string * list LeadData) :=
  flat_map (fun e => match e with
                     | SheetExported sheet rows => [(sheet, rows)]
                     | _ => []
                     end) es.

(** From [w] to [w'] events were only appended, none of them an export. *)
Definition quiet (w w' : World) : Prop :=
  exists new, events w' = events w ++ new /\ exportedBatches new = [] .

(** From [w] to [w'] the table of jobs changed at most in the row of [id],
    by a change [f] that keeps the search criteria and the creation time. *)
Definition patched (id : string) (w w' : World) (f : JobRow -> JobRow) : Prop :=
  jobs (db w') = alter f id (jobs (db w)) /\
  forall row, job_searchCriteria (f row) = job_searchCriteria row /\
              job_createdAt (f row) = job_createdAt row.

(** A change of a job row that leaves its outcome columns alone. *)
Definition keepsOutcome (f : JobRow -> JobRow) : Prop :=
  forall row,
    job_totalJobsFound (f row) = job_totalJobsFound row /\
    job_status (f row) = job_status row /\
    job_errorMessage (f row) = job_errorMessage row /\
    job_completedAt (f row) = job_completedAt row.

(** A change of a job row made during discovery: it leaves the status, the
    error, the completion time and the lead counter alone. *)
Definition keepsState (f : JobRow -> JobRow) : Prop :=
  forall row,
    job_leadsGenerated (f row) = job_leadsGenerated row /\
    job_status (f row) = job_status row /\
    job_errorMessage (f row) = job_errorMessage row /\
    job_completedAt (f row) = job_completedAt row.

(** The last report carries the number of listings collected so far; with
    no report there is no listing. *)
Definition reportsCount (r : SearchRun) : Prop :=
  match last (reports r) with
  | Some p => jobsFound p = Z.of_nat (length (found r))
  | None => found r = []
  end.

(** From [w] to [w'] events were only appended, and the batches exported
    among them are [batches]. *)
Definition exportsSince (w w' : World) (batches : list (string * list LeadData)) : Prop :=
  exists new, events w' = events w ++ new /\ exportedBatches new = batches.

(** ** The search form and the page that submits it ([SearchForm.tsx],
    [page.tsx]) *)

Module SearchForm.









End SearchForm.



(** ** The spreadsheet service ([google-sheets.ts]) *)

Module GoogleSheetsService.

(** The values of a spreadsheet: for each sheet, by title, its rows of
    cells from the first row down. *)
Abbreviation Spreadsheet := (gmap string (list (list string))).

Record ExportOptions := {
  sheetName : option string;
  includeHeaders : option bool;
  clearExisting : option bool
}.

(** [value || ''] *)
Definition orEmpty (value : option string) : string :=
  match value with
  | Some s => s
  | None => ""
  end.

(** [Number.prototype.toString] on an integer. *)
Definition toString (n : Z) : string := NilZero.string_of_int (Z.to_int n).

Definition headers : list string :=
  [ "Full Name"; "First Name"; "Last Name"; "Title"; "Email"; "LinkedIn URL";
    "Company"; "Job Title"; "Job URL"; "Job Location"; "Job Salary";
    "Lead Score"; "Qualification Notes"; "Date Added" ].

(** One element of [rows]; [today] is
    [new Date().toISOString().split('T')[0]]. *)
Definition row (today : string) (lead : LeadData) : list string :=
  [ orEmpty (ld_fullName lead);
    orEmpty (ld_firstName lead);
    orEmpty (ld_lastName lead);
    orEmpty (ld_title lead);
    orEmpty (ld_email lead);
    orEmpty (ld_linkedinUrl lead);
    ld_companyName lead;
    ld_jobTitle lead;
    ld_jobUrl lead;
    orEmpty (ld_jobLocation lead);
    orEmpty (ld_jobSalary lead);
    toString (ld_leadScore lead);
    orEmpty (ld_qualificationNotes lead);
    today ].

(** [ensureSheetExists]: a missing sheet is added, empty. *)
Definition ensureSheetExists (name : string) (doc : Spreadsheet) : Spreadsheet :=
  match doc !! name with
  | Some _ => doc
  | None => <[name := []]> doc
  end.

(** What [values.clear] on the columns A to Z leaves of a row: nothing
    when the row ends within them, the cells from column AA on behind 26
    empty ones otherwise. *)
Definition clearColumns (cells : list string) : list string :=
  if (length cells <=? 26)%nat then [] else repeat "" 26 ++ skipn 26 cells.

(** The rows of a sheet down to the last one that holds a value. *)
Fixpoint usedRows (rows : list (list string)) : list (list string) :=
  match rows with
  | [] => []
  | cells :: below =>
      match usedRows below with
      | [] => if forallb (String.eqb "") cells then [] else [cells]
      | used => cells :: used
      end
  end.

(** [clearSheet]: [values.clear] on the columns A to Z of the sheet. *)
Definition clearSheet (name : string) (doc : Spreadsheet) : Spreadsheet :=
  alter (fun held => usedRows (map clearColumns held)) name doc.

(** [values.append] on the columns A to N: the rows go below the rows the
    sheet holds. *)
Definition append (name : string) (values : list (list string)) (doc : Spreadsheet)
    : Spreadsheet :=
  alter (fun held => held ++ values) name doc.

(** [exportLeads] when no call of the API fails: the values of the
    spreadsheet after it ([formatSheet] changes no value). *)
Definition exportLeads (today : string) (leads : list LeadData)
    (options : ExportOptions) (doc : Spreadsheet) : Spreadsheet :=
  let name := default "Leads" (sheetName options) in
  let doc := ensureSheetExists name doc in
  let doc := if default false (clearExisting options) then clearSheet name doc else doc in
  let rows := map (row today) leads in
  let values := if default true (includeHeaders options) then headers :: rows else rows in
  append name values doc.

(** The cell of a row of the sheet that stands under the given header. *)
Definition cellUnder (header : string) (cells : list string) : option string :=
  snd <$> find (fun column => String.eqb (fst column) header) (combine headers cells).

(** The options the processor passes. *)
Definition processorOptions : ExportOptions :=
  {| sheetName := Some "Leads"; includeHeaders := Some true;
     clearExisting := Some true |}.

End GoogleSheetsService.

(** ** What the scraper reads from a page ([linkedin-scraper.ts]) *)

Module LinkedInScraper.

(** [String.prototype.trim] on the Latin-1 range: the white space and the
    line terminators below U+0100 are U+0009 to U+000D, the space and the
    no-break space. *)
Definition isWhiteSpace (c : ascii) : bool :=
  let n := nat_of_ascii c in
  ((9 <=? n) && (n <=? 13) || (n =? 32) || (n =? 160))%nat.

Fixpoint trimStart (s : string) : string :=
  match s with
  | EmptyString => EmptyString
  | String c rest => if isWhiteSpace c then trimStart rest else s
  end.

Fixpoint trimEnd (s : string) : string :=
  match s with
  | EmptyString => EmptyString
  | String c rest =>
      match trimEnd rest with
      | EmptyString => if isWhiteSpace c then EmptyString else String c EmptyString
      | kept => String c kept
      end
  end.

Definition trim (s : string) : string := trimEnd (trimStart s).

(** The anchor matched by [.job-card-list__title a]. *)
Record Anchor := {
  textContent : string;
  href : string
}.

(** An element matched by [[data-job-id]], as the three selectors see it:
    the title link, and the text of the company and of the first metadata
    element, each [None] when [querySelector] finds nothing. *)
Record Card := {
  titleElement : option Anchor;
  companyElement : option string;
  locationElement : option string
}.

(** The callback of [jobCards.forEach]: what it pushes to [jobs]. *)
Definition extractJob (card : Card) : list JobListing :=
  match titleElement card, companyElement card with
  | Some link, Some companyText =>
      [ {| title := trim (textContent link);
           company := trim companyText;
           location := match locationElement card with
                       | Some text => trim text
                       | None => ""
                       end;
           url := href link;
           description := None; salary := None; postedDate := None;
           hiringManager := None |} ]
  | _, _ => []
  end.

(** [extractJobsFromPage] over the cards of the current page. *)
Definition extractJobsFromPage (cards : list Card) : list JobListing :=
  flat_map extractJob cards.

(** The element matched by [[data-test-id="hiring-team"]]: the text of the
    name and of the title element and the [href] of the profile link, each
    [None] when [querySelector] finds nothing. *)
Record HiringSection := {
  nameElement : option string;
  hiringTitleElement : option string;
  profileLink : option string
}.

(** A job page as the two extractors see it. *)
Record JobPage := {
  hiringSection : option HiringSection;
  descElement : option string
}.

(** [extractHiringManagerInfo]; [page] is [None] when [page.goto] throws. *)
Definition extractHiringManagerInfo (page : option JobPage) : option HiringManager :=
  match page with
  | None => None
  | Some p =>
      match hiringSection p with
      | None => None
      | Some section =>
          Some {| hm_name := trim <$> nameElement section;
                  hm_title := trim <$> hiringTitleElement section;
                  hm_linkedinUrl := profileLink section;
                  hm_email := None |}
      end
  end.

(** [extractJobDescription]; [page] is [None] when [page.goto] throws. *)
Definition extractJobDescription (page : option JobPage) : string :=
  match page with
  | None => ""
  | Some p =>
      match descElement p with
      | Some text => trim text
      | None => ""
      end
  end.

(** What the browser shows for one page of results: [page.goto] throws,
    [page.evaluate] throws, the probe for the Next button throws, or all
    three succeed. *)
Inductive ResultsPage :=
| GotoThrows
| EvaluateThrows
| ProbeThrows (cards : list Card)
| Shown (cards : list Card) (hasNextPage : bool).

(** A site: its pages of results, and the job page behind a URL at the
    visit of each of the two extractors. *)
Record Site := {
  results : nat -> ResultsPage;
  visitForDescription : string -> option JobPage;
  visitForHiringManager : string -> option JobPage
}.

(** The body of the [try] block of [searchJobs] on one page of the site. *)
Definition readResults (page : ResultsPage) : PageOutcome :=
  match page with
  | GotoThrows => GotoFails
  | EvaluateThrows => ExtractFails
  | ProbeThrows cards => NextProbeFails (extractJobsFromPage cards)
  | Shown cards hasNextPage => PageLoaded (extractJobsFromPage cards) hasNextPage
  end.

(** The test [titleElement && companyElement && linkElement] of the
    callback. *)
Definition isComplete (card : Card) : bool :=
  match titleElement card, companyElement card with
  | Some _, Some _ => true
  | _, _ => false
  end.

(** The string is empty or starts with a character that is not white
    space. *)
Definition startsBlack (s : string) : Prop :=
  match s with
  | EmptyString => True
  | String c _ => isWhiteSpace c = false
  end.

(** What holds of every listing read from a card. *)
Definition readFromCard (l : JobListing) : Prop :=
  trim (title l) = title l /\ trim (company l) = company l /\
  trim (location l) = location l /\
  description l = None /\ salary l = None /\ postedDate l = None /\
  hiringManager l = None.

End LinkedInScraper.

(** The collaborators of a run whose scraper reads the site; the launch,
    the login, the spreadsheet service and the clock are those of [base]. *)
Definition onSite (site : LinkedInScraper.Site) (base : Env) : Env :=
  {| launchError := launchError base;
     loginSuccess := loginSuccess base;
     fetch := fun page =>
       LinkedInScraper.readResults (LinkedInScraper.results site page);
     extractJobDescription := fun jobUrl =>
       LinkedInScraper.extractJobDescription
         (LinkedInScraper.visitForDescription site jobUrl);
     extractHiringManagerInfo := fun jobUrl =>
       LinkedInScraper.extractHiringManagerInfo
         (LinkedInScraper.visitForHiringManager site jobUrl);
     spreadsheet := spreadsheet base;
     exportSucceeds := exportSucceeds base;
     now := now base |}.

(** ** Sample data

    Concrete listings, collaborators and stores on which the properties
    below are exercised. *)

Module Sample.

Definition criteria (exclude : bool) (pages : Q) : SearchCriteria :=
  {| keywords := "finance accounting"; sc_location := "United Kingdom";
     experience := Some "mid-level"; jobType := None; industry := None;
     companySize := None; excludeAgencies := Some exclude;
     maxPages := Some pages |}.

Definition listing (t c u : string) : JobListing :=
  {| title := t; company := c; location := "London"; url := u;
     description := None; salary := None; postedDate := None;
     hiringManager := None |}.

Definition agencyListing : JobListing :=
  listing "Accountant" "Hays Recruitment" "https://www.linkedin.com/jobs/view/1".

Definition directListing : JobListing :=
  listing "Senior Accountant" "Acme Ltd" "https://www.linkedin.com/jobs/view/2".

Definition contact (n : string) (e : option string) : HiringManager :=
  {| hm_name := Some n; hm_title := None; hm_linkedinUrl := None; hm_email := e |}.

(** A browser that finds one page holding [found], no description and no
    hiring team. *)
Definition browser (found : list JobListing) : Env :=
  {| launchError := None; loginSuccess := true;
     fetch := fun _ => PageLoaded found false;
     extractJobDescription := fun _ => "";
     extractHiringManagerInfo := fun _ => None;
     spreadsheet := Some "sheet-1"; exportSucceeds := true; now := 1000 |}.

(** A search whose second page cannot be fetched: the first page holds
    [a] and a Next button, the third holds [b] and none. *)
Definition flakyFetch (a b : JobListing) (page : nat) : PageOutcome :=
  match page with
  | 0%nat => PageLoaded [a] true
  | 1%nat => GotoFails
  | _ => PageLoaded [b] false
  end.

(** A browser over a given sequence of page outcomes. *)
Definition pagedBrowser (pages : nat -> PageOutcome) : Env :=
  {| launchError := None; loginSuccess := true;
     fetch := pages;
     extractJobDescription := fun _ => "";
     extractHiringManagerInfo := fun _ => None;
     spreadsheet := Some "sheet-1"; exportSucceeds := true; now := 1000 |}.

Definition jobData (id : string) (c : SearchCriteria) : ScrapingJobData :=
  {| jobId := id; searchCriteria := c;
     linkedinEmail := "user@example.com"; linkedinPassword := "secret" |}.

Definition longText : string :=
  "We are looking for an experienced accountant to join the finance team of a growing business. You will own the month-end close, prepare management accounts, support the annual audit and work with the wider business on budgets and forecasts.".

(** A direct listing that earns every bonus of the scorer. *)
Definition fullListing : JobListing :=
  {| title := "Senior Accountant"; company := "Acme Ltd"; location := "London";
     url := "https://www.linkedin.com/jobs/view/4";
     description := Some longText; salary := Some "GBP 60,000";
     postedDate := None;
     hiringManager := Some (contact "Jo Bloggs" (Some "jo@acme.example")) |}.

Definition emptyDb : Db := {| jobs := ∅; companies := []; leads := [] |}.

Definition start (d : Db) : LoopState :=
  {| world := {| db := d; events := [] |}; processedCount := 0; validLeads := [] |}.

(** A server holding one job in the given status, still in the queue and
    not held by a worker. *)
Definition jobRow (st : JobStatus) : JobRow :=
  {| job_status := st; job_searchCriteria := criteria true 3;
     job_totalJobsFound := 0; job_leadsGenerated := 0; job_progress := 0;
     job_errorMessage := None; job_createdAt := 1000; job_updatedAt := 1000;
     job_completedAt := None |}.

Definition serverWith (id : string) (st : JobStatus) : Server :=
  {| store := {| jobs := {[ id := jobRow st ]}; companies := []; leads := [] |};
     queue := {[ id := {| entry_data := jobData id (criteria true 3);
                          entry_locked := false |} ]} |}.

(** A request whose search criteria ask for the given number of pages. *)
Definition request (pages : Q) : json :=
  JObj [ ("searchCriteria",
          JObj [ ("keywords", JStr "finance accounting");
                 ("location", JStr "United Kingdom");
                 ("maxPages", JNum pages) ]) ].

Definition apiEnv : ApiEnv :=
  {| LINKEDIN_EMAIL := Some "user@example.com";
     LINKEDIN_PASSWORD := Some "secret";
     uuid := "job-7"; requestTime := 1000 |}.

Definition emptyServer : Server := {| store := emptyDb; queue := ∅ |}.

(** Two pages of one listing each. *)
Definition twoPages (a b : JobListing) (page : nat) : PageOutcome :=
  match page with
  | 0%nat => PageLoaded [a] true
  | _ => PageLoaded [b] false
  end.

Definition otherListing : JobListing :=
  listing "Finance Manager" "Globex plc" "https://www.linkedin.com/jobs/view/3".

(** A store holding job [id] as the submission interface creates it. *)
Definition createdRow (c : SearchCriteria) : JobRow :=
  {| job_status := pending; job_searchCriteria := c;
     job_totalJobsFound := 0; job_leadsGenerated := 0;
     job_progress := 0; job_errorMessage := None;
     job_createdAt := 1000; job_updatedAt := 1000;
     job_completedAt := None |}.

Definition worldWith (id : string) (c : SearchCriteria) (ls : list LeadRow) : World :=
  {| db := {| jobs := {[ id := createdRow c ]}; companies := []; leads := ls |};
     events := [] |}.

(** A lead that an earlier job, ["job-0"], persisted for the posting of
    [directListing] and that has not been exported. *)
Definition earlierLead : LeadRow :=
  leadRow 1 "job-0" 1 directListing "" None 90.

(** The run of a job that asks for one and a half pages and finds a
    listing on each of two pages. *)
Definition fractionalRun : Outcome * World :=
  process (pagedBrowser (twoPages directListing otherListing))
          (jobData "job-1" (criteria true (3 # 2)))
          (worldWith "job-1" (criteria true (3 # 2)) []).

(** A company row that an earlier run created for Acme Ltd. *)
Definition acme : CompanyRow :=
  {| company_id := 1; company_name := "Acme Ltd";
     company_isRecruitmentAgency := false; company_isBlacklisted := false |}.

(** A store holding job [id] as created, the given companies and no lead. *)
Definition worldHolding (id : string) (c : SearchCriteria) (cs : list CompanyRow) : World :=
  {| db := {| jobs := {[ id := createdRow c ]}; companies := cs; leads := [] |};
     events := [] |}.

(** A browser whose export to the spreadsheet fails. *)
Definition failingExport (found : list JobListing) : Env :=
  {| launchError := None; loginSuccess := true;
     fetch := fun _ => PageLoaded found false;
     extractJobDescription := fun _ => "";
     extractHiringManagerInfo := fun _ => None;
     spreadsheet := Some "sheet-1"; exportSucceeds := false; now := 1000 |}.


(** A card of a page of results, with its title link and company. *)
Definition card (t c u : string) : LinkedInScraper.Card :=
  {| LinkedInScraper.titleElement :=
       Some {| LinkedInScraper.textContent := t; LinkedInScraper.href := u |};
     LinkedInScraper.companyElement := Some c;
     LinkedInScraper.locationElement := None |}.

(** The card of an agency, and the listing the scraper reads from it. *)
Definition agencyCard : LinkedInScraper.Card :=
  card "  Accountant " " Hays Recruitment " "https://www.linkedin.com/jobs/view/1".

Definition agencyCardListing : JobListing :=
  {| title := "Accountant"; company := "Hays Recruitment"; location := "";
     url := "https://www.linkedin.com/jobs/view/1";
     description := None; salary := None; postedDate := None;
     hiringManager := None |}.

(** A site with one page of results, an agency and a direct employer,
    whose job pages show a hiring contact and no description. *)
Definition site : LinkedInScraper.Site :=
  {| LinkedInScraper.results := fun _ =>
       LinkedInScraper.Shown
         [ agencyCard;
           card "Senior Accountant" "Acme Ltd"
                "https://www.linkedin.com/jobs/view/2" ] false;
     LinkedInScraper.visitForDescription := fun _ => None;
     LinkedInScraper.visitForHiringManager := fun _ =>
       Some {| LinkedInScraper.hiringSection :=
                 Some {| LinkedInScraper.nameElement := Some "Jo Bloggs";
                         LinkedInScraper.hiringTitleElement := None;
                         LinkedInScraper.profileLink := None |};
               LinkedInScraper.descElement := None |} |}.


End Sample.

(** * Properties *)

(** ** Strings *)

Section StringFacts.

Lemma startsWith_spec (s t : string) :
  startsWith s t = true <-> exists post, s = (t ++ post)%string.
Proof.
  revert s; induction t as [|b t IH]; intros s; simpl.
  - split; [intros _; now exists s | reflexivity].
  - destruct s as [|a s].
    + split; [discriminate | intros [post H]; discriminate].
    + destruct (Ascii.eqb_spec a b) as [->|Hne].
      * rewrite IH. split; intros [post H]; exists post.
        -- now rewrite H.
        -- now injection H.
      * split; [discriminate | intros [post H]; injection H; congruence].
Qed.

Lemma includes_spec (s t : string) :
  includes s t = true <-> exists pre post, s = (pre ++ t ++ post)%string.
Proof.
  induction s as [|a s IH]; simpl.
  - destruct (startsWith "" t) eqn:E.
    + apply startsWith_spec in E as [post E].
      split; [intros _; now exists "", post | reflexivity].
    + split; [discriminate|]. intros [pre [post H]].
      destruct pre; simpl in H.
      * assert (startsWith "" t = true) by (apply startsWith_spec; eauto).
        congruence.
      * discriminate.
  - destruct (startsWith (String a s) t) eqn:E.
    + apply startsWith_spec in E as [post E].
      split; [intros _; now exists "", post | reflexivity].
    + rewrite IH. split.
      * intros [pre [post H]]. exists (String a pre), post. now rewrite H.
      * intros [pre [post H]]. destruct pre as [|c pre]; simpl in H.
        -- assert (startsWith (String a s) t = true)
             by (apply startsWith_spec; eauto).
           congruence.
        -- injection H as _ H. eauto.
Qed.

Lemma toLowerCase_app (a b : string) :
  toLowerCase (a ++ b) = (toLowerCase a ++ toLowerCase b)%string.
Proof. induction a as [|c a IH]; simpl; [reflexivity | now rewrite IH]. Qed.

Lemma toLowerCase_split (s x y : string) :
  toLowerCase s = (x ++ y)%string ->
  exists a b, s = (a ++ b)%string /\ toLowerCase a = x /\ toLowerCase b = y.
Proof.
  revert s; induction x as [|c x IH]; intros s H; simpl in H.
  - now exists "", s.
  - destruct s as [|c' s]; simpl in H; [discriminate|].
    injection H as Hc H. apply IH in H as (a & b & -> & <- & <-).
    exists (String c' a), b. simpl. now rewrite Hc.
Qed.

(** Searching the lower-cased text for the lower-cased keyword finds the
    keyword in any casing. *)
Lemma includes_toLowerCase (s kw : string) :
  includes (toLowerCase s) (toLowerCase kw) = true <->
  contains_ignoring_case s kw.
Proof.
  rewrite includes_spec. unfold contains_ignoring_case, eq_ignoring_case.
  split.
  - intros (pre & post & H).
    apply toLowerCase_split in H as (a & rest & -> & <- & H).
    apply toLowerCase_split in H as (mid & b & -> & H & <-).
    now exists a, mid, b.
  - intros (pre & mid & post & -> & H).
    exists (toLowerCase pre), (toLowerCase post).
    now rewrite !toLowerCase_app, H.
Qed.

Lemma truthy_present (o : option string) : truthy o = true <-> present o.
Proof.
  unfold truthy, present. destruct o as [s|].
  - destruct (String.eqb_spec s ""); simpl; split.
    + discriminate.
    + intros (s' & [= <-] & Hne). contradiction.
    + intros _. eauto.
    + reflexivity.
  - split; [discriminate | intros (s & H & _); discriminate].
Qed.

End StringFacts.

(** ** Agency classifier *)

(** C4. [isRecruitmentAgency] answers [true] exactly when the company name
    contains one of the configured agency keywords as a substring, whatever
    the casing of the name; it answers [false] exactly when the name contains
    none of them. Being a function of the name alone, it is pure and total. *)
Theorem isRecruitmentAgency_iff_keyword (companyName : string) :
  (isRecruitmentAgency companyName = true <->
   exists keyword, In keyword RECRUITMENT_AGENCY_KEYWORDS /\
                   contains_ignoring_case companyName keyword) /\
  (isRecruitmentAgency companyName = false <->
   forall keyword, In keyword RECRUITMENT_AGENCY_KEYWORDS ->
                   ~ contains_ignoring_case companyName keyword).
Proof.
  assert (Ht : isRecruitmentAgency companyName = true <->
               exists keyword, In keyword RECRUITMENT_AGENCY_KEYWORDS /\
                               contains_ignoring_case companyName keyword).
  { unfold isRecruitmentAgency. rewrite existsb_exists.
    split; intros (kw & Hin & H); exists kw; split; auto;
      now apply includes_toLowerCase. }
  split; [exact Ht|].
  destruct (isRecruitmentAgency companyName).
  - split; [discriminate|]. intros Hnone.
    destruct (proj1 Ht eq_refl) as (kw & Hin & Hc). now elim (Hnone kw).
  - split; [|reflexivity]. intros _ kw Hin Hc.
    assert (false = true) by (apply Ht; eauto). discriminate.
Qed.

(** ** Lead scorer *)

Section Scorer.

Lemma adds_bool (P : Prop) (b : bool) (pts : Z) :
  (b = true <-> P) -> adds P pts (if b then pts else 0).
Proof.
  intros H. destruct b; [left | right]; split; auto.
  - now apply H.
  - intros HP. apply H in HP. discriminate.
Qed.

Lemma adds_functional (P : Prop) (pts d1 d2 : Z) :
  adds P pts d1 -> adds P pts d2 -> d1 = d2.
Proof. intros [[? ->]|[? ->]] [[? ->]|[? ->]]; tauto. Qed.

Lemma clamp_max_min (x : Z) : Z.max 0 (Z.min 100 x) = clamp 0 100 x.
Proof.
  unfold clamp. destruct (Z.ltb_spec x 0); [lia|].
  destruct (Z.ltb_spec 100 x); lia.
Qed.

Lemma long_description_spec (o : option string) :
  truthy o && (200 <? Z.of_nat (String.length (default "" o))) = true <->
  exists text, o = Some text /\ (200 < String.length text)%nat.
Proof.
  rewrite andb_true_iff, Z.ltb_lt. split.
  - intros [Ht Hlen]. destruct o as [text|]; [|discriminate].
    exists text. split; [reflexivity | simpl in Hlen; lia].
  - intros (text & -> & Hlen). simpl. split; [|lia].
    destruct text; [simpl in Hlen; lia | reflexivity].
Qed.

Lemma qualityKeywords_lower :
  Forall (fun kw => toLowerCase kw = kw) qualityKeywords.
Proof. repeat constructor. Qed.

Lemma seniority_title_spec (t : string) :
  existsb (fun keyword => includes (toLowerCase t) keyword) qualityKeywords = true <->
  exists kw, In kw seniority_keywords /\ contains_ignoring_case t kw.
Proof.
  rewrite existsb_exists. change seniority_keywords with qualityKeywords.
  pose proof qualityKeywords_lower as Hl. rewrite List.Forall_forall in Hl.
  split; intros (kw & Hin & H); exists kw; split; auto.
  - apply includes_toLowerCase. now rewrite (Hl kw Hin).
  - apply includes_toLowerCase in H. now rewrite (Hl kw Hin) in H.
Qed.

Lemma rawLeadScore_sum (job : JobListing) :
  rawLeadScore job =
  50 + (if isRecruitmentAgency (company job) then -20 else 30)
     + (if truthy (managerName job) then 15 else 0)
     + (if truthy (managerEmail job) then 20 else 0)
     + (if truthy (salary job) then 10 else 0)
     + (if truthy (description job) &&
           (200 <? Z.of_nat (String.length (default "" (description job))))
        then 5 else 0)
     + (if existsb (fun keyword => includes (toLowerCase (title job)) keyword)
                   qualityKeywords
        then 10 else 0).
Proof.
  unfold rawLeadScore.
  destruct (isRecruitmentAgency _), (truthy (managerName job)),
    (truthy (managerEmail job)), (truthy (salary job)), (truthy (description job) && _),
    (existsb _ _); simpl; lia.
Qed.

Lemma rawLeadScore_spec (job : JobListing) : raw_score_spec job (rawLeadScore job).
Proof.
  rewrite rawLeadScore_sum. unfold raw_score_spec.
  eexists _, _, _, _, _, _.
  split; [|repeat split; [apply adds_bool, truthy_present
                         |apply adds_bool, truthy_present
                         |apply adds_bool, truthy_present
                         |apply adds_bool, long_description_spec
                         |apply adds_bool, seniority_title_spec]].
  destruct (isRecruitmentAgency (company job)); [right | left]; split; reflexivity.
Qed.

Lemma raw_score_spec_functional (job : JobListing) (r1 r2 : Z) :
  raw_score_spec job r1 -> raw_score_spec job r2 -> r1 = r2.
Proof.
  intros (a1 & n1 & e1 & s1 & d1 & t1 & Ha1 & Hn1 & He1 & Hs1 & Hd1 & Ht1 & ->)
         (a2 & n2 & e2 & s2 & d2 & t2 & Ha2 & Hn2 & He2 & Hs2 & Hd2 & Ht2 & ->).
  rewrite (adds_functional _ _ _ _ Hn1 Hn2), (adds_functional _ _ _ _ He1 He2),
    (adds_functional _ _ _ _ Hs1 Hs2), (adds_functional _ _ _ _ Hd1 Hd2),
    (adds_functional _ _ _ _ Ht1 Ht2).
  assert (a1 = a2) as -> by (destruct Ha1 as [[? ->]|[? ->]], Ha2 as [[? ->]|[? ->]]; congruence).
  reflexivity.
Qed.

End Scorer.

(** C1. The lead score is the clamp to [0,100] of base 50, plus 30 for a
    company the classifier does not take for an agency and minus 20 for one it
    does, plus 15, 20 and 10 for a present contact name, contact email and
    salary, plus 5 for a description longer than 200 characters, plus 10 for
    a title containing a seniority keyword in any casing; no other value
    satisfies the rule. The score always lies in [0,100], and a non-agency
    listing with every bonus has raw score 140 and score 100. *)
Theorem calculateLeadScore_spec (job : JobListing) :
  (forall result, lead_score_spec job result <-> result = calculateLeadScore job) /\
  0 <= calculateLeadScore job <= 100 /\
  (isRecruitmentAgency (company job) = false ->
   present (managerName job) -> present (managerEmail job) ->
   present (salary job) ->
   (exists text, description job = Some text /\ (200 < String.length text)%nat) ->
   (exists kw, In kw seniority_keywords /\ contains_ignoring_case (title job) kw) ->
   raw_score_spec job 140 /\ calculateLeadScore job = 100).
Proof.
  split; [|split].
  - intros result. unfold lead_score_spec, calculateLeadScore.
    rewrite clamp_max_min. split.
    + intros (raw & Hraw & ->).
      now rewrite (raw_score_spec_functional _ _ _ Hraw (rawLeadScore_spec job)).
    + intros ->. exists (rawLeadScore job). split; [apply rawLeadScore_spec | reflexivity].
  - unfold calculateLeadScore. lia.
  - intros Hag Hn He Hs Hd Ht.
    assert (Hraw : rawLeadScore job = 140).
    { rewrite rawLeadScore_sum, Hag.
      rewrite (proj2 (truthy_present _) Hn), (proj2 (truthy_present _) He),
        (proj2 (truthy_present _) Hs), (proj2 (long_description_spec _) Hd),
        (proj2 (seniority_title_spec _) Ht). reflexivity. }
    split.
    + rewrite <- Hraw. apply rawLeadScore_spec.
    + unfold calculateLeadScore. rewrite Hraw. reflexivity.
Qed.

Lemma calculateLeadScore_full_listing_witness :
  raw_score_spec Sample.fullListing 140 /\ calculateLeadScore Sample.fullListing = 100.
Proof.
  apply (calculateLeadScore_spec Sample.fullListing).
  - reflexivity.
  - eexists. split; [reflexivity | discriminate].
  - eexists. split; [reflexivity | discriminate].
  - eexists. split; [reflexivity | discriminate].
  - eexists. split; [reflexivity | vm_compute; lia].
  - exists "senior". split; [simpl; tauto|].
    exists "", "Senior", " Accountant". split; reflexivity.
Defined.

(** ** One listing of the processor's loop *)

Section Listing.

Variables (env : Env) (id : string) (criteria : SearchCriteria) (total : nat).

Lemma updateJob_leads (p : JobPatch) (w : World) :
  leads (db (updateJob id p w)) = leads (db w).
Proof. unfold updateJob. now destruct (jobs _ !! id). Qed.

Lemma updateJob_companies (p : JobPatch) (w : World) :
  companies (db (updateJob id p w)) = companies (db w).
Proof. unfold updateJob. now destruct (jobs _ !! id). Qed.

Lemma findCompany_in (name : string) (d : Db) (c : CompanyRow) :
  findCompany name d = Some c -> In c (companies d) /\ company_name c = name.
Proof.
  unfold findCompany. intros H. apply find_some in H as [Hin Hn].
  split; [assumption | now apply String.eqb_eq].
Qed.

Lemma company_referred (c : CompanyRow) (cs : list CompanyRow) :
  In c cs -> existsb (fun c' => company_id c' =? company_id c) cs = true.
Proof.
  intros Hin. apply existsb_exists. exists c. split; [assumption | apply Z.eqb_refl].
Qed.

(** The two ways the body of [if (leadScore > 40)] can end. Either way the
    table of jobs, the events and the count of processed listings are as
    before, and at most one company row is added, for the company of the
    listing. *)
Lemma keepLead_cases (jobListing : JobListing) (description : string)
    (manager : option HiringManager) (leadScore : Z) (st : LoopState) :
  let d := db (world st) in
  let a := keepLead id jobListing description manager leadScore st in
  let st' := stateOf a in
  jobs (db (world st')) = jobs d /\
  events (world st') = events (world st) /\
  processedCount st' = processedCount st /\
  (companies (db (world st')) = companies d \/
   findCompany (company jobListing) d = None /\
   acceptsCompany (company jobListing) = true /\
   companies (db (world st')) =
     companies d ++ [fst (insertCompany (company jobListing)
                            (isRecruitmentAgency (company jobListing)) d)]) /\
  if takes id d jobListing description manager leadScore
  then exists c row,
         a = Passed st' /\
         In c (companies (db (world st'))) /\ company_name c = company jobListing /\
         row = leadRow (Z.of_nat (length (leads d)) + 1) id (company_id c)
                       jobListing description manager leadScore /\
         leads (db (world st')) = leads d ++ [row] /\
         validLeads st' = validLeads st ++ [leadData row (company jobListing)]
  else a = Threw st' /\
       leads (db (world st')) = leads d /\ validLeads st' = validLeads st.
Proof.
  intros d a st'. subst a st'. unfold keepLead, takes. fold d.
  destruct (findCompany (company jobListing) d) as [c|] eqn:Ef.
  - destruct (findCompany_in _ _ _ Ef) as [Hin Hname].
    unfold acceptsLead, leadRefers.
    cbn [leadRow lead_jobId lead_companyId orb].
    rewrite (company_referred c _ Hin), andb_true_r.
    change (leadFits (leadRow (Z.of_nat (length (leads d)) + 1) id (company_id c)
                              jobListing description manager leadScore))
      with (leadFits (leadRow 0 id 0 jobListing description manager leadScore)).
    destruct (jobs d !! id); cbn [andb];
      [destruct (leadFits _)|]; cbn [stateOf world db events processedCount validLeads
                                     insertLead jobs companies leads];
      repeat split; auto; exists c; eexists; repeat split; auto.
  - cbn [orb]. destruct (acceptsCompany (company jobListing)) eqn:Ec.
    + unfold insertCompany, acceptsLead, leadRefers.
      cbn [fst leadRow lead_jobId lead_companyId jobs companies leads company_id].
      set (c := {| company_id := Z.of_nat (length (companies d)) + 1;
                   company_name := company jobListing;
                   company_isRecruitmentAgency := isRecruitmentAgency (company jobListing);
                   company_isBlacklisted := false |}).
      assert (Hc : existsb (fun c' => company_id c' =? Z.of_nat (length (companies d)) + 1)
                           (companies d ++ [c]) = true)
        by (apply (company_referred c); apply in_or_app; right; now left).
      rewrite Hc, andb_true_r.
      change (leadFits (leadRow (Z.of_nat (length (leads d)) + 1) id
                                (Z.of_nat (length (companies d)) + 1)
                                jobListing description manager leadScore))
        with (leadFits (leadRow 0 id 0 jobListing description manager leadScore)).
      destruct (jobs d !! id); cbn [andb];
        [destruct (leadFits _)|]; cbn [stateOf world db events processedCount validLeads
                                       insertLead jobs companies leads];
        (split; [reflexivity|]); (split; [reflexivity|]); (split; [reflexivity|]);
        (split; [right; auto|]).
      * exists c. eexists. repeat split; auto. apply in_or_app; right; now left.
      * auto.
      * auto.
    + rewrite andb_false_r. cbn [andb stateOf]. repeat split; auto.
Qed.

Lemma takes_stores (jobListing : JobListing) (d : Db) :
  takes id d jobListing (extractJobDescription env (url jobListing))
        (extractHiringManagerInfo env (url jobListing))
        (calculateLeadScore
           (enhance jobListing (extractJobDescription env (url jobListing))
                    (extractHiringManagerInfo env (url jobListing)))) =
  stores env id d jobListing.
Proof. reflexivity. Qed.

(** The four ways an iteration can go. *)
Lemma processListing_cases (st : LoopState) (jobListing : JobListing) :
  let st' := processListing env id criteria total st jobListing in
  (computedScore env criteria jobListing = None /\ st' = st) \/
  (exists score, computedScore env criteria jobListing = Some score /\
                 score <= 40 /\
                 leads (db (world st')) = leads (db (world st)) /\
                 companies (db (world st')) = companies (db (world st)) /\
                 validLeads st' = validLeads st /\
                 processedCount st' = S (processedCount st)) \/
  (exists score row,
      computedScore env criteria jobListing = Some score /\ 40 < score /\
      stores env id (db (world st)) jobListing = true /\
      leads (db (world st')) = leads (db (world st)) ++ [row] /\
      lead_jobId row = id /\ lead_jobUrl row = url jobListing /\
      lead_leadScore row = score /\ lead_isQualified row = true /\
      lead_exportedToSheets row = false /\
      validLeads st' = validLeads st ++ [leadData row (company jobListing)] /\
      processedCount st' = S (processedCount st)) \/
  (exists score,
      computedScore env criteria jobListing = Some score /\ 40 < score /\
      stores env id (db (world st)) jobListing = false /\
      leads (db (world st')) = leads (db (world st)) /\
      validLeads st' = validLeads st /\
      processedCount st' = processedCount st /\
      jobs (db (world st')) = jobs (db (world st)) /\
      events (world st') = events (world st)).
Proof.
  unfold processListing, computedScore.
  destruct (skipped criteria jobListing); [left; split; reflexivity|].
  set (score := calculateLeadScore _). right.
  destruct (Z.ltb_spec 40 score) as [Hq|Hq].
  - right.
    pose proof (keepLead_cases jobListing (extractJobDescription env (url jobListing))
                  (extractHiringManagerInfo env (url jobListing)) score st) as Hk.
    cbv zeta in Hk. fold score in Hk. subst score. rewrite takes_stores in Hk.
    set (score := calculateLeadScore _) in *.
    destruct Hk as (Hj & He & Hc & _ & Hk).
    destruct (stores env id (db (world st)) jobListing).
    + left. destruct Hk as (c & row & -> & _ & _ & -> & Hl & Hv).
      cbn [stateOf] in *. eexists score, _. cbn [world validLeads processedCount].
      rewrite updateJob_leads. unfold jobProgress, emit; cbn [db].
      rewrite Hl, Hv, Hc. repeat split; auto.
    + right. destruct Hk as (-> & Hl & Hv). cbn [stateOf] in *.
      exists score. repeat split; auto.
  - left. exists score. cbn [world validLeads processedCount].
    rewrite updateJob_leads, updateJob_companies.
    repeat split; assumption || reflexivity.
Qed.

End Listing.

Section Qualification.



Lemma lead_score_spec_iff (job : JobListing) (result : Z) :
  lead_score_spec job result <-> result = calculateLeadScore job.
Proof.
  unfold lead_score_spec, calculateLeadScore. rewrite clamp_max_min. split.
  - intros (raw & Hraw & ->).
    now rewrite (raw_score_spec_functional _ _ _ Hraw (rawLeadScore_spec job)).
  - intros ->. exists (rawLeadScore job). split; [apply rawLeadScore_spec | reflexivity].
Qed.

Lemma calculateLeadScore_integer (job : JobListing) :
  integer (calculateLeadScore job) = true.
Proof.
  unfold integer, calculateLeadScore. apply andb_true_iff.
  split; apply Z.leb_le; lia.
Qed.

(** A listing whose texts fit their columns is taken by a store that holds
    the row of the job. *)
Lemma fitsColumns_stores (env : Env) (id : string) (d : Db) (l : JobListing)
    (row0 : JobRow) :
  jobs d !! id = Some row0 -> fitsColumns env l = true -> stores env id d l = true.
Proof.
  intros Hrow Hfit. unfold stores, takes, acceptsCompany. rewrite Hrow.
  unfold fitsColumns in Hfit. cbv zeta in Hfit.
  rewrite !andb_true_iff in Hfit.
  destruct Hfit as (((((((((Hc & Ht) & Hu) & Hl) & Hd) & Hs) & Hn) & Hmt) & He) & Hlu).
  rewrite Hc, orb_true_r. cbn [andb]. unfold leadFits.
  cbn [leadRow lead_fullName lead_firstName lead_lastName lead_title lead_email
       lead_linkedinUrl lead_jobTitle lead_jobUrl lead_jobLocation lead_jobDescription
       lead_jobSalary lead_leadScore lead_qualificationNotes].
  rewrite Hn, Hmt, He, Hlu, Ht, Hu, Hl, Hd, Hs, calculateLeadScore_integer. reflexivity.
Qed.

End Qualification.




(** C10. Scoring alone does not exclude recruitment agencies. There is a
    listing, read from a card of a page of results, whose company matches an
    agency keyword and whose score exceeds the threshold 40. With a contact
    name and a contact email the scorer gives it 50 - 20 + 15 + 20 = 65. In
    a run the extractor of the hiring contact reads a name and never an
    email, so the score computed for it is 50 - 20 + 15 = 45; unless the
    criteria ask to exclude agencies, the loop persists it as a Lead with
    [isQualified] true, from any state of the loop whose store holds the row
    of the job. *)
Theorem agency_listing_can_qualify :
  exists (card : LinkedInScraper.Card) (jobListing : JobListing),
    LinkedInScraper.extractJobsFromPage [card] = [jobListing] /\
    (exists keyword, In keyword RECRUITMENT_AGENCY_KEYWORDS /\
                     contains_ignoring_case (company jobListing) keyword) /\
    lead_score_spec
      (enhance jobListing "" (Some (Sample.contact "Jo Bloggs" (Some "jo@hays.example"))))
      65 /\
    qualification_threshold < 65 /\
    forall (base : Env) (id : string) (criteria : SearchCriteria) (total : nat)
           (st : LoopState) (row0 : JobRow),
      excludeAgencies criteria <> Some true ->
      jobs (db (world st)) !! id = Some row0 ->
      let env := onSite Sample.site base in
      computedScore env criteria jobListing = Some 45 /\
      qualification_threshold < 45 /\
      exists row,
        leads (db (world (processListing env id criteria total st jobListing))) =
          leads (db (world st)) ++ [row] /\
        lead_jobId row = id /\ lead_leadScore row = 45 /\
        lead_isQualified row = true.
Proof.
  exists Sample.agencyCard, Sample.agencyCardListing.
  split; [reflexivity|]. split; [|split; [|split; [reflexivity|]]].
  - exists "hays". split; [simpl; tauto|].
    exists "", "Hays", " Recruitment". split; reflexivity.
  - apply lead_score_spec_iff. reflexivity.
  - intros base id criteria total st row0 Hex Hrow0 env.
    assert (Hs : computedScore env criteria Sample.agencyCardListing = Some 45).
    { unfold computedScore, skipped.
      destruct (excludeAgencies criteria) as [[|]|]; [congruence| |]; reflexivity. }
    split; [exact Hs|]. split; [reflexivity|].
    assert (Hst : stores env id (db (world st)) Sample.agencyCardListing = true)
      by (apply (fitsColumns_stores env id _ _ row0 Hrow0); reflexivity).
    destruct (processListing_cases env id criteria total st Sample.agencyCardListing)
      as [[Hn _]|[(s & Hc & Hle & _)
                 |[(s & row & Hc & _ & _ & E & Hj & Hu & Hsc & Hq & _)
                  |(s & _ & _ & Hno & _)]]].
    + congruence.
    + rewrite Hs in Hc. injection Hc as <-. lia.
    + rewrite Hs in Hc. injection Hc as <-. exists row.
      split; [exact E|]. split; [exact Hj|]. split; [exact Hsc | exact Hq].
    + congruence.
Qed.

Lemma agency_listing_can_qualify_witness :
  exists (card : LinkedInScraper.Card) (jobListing : JobListing),
    LinkedInScraper.extractJobsFromPage [card] = [jobListing] /\
    let env := onSite Sample.site (Sample.browser []) in
    let criteria := Sample.criteria false 3 in
    let st := Sample.start (db (Sample.worldWith "job-1" criteria [])) in
    exists row,
      leads (db (world (processListing env "job-1" criteria 1 st jobListing))) =
        leads (db (world st)) ++ [row] /\
      lead_leadScore row = 45 /\ lead_isQualified row = true.
Proof.
  destruct agency_listing_can_qualify as (card & jobListing & Hcard & _ & _ & _ & Hrun).
  exists card, jobListing. split; [exact Hcard|]. intros env criteria st.
  destruct (Hrun (Sample.browser []) "job-1" criteria 1%nat st
              (Sample.createdRow criteria))
    as (_ & _ & row & E & _ & Hsc & Hq).
  - discriminate.
  - reflexivity.
  - exists row. split; [exact E|]. split; [exact Hsc | exact Hq].
Defined.

(** ** Pagination *)

Section Pagination.

Variable fetch : nat -> PageOutcome.
Variable maxPages : Q.

Lemma pageIndices_spec (page : nat) :
  In page (pageIndices maxPages) <-> (inject_Z (Z.of_nat page) < maxPages)%Q.
Proof.
  unfold pageIndices. rewrite in_seq. split.
  - intros [_ H]. simpl in H.
    apply Qle_lt_trans with (inject_Z (Qceiling maxPages - 1)).
    + rewrite <- Zle_Qle. lia.
    + apply Qceiling_lt.
  - intros H. split; [lia|]. simpl.
    assert (Hc : (inject_Z (Z.of_nat page) < inject_Z (Qceiling maxPages))%Q)
      by (eapply Qlt_le_trans; [exact H | apply Qle_ceiling]).
    rewrite <- Zlt_Qlt in Hc. lia.
Qed.

(** The loop extends the run by what the visited pages contribute. *)
Lemma searchLoop_run (pages : list nat) (r : SearchRun) :
  let r' := searchLoop fetch maxPages pages r in
  let visited := pagesVisited fetch pages in
  fetched r' = fetched r ++ visited /\
  pageErrors r' = pageErrors r ++ map S (List.filter (fun p => pageFails (fetch p)) visited) /\
  found r' = found r ++ flat_map (fun p => listingsOf (fetch p)) visited.
Proof.
  revert r. induction pages as [|page rest IH]; intros r; simpl.
  - rewrite !app_nil_r. repeat split.
  - destruct (fetch page) as [| |pageJobs|pageJobs [|]] eqn:E; simpl; rewrite ?E; simpl;
      try (match goal with
           | |- context [searchLoop fetch maxPages rest ?r0] =>
               destruct (IH r0) as (Hf & He & Hj); cbv zeta in *;
               rewrite Hf, He, Hj; simpl; rewrite <- !app_assoc; simpl;
               repeat split
           end).
    all: simpl; rewrite ?E; simpl; rewrite ?app_nil_r; repeat split.
Qed.

Lemma pagesVisited_seq (start count page : nat) :
  In page (pagesVisited fetch (seq start count)) <->
  (start <= page < start + count)%nat /\
  forall earlier, (start <= earlier < page)%nat -> endsSearch (fetch earlier) = false.
Proof.
  revert start. induction count as [|count IH]; intros start; simpl.
  - split; [tauto | lia].
  - split.
    + intros [<-|H].
      * split; [lia | intros; lia].
      * destruct (endsSearch (fetch start)) eqn:E; [contradiction|].
        apply IH in H as [Hr He]. split; [lia|].
        intros earlier Hrange.
        destruct (Nat.eq_dec earlier start) as [->|]; [assumption | apply He; lia].
    + intros [Hr He].
      destruct (Nat.eq_dec start page) as [->|Hne]; [now left | right].
      rewrite (He start) by lia. apply IH. split; [lia|].
      intros earlier Hrange. apply He. lia.
Qed.

End Pagination.

(** C3, as stated, fails: with three pages allowed, a first page showing a
    Next button and a second page whose fetch fails, the error of page 2 is
    logged and the third page is fetched all the same; its listing is
    returned with the first page's. *)
Lemma searchJobs_fetches_after_failed_page :
  Sample.flakyFetch Sample.directListing Sample.agencyListing 1 = GotoFails /\
  searchJobs loggedIn (Sample.flakyFetch Sample.directListing Sample.agencyListing)
             (Sample.criteria true 3) =
  inr {| found := [Sample.directListing; Sample.agencyListing];
         fetched := [0; 1; 2]%nat;
         pageErrors := [2%nat];
         reports :=
           [ {| currentPage := 1; totalPages := 3; jobsFound := 1; progress := 33 |};
             {| currentPage := 3; totalPages := 3; jobsFound := 2; progress := 100 |} ] |}.
Proof. split; reflexivity. Qed.

(** C3, amended. A fetch error on one page is logged and that page alone is
    skipped: pagination goes on with the next page index. The pages fetched
    are exactly the indices below [maxPages] that no earlier page ended (a
    page ends the search only by loading without a Next button), every
    fetched page that threw is logged under its page number, and the
    listings of all fetched pages are returned. The job does not fail for
    it: after a successful launch and login the processor runs to its return
    with all the returned listings counted, unless the export step throws. *)
Theorem searchJobs_skips_failed_page (env : Env) (data : ScrapingJobData) (w : World) :
  launchError env = None ->
  loginSuccess env = true ->
  let limit := orDefault (maxPages (searchCriteria data)) 5 in
  exists run,
    searchJobs loggedIn (fetch env) (searchCriteria data) = inr run /\
    (forall page,
        In page (fetched run) <->
        (inject_Z (Z.of_nat page) < limit)%Q /\
        forall earlier, (earlier < page)%nat -> endsSearch (fetch env earlier) = false) /\
    (forall page,
        In page (fetched run) -> pageFails (fetch env page) = true ->
        (inject_Z (Z.of_nat (S page)) < limit)%Q -> In (S page) (fetched run)) /\
    pageErrors run = map S (List.filter (fun p => pageFails (fetch env p)) (fetched run)) /\
    found run = flat_map (fun p => listingsOf (fetch env p)) (fetched run) /\
    ((exists generated,
         fst (process env data w) =
         Returned (Z.of_nat (length (found run))) generated) \/
     fst (process env data w) = Thrown "Failed to create spreadsheet" \/
     fst (process env data w) = Thrown "Failed to export leads to Google Sheets").
Proof.
  intros Hlaunch Hlogin limit.
  exists (searchLoop (fetch env) limit (pageIndices limit) emptyRun).
  destruct (searchLoop_run (fetch env) limit (pageIndices limit) emptyRun)
    as (Hf & He & Hj).
  simpl in Hf, He, Hj.
  assert (Hin : forall page,
    In page (pagesVisited (fetch env) (pageIndices limit)) <->
    (inject_Z (Z.of_nat page) < limit)%Q /\
    forall earlier, (earlier < page)%nat -> endsSearch (fetch env earlier) = false).
  { intros page. unfold pageIndices at 1. rewrite pagesVisited_seq.
    rewrite <- pageIndices_spec. unfold pageIndices. rewrite in_seq.
    split; intros [Hr Hearlier]; (split; [lia|]);
      intros earlier Hlt; apply Hearlier; lia. }
  split; [reflexivity|].
  rewrite Hf, He, Hj. repeat split.
  - now apply Hin.
  - now apply Hin.
  - intros (Hlt & Hearlier). apply Hin. auto.
  - intros page Hpage Hfail Hnext. apply Hin. split; [assumption|].
    apply Hin in Hpage as [_ Hearlier].
    intros earlier Hlt.
    destruct (Nat.eq_dec earlier page) as [->|Hne].
    + destruct (fetch env page) as [| | |? []]; simpl in *; congruence.
    + apply Hearlier. lia.
  - unfold process. rewrite Hlaunch, Hlogin. cbn [negb].
    change (searchJobs {| pageOpen := true; isLoggedIn := true |} (fetch env)
              (searchCriteria data))
      with (@inr string _ (searchLoop (fetch env) limit (pageIndices limit) emptyRun)).
    cbv zeta. unfold exportAndComplete.
    rewrite Hj.
    match goal with |- context [validLeads ?s] => set (st := s) end.
    destruct (0 <? length (validLeads st))%nat.
    + destruct (spreadsheet env); [destruct (exportSucceeds env)|]; simpl; eauto.
    + simpl. eauto.
Qed.

Lemma searchJobs_skips_failed_page_witness :
  exists run,
    searchJobs loggedIn (Sample.flakyFetch Sample.directListing Sample.agencyListing)
               (Sample.criteria true 3) = inr run /\
    In 2%nat (fetched run) /\ pageErrors run = [2%nat].
Proof.
  destruct (searchJobs_skips_failed_page
              (Sample.pagedBrowser
                 (Sample.flakyFetch Sample.directListing Sample.agencyListing))
              (Sample.jobData "job-1" (Sample.criteria true 3))
              {| db := Sample.emptyDb; events := [] |} eq_refl eq_refl)
    as (run & Hrun & Hin & Hnext & Herr & _).
  exists run. split; [exact Hrun|]. split.
  - apply Hin. split; [reflexivity|].
    intros [|[|earlier]] Hlt; try reflexivity; lia.
  - injection Hrun as <-. reflexivity.
Defined.

(** ** Cancellation *)

Section Cancellation.

Lemma JobStatus_eqb_spec (a b : JobStatus) : JobStatus_eqb a b = true <-> a = b.
Proof. destruct a, b; simpl; split; congruence. Qed.

Lemma updateJobRow_lookup (id : string) (p : JobPatch) (d : Db) :
  jobs (updateJobRow id p d) !! id = applyPatch p <$> jobs d !! id.
Proof. unfold updateJobRow; simpl. apply lookup_alter_eq. Qed.

Lemma updateJobRow_other (id other : string) (p : JobPatch) (d : Db) :
  id <> other -> jobs (updateJobRow id p d) !! other = jobs d !! other.
Proof. intros Hne. unfold updateJobRow; simpl. now apply lookup_alter_ne. Qed.

Lemma findJob_found (id : string) (d : Db) (row : JobRow) :
  jobs d !! id = Some row -> findJob id d = Some (Some (id, row)).
Proof. intros H. unfold findJob. now rewrite H. Qed.

End Cancellation.

(** C5, as stated, fails: a job that has failed and is still kept in the
    queue is moved from [failed] to [cancelled] by a cancel request. *)
Lemma DELETE_cancels_failed_job :
  job_status <$> jobs (store (Sample.serverWith "job-1" failed)) !! "job-1" = Some failed /\
  fst (DELETE 2000 "job-1" (Sample.serverWith "job-1" failed)) = JobCancelled /\
  job_status <$>
    jobs (store (snd (DELETE 2000 "job-1" (Sample.serverWith "job-1" failed)))) !! "job-1"
  = Some cancelled.
Proof. repeat split; vm_compute; reflexivity. Qed.

(** C5, amended. The cancellation interface rejects a cancel request for a
    job whose status is [completed] and leaves the server as it was. For a
    job in any other status (pending, running, failed or cancelled) that can
    be removed from the queue, it answers with success, sets the status to
    [cancelled] and removes the queue entry. A job whose status is
    [cancelled] after the request was not [completed] before it, and the
    rows of the other jobs are never touched. *)
Theorem DELETE_cancels_unless_completed
    (now : Z) (id : string) (s : Server) (row : JobRow) :
  jobs (store s) !! id = Some row ->
  let r := fst (DELETE now id s) in
  let s' := snd (DELETE now id s) in
  (job_status row = completed ->
   r = DeleteError 400 "Cannot cancel completed job" /\ s' = s) /\
  (job_status row <> completed ->
   forall entry, queue s !! id = Some entry -> entry_locked entry = false ->
   r = JobCancelled /\
   job_status <$> jobs (store s') !! id = Some cancelled /\
   queue s' !! id = None) /\
  (job_status <$> jobs (store s') !! id = Some cancelled ->
   job_status row <> completed /\
   (job_status row = cancelled \/ r = JobCancelled)) /\
  (forall other, other <> id -> jobs (store s') !! other = jobs (store s) !! other).
Proof.
  intros Hrow r s'. subst r s'. unfold DELETE. rewrite (findJob_found _ _ _ Hrow).
  destruct (JobStatus_eqb (job_status row) completed) eqn:Ec.
  - apply JobStatus_eqb_spec in Ec. simpl. repeat split; try congruence.
    all: rewrite Hrow in *; simpl in *; congruence.
  - assert (Hnc : job_status row <> completed).
    { intros H. apply JobStatus_eqb_spec in H. congruence. }
    unfold cancelJob.
    destruct (queue s !! id) as [job|] eqn:Eq; [destruct (entry_locked job) eqn:El|];
      cbn [fst snd store queue]; (split; [congruence|]); (split; [|split]).
    + intros _ entry [= <-] H. congruence.
    + rewrite Hrow. simpl. intros [= H]. auto.
    + reflexivity.
    + intros _ entry _ _. rewrite updateJobRow_lookup, Hrow. simpl.
      repeat split. apply lookup_delete_eq.
    + intros _. auto.
    + intros other Hne. now apply updateJobRow_other.
    + intros _ entry [=].
    + rewrite Hrow. simpl. intros [= H]. auto.
    + reflexivity.
Qed.

Lemma DELETE_cancels_pending_job_witness :
  fst (DELETE 2000 "job-1" (Sample.serverWith "job-1" pending)) = JobCancelled /\
  job_status <$>
    jobs (store (snd (DELETE 2000 "job-1" (Sample.serverWith "job-1" pending)))) !! "job-1"
  = Some cancelled /\
  queue (snd (DELETE 2000 "job-1" (Sample.serverWith "job-1" pending))) !! "job-1" = None.
Proof.
  assert (Hrow : jobs (store (Sample.serverWith "job-1" pending)) !! "job-1" =
                 Some (Sample.jobRow pending)) by (vm_compute; reflexivity).
  destruct (DELETE_cancels_unless_completed 2000 "job-1"
              (Sample.serverWith "job-1" pending) (Sample.jobRow pending) Hrow)
    as (_ & Hcancel & _).
  apply (Hcancel ltac:(discriminate)
           {| entry_data := Sample.jobData "job-1" (Sample.criteria true 3);
              entry_locked := false |}).
  - vm_compute; reflexivity.
  - reflexivity.
Defined.

(** ** Submission *)

Section Submission.

Lemma z_string_min1_spec (v : option json) (s : string) :
  z_string_min1 v = Some s <-> v = Some (JStr s) /\ s <> "".
Proof.
  unfold z_string_min1. destruct v as [[]|]; try (split; [discriminate | intros [[=] _]]).
  destruct s0; simpl; split.
  - discriminate.
  - intros [[= <-] H]. contradiction.
  - intros [= <-]. split; [reflexivity | discriminate].
  - intros [[= <-] _]. reflexivity.
Qed.

Lemma z_number_min_max_optional_spec (lo hi : Q) (v : option json) (r : option Q) :
  z_number_min_max_optional lo hi v = Some r <->
  (v = None /\ r = None) \/
  (exists n, v = Some (JNum n) /\ r = Some n /\ (lo <= n)%Q /\ (n <= hi)%Q).
Proof.
  unfold z_number_min_max_optional.
  destruct v as [[| |n| | |]|]; try (split; [discriminate | intros [[[=] _]|(n' & [=] & _)]]).
  - destruct (Qle_bool lo n) eqn:E1; [destruct (Qle_bool n hi) eqn:E2|]; simpl; split.
    + intros [= <-]. right. exists n. rewrite <- !Qle_bool_iff. auto.
    + intros [[[=] _]|(n' & [= <-] & -> & _)]. reflexivity.
    + discriminate.
    + intros [[[=] _]|(n' & [= <-] & _ & _ & H)].
      apply Qle_bool_iff in H. congruence.
    + discriminate.
    + intros [[[=] _]|(n' & [= <-] & _ & H & _)].
      apply Qle_bool_iff in H. congruence.
  - split.
    + intros [= <-]. now left.
    + intros [[_ ->]|(n & [=] & _)]. reflexivity.
Qed.

(** What a successful parse tells about the input. *)
Lemma searchCriteriaSchema_spec (input : option json) (c : SearchCriteria) :
  searchCriteriaSchema input = Some c ->
  exists members,
    input = Some (JObj members) /\
    member "keywords" (JObj members) = Some (JStr (keywords c)) /\ keywords c <> "" /\
    member "location" (JObj members) = Some (JStr (sc_location c)) /\ sc_location c <> "" /\
    ((member "maxPages" (JObj members) = None /\ maxPages c = None) \/
     (exists n, member "maxPages" (JObj members) = Some (JNum n) /\
                maxPages c = Some n /\ (1 <= n)%Q /\ (n <= 20)%Q)).
Proof.
  unfold searchCriteriaSchema.
  destruct input as [[| | | | |members]|]; try discriminate.
  intros H. exists members. split; [reflexivity|].
  destruct (z_string_min1 (member "keywords" (JObj members))) as [kw|] eqn:Ek;
    [|discriminate].
  destruct (z_string_min1 (member "location" (JObj members))) as [loc|] eqn:El;
    [|discriminate].
  cbn [mbind option_bind] in H.
  destruct (z_string_optional (member "experience" (JObj members))); [|discriminate].
  destruct (z_string_optional (member "jobType" (JObj members))); [|discriminate].
  destruct (z_string_optional (member "industry" (JObj members))); [|discriminate].
  destruct (z_string_optional (member "companySize" (JObj members))); [|discriminate].
  destruct (z_boolean_optional (member "excludeAgencies" (JObj members))); [|discriminate].
  destruct (z_number_min_max_optional 1 20 (member "maxPages" (JObj members)))
    as [mp|] eqn:Em; [|discriminate].
  cbn [mbind option_bind] in H. injection H as <-. cbn [keywords sc_location maxPages].
  apply z_string_min1_spec in Ek as [Ek Hk], El as [El Hl].
  apply z_number_min_max_optional_spec in Em.
  repeat split; auto.
Qed.

End Submission.

(** An answer of [POST] and what it tells about the request and the
    server. *)
Lemma POST_answer (env : ApiEnv) (body : option json) (s : Server) :
  match fst (POST env body s) with
  | JobCreated id status =>
      status = pending /\ id = uuid env /\
      jobs (store s) !! id = None /\
      exists input members row,
        body = Some input /\
        member "searchCriteria" input = Some (JObj members) /\
        (exists kw, member "keywords" (JObj members) = Some (JStr kw) /\ kw <> "") /\
        (exists loc, member "location" (JObj members) = Some (JStr loc) /\ loc <> "") /\
        (member "maxPages" (JObj members) = None \/
         exists n, member "maxPages" (JObj members) = Some (JNum n) /\
                   (1 <= n)%Q /\ (n <= 20)%Q) /\
        jobs (store (snd (POST env body s))) !! id = Some row /\
        job_status row = pending /\ job_progress row = 0 /\
        job_leadsGenerated row = 0 /\ job_totalJobsFound row = 0
  | PostError _ _ => snd (POST env body s) = s
  end.
Proof.
  unfold POST.
  destruct body as [input|]; [|reflexivity].
  assert (Hmain :
    match fst (match searchCriteriaSchema (member "searchCriteria" input) with
               | None => (PostError 400 "Invalid search criteria", s)
               | Some criteria =>
                   if truthy (LINKEDIN_EMAIL env) && truthy (LINKEDIN_PASSWORD env) then
                     match insertJob (uuid env)
                             {| job_status := pending; job_searchCriteria := criteria;
                                job_totalJobsFound := 0; job_leadsGenerated := 0;
                                job_progress := 0; job_errorMessage := None;
                                job_createdAt := requestTime env;
                                job_updatedAt := requestTime env;
                                job_completedAt := None |} (store s) with
                     | None => (PostError 500 "Failed to create job", s)
                     | Some d =>
                         (JobCreated (uuid env) pending,
                          {| store := d;
                             queue := addScrapingJob (uuid env) criteria
                                        (default "" (LINKEDIN_EMAIL env))
                                        (default "" (LINKEDIN_PASSWORD env)) (queue s) |})
                     end
                   else (PostError 500 "LinkedIn credentials not configured", s)
               end) with
    | JobCreated id status =>
        status = pending /\ id = uuid env /\ jobs (store s) !! id = None /\
        exists members,
          member "searchCriteria" input = Some (JObj members) /\
          (exists kw, member "keywords" (JObj members) = Some (JStr kw) /\ kw <> "") /\
          (exists loc, member "location" (JObj members) = Some (JStr loc) /\ loc <> "") /\
          (member "maxPages" (JObj members) = None \/
           exists n, member "maxPages" (JObj members) = Some (JNum n) /\
                     (1 <= n)%Q /\ (n <= 20)%Q)
    | PostError _ _ => True
    end).
  { destruct (searchCriteriaSchema (member "searchCriteria" input)) as [c|] eqn:Ec;
      [|exact I].
    destruct (truthy (LINKEDIN_EMAIL env) && truthy (LINKEDIN_PASSWORD env)); [|exact I].
    unfold insertJob. destruct (jobs (store s) !! uuid env) eqn:Ej; [exact I|].
    cbn [fst]. repeat split; auto.
    apply searchCriteriaSchema_spec in Ec
      as (members & Hin & Hk & Hkne & Hl & Hlne & Hm).
    exists members. repeat split; eauto.
    destruct Hm as [[Hm _]|(n & Hm & _ & Hlo & Hhi)]; eauto. }
  destruct input; try reflexivity.
  all: destruct (searchCriteriaSchema _) as [c|]; [|reflexivity].
  all: destruct (truthy (LINKEDIN_EMAIL env) && truthy (LINKEDIN_PASSWORD env));
    [|reflexivity].
  all: unfold insertJob in *; destruct (jobs (store s) !! uuid env) eqn:Ej; [reflexivity|].
  all: cbn [fst snd store] in *; destruct Hmain as (_ & _ & _ & ms & Hs & Hk & Hl & Hm).
  all: repeat split; auto.
  all: eexists _, ms, _; repeat split; eauto; try apply lookup_insert_eq; reflexivity.
Qed.

(** C9, as stated, fails: a submission asking for two and a half pages
    passes the validation although its [maxPages] is not an integer. It is
    answered with the new job id and status [pending], and the job row is
    stored with [maxPages] 5/2. *)
Lemma POST_accepts_fractional_maxPages :
  searchCriteriaSchema (member "searchCriteria" (Sample.request (5 # 2))) =
    Some {| keywords := "finance accounting"; sc_location := "United Kingdom";
            experience := None; jobType := None; industry := None;
            companySize := None; excludeAgencies := None;
            maxPages := Some (5 # 2) |} /\
  fst (POST Sample.apiEnv (Some (Sample.request (5 # 2))) Sample.emptyServer) =
    JobCreated "job-7" pending /\
  (job_status <$>
     jobs (store (snd (POST Sample.apiEnv (Some (Sample.request (5 # 2)))
                            Sample.emptyServer))) !! "job-7") = Some pending /\
  (maxPages ∘ job_searchCriteria <$>
     jobs (store (snd (POST Sample.apiEnv (Some (Sample.request (5 # 2)))
                            Sample.emptyServer))) !! "job-7") = Some (Some (5 # 2)).
Proof. repeat split; vm_compute; reflexivity. Qed.

Lemma maxPages_out_of_range (members : list (string * json)) (n : Q) :
  member "maxPages" (JObj members) = Some (JNum n) ->
  ~ ((1 <= n)%Q /\ (n <= 20)%Q) ->
  searchCriteriaSchema (Some (JObj members)) = None.
Proof.
  intros Hm Hout. unfold searchCriteriaSchema.
  destruct (z_string_min1 (member "keywords" (JObj members))); [|reflexivity].
  destruct (z_string_min1 (member "location" (JObj members))); [|reflexivity].
  cbn [mbind option_bind].
  destruct (z_string_optional (member "experience" (JObj members))); [|reflexivity].
  destruct (z_string_optional (member "jobType" (JObj members))); [|reflexivity].
  destruct (z_string_optional (member "industry" (JObj members))); [|reflexivity].
  destruct (z_string_optional (member "companySize" (JObj members))); [|reflexivity].
  destruct (z_boolean_optional (member "excludeAgencies" (JObj members))); [|reflexivity].
  cbn [mbind option_bind].
  destruct (z_number_min_max_optional 1 20 (member "maxPages" (JObj members)))
    as [r|] eqn:E; [|reflexivity].
  exfalso. apply z_number_min_max_optional_spec in E
    as [[E _]|(n' & E & _ & Hlo & Hhi)]; rewrite Hm in E; [discriminate|].
  injection E as <-. auto.
Qed.

(** C9, amended. The submission interface accepts a SearchSpecification
    only if its [keywords] and [location] are non-empty strings and its
    [maxPages], when given, is a number between 1 and 20 inclusive, integer
    or not. A specification whose [maxPages] is a number outside that range
    is answered with status 400, and every rejection leaves the server as
    it was, so that no job row is created; an accepted submission stores the
    job under a fresh id with status [pending], progress 0 and both counters
    0, and returns that id with status [pending]. *)
Theorem POST_accepts_only_valid_criteria
    (env : ApiEnv) (body : option json) (s : Server) :
  match fst (POST env body s) with
  | JobCreated id status =>
      status = pending /\ id = uuid env /\
      jobs (store s) !! id = None /\
      exists input members row,
        body = Some input /\
        member "searchCriteria" input = Some (JObj members) /\
        (exists kw, member "keywords" (JObj members) = Some (JStr kw) /\ kw <> "") /\
        (exists loc, member "location" (JObj members) = Some (JStr loc) /\ loc <> "") /\
        (member "maxPages" (JObj members) = None \/
         exists n, member "maxPages" (JObj members) = Some (JNum n) /\
                   (1 <= n)%Q /\ (n <= 20)%Q) /\
        jobs (store (snd (POST env body s))) !! id = Some row /\
        job_status row = pending /\ job_progress row = 0 /\
        job_leadsGenerated row = 0 /\ job_totalJobsFound row = 0
  | PostError _ _ => snd (POST env body s) = s
  end /\
  (forall input members n,
      body = Some input ->
      member "searchCriteria" input = Some (JObj members) ->
      member "maxPages" (JObj members) = Some (JNum n) ->
      ~ ((1 <= n)%Q /\ (n <= 20)%Q) ->
      POST env body s = (PostError 400 "Invalid search criteria", s)).
Proof.
  split; [apply POST_answer|].
  intros input members n -> Hc Hm Hout. unfold POST.
  rewrite Hc, (maxPages_out_of_range members n Hm Hout).
  destruct input; try reflexivity. discriminate.
Qed.

Lemma POST_rejects_21_pages_witness :
  POST Sample.apiEnv (Some (Sample.request 21)) Sample.emptyServer =
  (PostError 400 "Invalid search criteria", Sample.emptyServer).
Proof.
  apply (POST_accepts_only_valid_criteria Sample.apiEnv (Some (Sample.request 21))
           Sample.emptyServer)
    with (input := Sample.request 21)
         (members := [ ("keywords", JStr "finance accounting");
                       ("location", JStr "United Kingdom");
                       ("maxPages", JNum 21) ])
         (n := 21%Q).
  - reflexivity.
  - reflexivity.
  - reflexivity.
  - intros [_ H]. vm_compute in H. apply H. reflexivity.
Defined.

(** ** Traces that never go down *)

Section Rising.

Context {A : Type} (le : A -> A -> Prop).
Hypothesis le_refl : forall x, le x x.
Hypothesis le_trans : forall x y z, le x y -> le y z -> le x z.

Lemma rising_nil (bound : A) : rising le bound [].
Proof.
  split; [|constructor]. intros i j x y _ H. destruct i; discriminate.
Qed.

Lemma rising_snoc (bound x : A) (l : list A) :
  rising le bound l -> le bound x -> rising le x (l ++ [x]).
Proof.
  intros [Hnd Hb] Hle. rewrite List.Forall_forall in Hb. split.
  - intros i j a b Hij Ha Hb'.
    destruct (Nat.lt_ge_cases j (length l)) as [Hj|Hj].
    + rewrite nth_error_app1 in Ha, Hb' by lia. eauto.
    + rewrite (nth_error_app2 l [x] Hj) in Hb'.
      assert (b = x) as ->.
      { destruct (j - length l)%nat as [|k]; simpl in Hb';
          [congruence | destruct k; discriminate]. }
      destruct (Nat.lt_ge_cases i (length l)) as [Hi|Hi].
      * rewrite nth_error_app1 in Ha by lia.
        apply le_trans with bound; [|assumption].
        apply Hb. eapply nth_error_In; eauto.
      * rewrite (nth_error_app2 l [x] Hi) in Ha.
        destruct (i - length l)%nat as [|k]; simpl in Ha;
          [injection Ha as <-; apply le_refl | destruct k; discriminate].
  - apply List.Forall_forall. intros a Ha. apply in_app_or in Ha as [Ha|[<-|[]]].
    + apply le_trans with bound; auto.
    + apply le_refl.
Qed.

Lemma rising_single (x : A) : rising le x [x].
Proof. apply (rising_snoc x x []); [apply rising_nil | apply le_refl]. Qed.

Lemma rising_nondecreasing (bound : A) (l : list A) :
  rising le bound l -> nondecreasing le l.
Proof. now intros [H _]. Qed.

End Rising.

(** ** Following the row of a job through a run *)

Section Tracking.

Variable id : string.

Lemma updateJob_row (p : JobPatch) (w : World) :
  jobs (db (updateJob id p w)) !! id = applyPatch p <$> jobs (db w) !! id.
Proof.
  unfold updateJob. rewrite updateJobRow_lookup.
  destruct (jobs (db w) !! id) eqn:E; cbn [db fmap option_fmap option_map];
    now rewrite updateJobRow_lookup, E.
Qed.

Lemma updateJob_events (p : JobPatch) (w : World) :
  events (updateJob id p w) =
  events w ++ match jobs (db w) !! id with
              | Some row => [JobRowWritten id (applyPatch p row)]
              | None => []
              end.
Proof.
  unfold updateJob. rewrite updateJobRow_lookup.
  destruct (jobs (db w) !! id); simpl; now rewrite ?app_nil_r.
Qed.

Lemma rowsWritten_app (es es' : list Event) :
  rowsWritten id (es ++ es') = rowsWritten id es ++ rowsWritten id es'.
Proof. apply flat_map_app. Qed.

Lemma queueProgress_app (es es' : list Event) :
  queueProgress (es ++ es') = queueProgress es ++ queueProgress es'.
Proof. apply flat_map_app. Qed.

Variable w0 : World.

Section Row.

Context {A : Type} (le : A -> A -> Prop).
Hypothesis le_refl : forall x, le x x.
Hypothesis le_trans : forall x y z, le x y -> le y z -> le x z.
Variable m : JobRow -> A.
Variable a0 : A.

Abbreviation tracked := (tracked id w0 le m a0).

Lemma tracked_start (row0 : JobRow) :
  jobs (db w0) !! id = Some row0 -> m row0 = a0 -> tracked w0 a0.
Proof.
  intros Hrow Hm. exists row0, []. rewrite app_nil_r.
  split; [assumption|]. split; [assumption|]. split; [reflexivity|]. split.
  - intros i j x y Hij Hx Hy. destruct i, j; simpl in *; try lia;
      try (destruct i; discriminate); try (destruct j; discriminate).
    injection Hx as <-. injection Hy as <-. apply le_refl.
  - repeat constructor. apply le_refl.
Qed.

Lemma tracked_updateJob (p : JobPatch) (w : World) (n n' : A) :
  tracked w n -> le n n' ->
  (forall row, m row = n -> m (applyPatch p row) = n') ->
  tracked (updateJob id p w) n'.
Proof.
  intros (row & new & Hrow & Hm & Hev & Hr) Hle Hp.
  exists (applyPatch p row), (new ++ [JobRowWritten id (applyPatch p row)]).
  rewrite updateJob_row, updateJob_events, Hrow, Hev. simpl.
  repeat split; auto.
  - now rewrite app_assoc.
  - rewrite rowsWritten_app, map_app. simpl. rewrite String.eqb_refl. simpl.
    rewrite (Hp row Hm).
    change (n' :: nil) with ([n']).
    rewrite app_comm_cons. apply (rising_snoc le le_refl le_trans n); auto.
  - rewrite rowsWritten_app, map_app. simpl. rewrite String.eqb_refl. simpl.
    rewrite (Hp row Hm). rewrite app_comm_cons.
    apply (rising_snoc le le_refl le_trans n); auto.
Qed.

Lemma tracked_emit (e : Event) (w : World) (n : A) :
  tracked w n -> rowsWritten id [e] = [] -> tracked (emit e w) n.
Proof.
  intros (row & new & Hrow & Hm & Hev & Hr) He.
  exists row, (new ++ [e]). simpl. rewrite Hev, app_assoc, rowsWritten_app, He, app_nil_r.
  auto.
Qed.

Lemma tracked_db (w w' : World) (n : A) :
  tracked w n -> jobs (db w') = jobs (db w) -> events w' = events w -> tracked w' n.
Proof.
  intros (row & new & Hrow & Hm & Hev & Hr) Hj He.
  exists row, new. rewrite Hj, He. auto.
Qed.

End Row.

End Tracking.

Section Stages.

Variables (env : Env) (id : string) (criteria : SearchCriteria).

Lemma keepLead_frame (jobListing : JobListing) (description : string)
    (manager : option HiringManager) (leadScore : Z) (st : LoopState) :
  let st' := stateOf (keepLead id jobListing description manager leadScore st) in
  jobs (db (world st')) = jobs (db (world st)) /\
  events (world st') = events (world st) /\
  processedCount st' = processedCount st.
Proof.
  destruct (keepLead_cases id jobListing description manager leadScore st)
    as (Hj & He & Hc & _). auto.
Qed.


Lemma leadsOf_same (d d' : Db) : leads d' = leads d -> leadsOf id d' = leadsOf id d.
Proof. unfold leadsOf. now intros ->. Qed.

Lemma markExported_leadsOf (url : string) (d : Db) :
  leadsOf id (markExported (now env) url d) =
  map (fun row => if String.eqb (lead_jobUrl row) url
                  then setExported (now env) row else row) (leadsOf id d).
Proof.
  unfold leadsOf, markExported; simpl.
  induction (leads d) as [|row rows IH]; simpl; [reflexivity|].
  destruct (String.eqb (lead_jobUrl row) url) eqn:Eu; simpl;
    destruct (String.eqb (lead_jobId row) id) eqn:Ej; simpl;
    rewrite ?Eu, IH; reflexivity.
Qed.

Lemma markLeads_frame (valid : list LeadData) (d : Db) :
  jobs (markLeads env valid d) = jobs d /\
  companies (markLeads env valid d) = companies d /\
  length (leadsOf id (markLeads env valid d)) = length (leadsOf id d).
Proof.
  unfold markLeads. revert d. induction valid as [|lead valid IH]; intros d; simpl.
  - auto.
  - destruct (IH (markExported (now env) (ld_jobUrl lead) d)) as (Hj & Hc & Hl).
    rewrite Hj, Hc, Hl, markExported_leadsOf, length_map. auto.
Qed.

Lemma updateJob_leadsOf (p : JobPatch) (w : World) :
  leadsOf id (db (updateJob id p w)) = leadsOf id (db w).
Proof. apply leadsOf_same, updateJob_leads. Qed.

(** The row of the job after the last stage of the processor. *)
Lemma exportAndComplete_row (total : nat) (st : LoopState) :
  let r := exportAndComplete env id total st in
  match fst r with
  | Returned t g =>
      jobs (db (snd r)) !! id =
        applyPatch (patchCompleted (now env)) <$> jobs (db (world st)) !! id /\
      t = Z.of_nat total /\ g = Z.of_nat (length (validLeads st))
  | Thrown message =>
      jobs (db (snd r)) !! id =
        applyPatch (patchFailed (now env) message) <$> jobs (db (world st)) !! id
  end /\
  length (leadsOf id (db (snd r))) = length (leadsOf id (db (world st))).
Proof.
  unfold exportAndComplete, completeJob, failJob.
  destruct (0 <? length (validLeads st))%nat.
  - destruct (spreadsheet env); [destruct (exportSucceeds env)|];
      cbn [fst snd jobProgress emit db]; rewrite updateJob_row, updateJob_leadsOf;
      cbn [db events jobProgress emit].
    + destruct (markLeads_frame (validLeads st) (db (world st))) as (Hj & _ & Hl).
      rewrite Hj, Hl. auto.
    + auto.
    + auto.
  - cbn [fst snd jobProgress emit db]. rewrite updateJob_row, updateJob_leadsOf. auto.
Qed.

End Stages.

(** ** The [leadsGenerated] counter *)

Section LeadsGenerated.

Variables (env : Env) (id : string) (criteria : SearchCriteria) (w0 : World).

Abbreviation counted := (tracked id w0 Z.le job_leadsGenerated 0).








End LeadsGenerated.

(** ** The processor as a whole *)

Section Processor.

Variables (env : Env) (data : ScrapingJobData) (w : World).

(** The processor either fails during setup or goes through discovery,
    the loop over the listings and the last stage. *)
Lemma process_cases :
  let id := jobId data in
  let w1 := updateJob id (patchRunning (now env)) w in
  (exists message,
      (launchError env = Some message \/
       (launchError env = None /\ loginSuccess env = false /\
        message = "Failed to login to LinkedIn")) /\
      process env data w = failJob env id message w1) \/
  (launchError env = None /\ loginSuccess env = true /\
   let limit := orDefault (maxPages (searchCriteria data)) 5 in
   let run := searchLoop (fetch env) limit (pageIndices limit) emptyRun in
   let wA := fold_left (onProgress id) (reports run)
               (updateJob id (patchProgress 10) (jobProgress 10 w1)) in
   process env data w =
   exportAndComplete env id (length (found run))
     (fold_left (processListing env id (searchCriteria data) (length (found run)))
                (found run)
                {| world := wA; processedCount := 0; validLeads := [] |})).
Proof.
  intros id w1. unfold process. fold id. fold w1.
  destruct (launchError env) as [message|]; [left; eauto|].
  destruct (loginSuccess env); [right | left; eauto 10].
  repeat split.
Qed.

End Processor.




(** ** Marking the exported leads *)

(** C8, at the failing input. The store holds a lead of an earlier job,
    ["job-0"], for a posting that job ["job-1"] finds again and qualifies.
    After the export of ["job-1"] has succeeded, the lead of ["job-0"] is
    marked as exported too, with [exportedAt] set: the marking selects rows
    by [jobUrl], not by the job that owns them. *)
Theorem export_marks_lead_of_other_job :
  lead_jobId Sample.earlierLead = "job-0" /\
  lead_exportedToSheets Sample.earlierLead = false /\
  leads (db (Sample.worldWith "job-1" (Sample.criteria true 3) [Sample.earlierLead])) =
    [Sample.earlierLead] /\
  fst (process (Sample.browser [Sample.directListing])
               (Sample.jobData "job-1" (Sample.criteria true 3))
               (Sample.worldWith "job-1" (Sample.criteria true 3) [Sample.earlierLead])) =
    Returned 1 1 /\
  map (fun row => (lead_jobId row, lead_exportedToSheets row, lead_exportedAt row))
      (leads (db (snd (process (Sample.browser [Sample.directListing])
                               (Sample.jobData "job-1" (Sample.criteria true 3))
                               (Sample.worldWith "job-1" (Sample.criteria true 3)
                                                 [Sample.earlierLead]))))) =
    [ ("job-0", true, Some 1000); ("job-1", true, Some 1000) ].
Proof. repeat split; vm_compute; reflexivity. Qed.

(** ** Progress *)

(** C6, at the failing input. A job that asks for one and a half pages,
    which the submission interface accepts, and finds one listing on each
    of two pages runs to [completed] with progress 100, but its progress
    falls back on the way: after the second page the discovery band
    reports 89.8 (90 in the store), above its upper end 70, and the first
    listing of the enrichment band then reports 80. *)
Theorem progress_falls_back_on_fractional_maxPages :
  (maxPages <$> searchCriteriaSchema (member "searchCriteria" (Sample.request (3 # 2)))) =
    Some (Some (3 # 2)) /\
  fst Sample.fractionalRun = Returned 2 2 /\
  (job_status <$> jobs (db (snd Sample.fractionalRun)) !! "job-1") = Some completed /\
  (job_progress <$> jobs (db (snd Sample.fractionalRun)) !! "job-1") = Some 100 /\
  map job_progress (rowsWritten "job-1" (events (snd Sample.fractionalRun))) =
    [0; 10; 50; 90; 80; 90; 100] /\
  Forall2 Qeq (queueProgress (events (snd Sample.fractionalRun)))
              [10; 251 # 5; 449 # 5; 80; 90; 90; 100]%Q /\
  ~ nondecreasing Z.le
      (map job_progress (rowsWritten "job-1" (events (snd Sample.fractionalRun)))) /\
  ~ nondecreasing Qle (queueProgress (events (snd Sample.fractionalRun))).
Proof.
  assert (Hdb : map job_progress (rowsWritten "job-1" (events (snd Sample.fractionalRun))) =
                [0; 10; 50; 90; 80; 90; 100]) by (vm_compute; reflexivity).
  assert (Hq : queueProgress (events (snd Sample.fractionalRun)) =
               [10; 502 # 10; 898 # 10; 160 # 2; 180 # 2; 90; 100]%Q)
    by (vm_compute; reflexivity).
  repeat split; try (vm_compute; reflexivity).
  - rewrite Hq. repeat (constructor; [reflexivity|]). constructor.
  - rewrite Hdb. intros H.
    specialize (H 3%nat 4%nat 90 80 ltac:(lia) eq_refl eq_refl). lia.
  - rewrite Hq. intros H.
    specialize (H 2%nat 3%nat (898 # 10)%Q (160 # 2)%Q ltac:(lia) eq_refl eq_refl).
    unfold Qle in H. simpl in H. lia.
Qed.

Section Rounding.

Lemma Math_round_mono (x y : Q) : (x <= y)%Q -> Math_round x <= Math_round y.
Proof. intros H. unfold Math_round. apply Qfloor_resp_le. lra. Qed.

Lemma Math_round_Z (z : Z) : Math_round (inject_Z z) = z.
Proof.
  unfold Math_round. apply Z.le_antisymm.
  - assert (H : (inject_Z (Qfloor (inject_Z z + (1 # 2))) < inject_Z (z + 1))%Q).
    { eapply Qle_lt_trans; [apply Qfloor_le|]. rewrite inject_Z_plus.
      change (inject_Z 1) with 1%Q. lra. }
    rewrite <- Zlt_Qlt in H. lia.
  - rewrite <- (Qfloor_Z z) at 1. apply Qfloor_resp_le. lra.
Qed.

Variable limit : Q.
Hypothesis limit_pos : (0 < limit)%Q.

Lemma scaled_mono (a b : Z) :
  a <= b -> (inject_Z a / limit * 100 <= inject_Z b / limit * 100)%Q.
Proof.
  intros H. apply Qmult_le_compat_r; [|lra].
  unfold Qdiv. apply Qmult_le_compat_r.
  - now rewrite <- Zle_Qle.
  - apply Qinv_le_0_compat. lra.
Qed.

Lemma pageProgress_mono (p p' : nat) :
  (p <= p')%nat -> pageProgress limit p <= pageProgress limit p'.
Proof. intros H. apply Math_round_mono, scaled_mono. lia. Qed.

Lemma pageProgress_nonneg (p : nat) : 0 <= pageProgress limit p.
Proof.
  change 0 with (Math_round 0). apply Math_round_mono.
  apply Qmult_le_0_compat; [|lra].
  apply Qle_shift_div_l; [assumption|]. rewrite Qmult_0_l.
  change 0%Q with (inject_Z 0). rewrite <- Zle_Qle. lia.
Qed.

(** Below an integral number of pages the reported percentage is at most
    100. *)
Lemma pageProgress_le_100 (n : Z) (p : nat) :
  (limit == inject_Z n)%Q -> (inject_Z (Z.of_nat p) < limit)%Q ->
  pageProgress limit p <= 100.
Proof.
  intros Hn Hp. change 100 with (Math_round 100). apply Math_round_mono.
  assert (Hle : (inject_Z (Z.of_nat p + 1) <= limit)%Q).
  { rewrite Hn in Hp |- *. rewrite <- Zlt_Qlt in Hp. rewrite <- Zle_Qle. lia. }
  assert (Hd : (inject_Z (Z.of_nat p + 1) / limit <= 1)%Q).
  { apply Qle_shift_div_r; [assumption | lra]. }
  lra.
Qed.

End Rounding.

Section Discovery.

Variable fetch : nat -> PageOutcome.
Variable limit : Q.

Lemma searchLoop_reports (pages : list nat) (r : SearchRun) :
  map progress (reports (searchLoop fetch limit pages r)) =
  map progress (reports r) ++
  map (pageProgress limit)
      (List.filter (fun p => pageReports (fetch p)) (pagesVisited fetch pages)).
Proof.
  revert r. induction pages as [|page rest IH]; intros r; simpl.
  - now rewrite app_nil_r.
  - destruct (fetch page) as [| |pageJobs|pageJobs [|]] eqn:E; simpl; rewrite ?E; simpl;
      rewrite ?IH; simpl; rewrite ?map_app; simpl; rewrite <- ?app_assoc;
      try reflexivity.
Qed.

Lemma pagesVisited_incl (pages : list nat) (p : nat) :
  In p (pagesVisited fetch pages) -> In p pages.
Proof.
  induction pages as [|page rest IH]; simpl; [tauto|].
  intros [H|H]; [now left|].
  destruct (endsSearch (fetch page)); [contradiction | auto].
Qed.

Hypothesis limit_pos : (0 < limit)%Q.

Lemma reported_chain (g : nat -> bool) (start count : nat) (lo : Z) :
  lo <= pageProgress limit start ->
  chain Z.le lo (map (pageProgress limit)
                     (List.filter g (pagesVisited fetch (seq start count)))).
Proof.
  revert start lo. induction count as [|count IH]; intros start lo Hlo; simpl; [exact I|].
  assert (Hnext : pageProgress limit start <= pageProgress limit (S start))
    by (apply pageProgress_mono; [assumption | lia]).
  destruct (g start); simpl.
  - split; [assumption|].
    destruct (endsSearch (fetch start)); simpl; [exact I | now apply IH].
  - destruct (endsSearch (fetch start)); simpl; [exact I|]. apply IH. lia.
Qed.

(** The percentages reported during discovery rise from 0 and, when the
    number of pages is integral, stay within 100. *)
Lemma reports_rise (n : Z) :
  (limit == inject_Z n)%Q ->
  let rs := reports (searchLoop fetch limit (pageIndices limit) emptyRun) in
  chain Z.le 0 (map progress rs) /\ Forall (fun r => progress r <= 100) rs.
Proof.
  intros Hn rs. subst rs.
  pose proof (searchLoop_reports (pageIndices limit) emptyRun) as Hr. simpl in Hr.
  split.
  - rewrite Hr. apply reported_chain. now apply pageProgress_nonneg.
  - apply Forall_map with (f := progress) (P := fun x => x <= 100). rewrite Hr.
    apply Forall_map, List.Forall_forall. intros p Hp.
    apply filter_In in Hp as [Hp _]. apply pagesVisited_incl in Hp.
    apply (pageProgress_le_100 limit limit_pos n); [assumption|].
    now apply pageIndices_spec.
Qed.

End Discovery.

Section RisingMore.

Context {A : Type} (le : A -> A -> Prop).
Hypothesis le_trans : forall x y z, le x y -> le y z -> le x z.

Lemma rising_weaken (b b' : A) (l : list A) :
  rising le b l -> le b b' -> rising le b' l.
Proof.
  intros [Hnd Hb] Hle. split; [assumption|].
  eapply List.Forall_impl; [|exact Hb]. intros x Hx. simpl in Hx. eauto.
Qed.

End RisingMore.

(** ** Progress through the stages of a run *)

Section QueueProgress.

Variables (id : string) (w0 : World).

Abbreviation queued := (queued w0).

Lemma queued_start (q : Q) : queued w0 q.
Proof. exists []. rewrite app_nil_r. split; [reflexivity | apply rising_nil]. Qed.

Lemma queued_weaken (w : World) (q q' : Q) :
  queued w q -> (q <= q')%Q -> queued w q'.
Proof.
  intros (new & He & Hr) Hle. exists new. split; [assumption|].
  eapply rising_weaken; eauto using Qle_trans.
Qed.

Lemma queued_jobProgress (v : Q) (w : World) (q : Q) :
  queued w q -> (q <= v)%Q -> queued (jobProgress v w) v.
Proof.
  intros (new & He & Hr) Hle. exists (new ++ [QueueProgress v]). simpl.
  rewrite He, app_assoc, queueProgress_app. split; [reflexivity|]. simpl.
  apply (rising_snoc Qle Qle_refl Qle_trans q); assumption.
Qed.

Lemma queued_updateJob (p : JobPatch) (w : World) (q : Q) :
  queued w q -> queued (updateJob id p w) q.
Proof.
  intros (new & He & Hr).
  eexists. rewrite updateJob_events, He, <- app_assoc. split; [reflexivity|].
  rewrite queueProgress_app.
  destruct (jobs (db w) !! id); simpl; now rewrite app_nil_r.
Qed.

Lemma queued_emit_sheet (sheet : string) (rows : list LeadData) (w : World) (q : Q) :
  queued w q -> queued (emit (SheetExported sheet rows) w) q.
Proof.
  intros (new & He & Hr). exists (new ++ [SheetExported sheet rows]). simpl.
  rewrite He, app_assoc, queueProgress_app. simpl. now rewrite app_nil_r.
Qed.

Lemma queued_db (w w' : World) (q : Q) :
  queued w q -> events w' = events w -> queued w' q.
Proof. intros (new & He & Hr) H. exists new. now rewrite H. Qed.

End QueueProgress.

Section ProgressStages.

Variables (env : Env) (id : string) (criteria : SearchCriteria) (w0 : World).

Abbreviation stored := (tracked id w0 Z.le job_progress 0).
Abbreviation sent := (queued w0).

Lemma stored_keep (p : JobPatch) (w : World) (n : Z) :
  stored w n -> set_progress p = None -> stored (updateJob id p w) n.
Proof.
  intros H Hp. apply (tracked_updateJob id w0 Z.le Z.le_refl Z.le_trans _ _ p w n n);
    auto using Z.le_refl.
  intros row <-. unfold applyPatch; simpl. now rewrite Hp.
Qed.

Lemma stored_set (p : JobPatch) (w : World) (n n' : Z) :
  stored w n -> n <= n' -> set_progress p = Some n' -> stored (updateJob id p w) n'.
Proof.
  intros H Hle Hp.
  apply (tracked_updateJob id w0 Z.le Z.le_refl Z.le_trans _ _ p w n n'); auto.
  intros row _. unfold applyPatch; simpl. now rewrite Hp.
Qed.

Lemma stored_jobProgress (v : Q) (w : World) (n : Z) :
  stored w n -> stored (jobProgress v w) n.
Proof. intros H. now apply tracked_emit. Qed.

Lemma discoveryValue_mono (a b : Z) :
  a <= b -> (discoveryValue a <= discoveryValue b)%Q.
Proof. intros H. unfold discoveryValue. rewrite Zle_Qle in H. lra. Qed.

Lemma discovery_rises (hi : Z) (rs : list ScrapingProgress) (w : World) (lo n : Z) :
  sent w (discoveryValue lo) -> stored w n ->
  n <= Math_round (discoveryValue lo) ->
  chain Z.le lo (map progress rs) ->
  Forall (fun r => progress r <= hi) rs -> lo <= hi ->
  sent (fold_left (onProgress id) rs w) (discoveryValue hi) /\
  exists n', stored (fold_left (onProgress id) rs w) n' /\
             n' <= Math_round (discoveryValue hi).
Proof.
  revert w lo n. induction rs as [|r rs IH]; intros w lo n Hq Hs Hn Hc Hf Hhi; simpl.
  - split.
    + eapply queued_weaken; [exact Hq | now apply discoveryValue_mono].
    + exists n. split; [assumption|].
      etransitivity; [exact Hn|]. now apply Math_round_mono, discoveryValue_mono.
  - destruct Hc as [Hlo Hc]. apply List.Forall_cons_iff in Hf as [Hr Hf].
    simpl in Hr.
    assert (Hle : n <= Math_round (discoveryValue (progress r))).
    { etransitivity; [exact Hn|]. now apply Math_round_mono, discoveryValue_mono. }
    assert (Hs' : exists n1, stored (onProgress id w r) n1 /\
                             n1 <= Math_round (discoveryValue (progress r))).
    { unfold onProgress. destruct (integer _).
      - exists (Math_round (discoveryValue (progress r))). split; [|reflexivity].
        eapply stored_set; [| |reflexivity]; [|exact Hle].
        apply stored_jobProgress. exact Hs.
      - exists n. split; [|exact Hle]. apply stored_jobProgress. exact Hs. }
    destruct Hs' as (n1 & Hs1 & Hn1).
    apply (IH _ (progress r) n1); auto.
    unfold onProgress.
    destruct (integer _); [apply queued_updateJob|];
      (apply queued_jobProgress with (q := discoveryValue lo); [assumption|]);
      now apply discoveryValue_mono.
Qed.

Lemma enrichmentValue_mono (total c c' : nat) :
  (0 < total)%nat -> (c <= c')%nat ->
  (enrichmentValue total c <= enrichmentValue total c')%Q.
Proof.
  intros Ht Hc. unfold enrichmentValue.
  assert (Hpos : (0 < inject_Z (Z.of_nat total))%Q).
  { change 0%Q with (inject_Z 0). rewrite <- Zlt_Qlt. lia. }
  assert (H : (inject_Z (Z.of_nat c) / inject_Z (Z.of_nat total) * 100 <=
               inject_Z (Z.of_nat c') / inject_Z (Z.of_nat total) * 100)%Q)
    by (apply scaled_mono; [assumption | lia]).
  lra.
Qed.

Lemma enrichmentValue_zero (total : nat) : (enrichmentValue total 0 == 70)%Q.
Proof. unfold enrichmentValue, Qdiv. simpl. rewrite Qmult_0_l. lra. Qed.

Lemma enrichmentValue_le_90 (total c : nat) :
  (c <= total)%nat -> (enrichmentValue total c <= 90)%Q.
Proof.
  intros Hc. destruct total as [|total].
  - assert (c = 0%nat) as -> by lia. rewrite enrichmentValue_zero. lra.
  - unfold enrichmentValue.
    assert (Hpos : (0 < inject_Z (Z.of_nat (S total)))%Q).
    { change 0%Q with (inject_Z 0). rewrite <- Zlt_Qlt. lia. }
    assert (Hd : (inject_Z (Z.of_nat c) / inject_Z (Z.of_nat (S total)) <= 1)%Q).
    { apply Qle_shift_div_r; [assumption|]. rewrite Qmult_1_l, <- Zle_Qle. lia. }
    lra.
Qed.

End ProgressStages.

Section ProgressLoop.

Variables (env : Env) (id : string) (criteria : SearchCriteria) (w0 : World).
Variable total : nat.

Abbreviation stored := (tracked id w0 Z.le job_progress 0).
Abbreviation sent := (queued w0).

Lemma enrichment_step (st : LoopState) (jobListing : JobListing) (n : Z) :
  sent (world st) (enrichmentValue total (processedCount st)) ->
  stored (world st) n ->
  n <= Math_round (enrichmentValue total (processedCount st)) ->
  (0 < total)%nat ->
  let st' := processListing env id criteria total st jobListing in
  sent (world st') (enrichmentValue total (processedCount st')) /\
  (exists n', stored (world st') n' /\
              n' <= Math_round (enrichmentValue total (processedCount st'))) /\
  (processedCount st' <= S (processedCount st))%nat.
Proof.
  intros Hq Hs Hn Ht. unfold processListing.
  destruct (skipped criteria jobListing); [eauto 6|].
  set (description := extractJobDescription env (url jobListing)).
  set (manager := extractHiringManagerInfo env (url jobListing)).
  set (score := calculateLeadScore _).
  set (a := if 40 <? score then _ else _).
  assert (H1 : jobs (db (world (stateOf a))) = jobs (db (world st)) /\
               events (world (stateOf a)) = events (world st) /\
               processedCount (stateOf a) = processedCount st).
  { subst a. destruct (40 <? score); [|auto].
    apply keepLead_frame. }
  destruct H1 as (Hj & He & Hc).
  destruct a as [st1|st1]; cbn [stateOf] in *.
  - cbn [world processedCount]. rewrite Hc.
    assert (Hup : (enrichmentValue total (processedCount st) <=
                   enrichmentValue total (S (processedCount st)))%Q)
      by (apply enrichmentValue_mono; [assumption | lia]).
    split; [|split].
    + apply queued_updateJob.
      apply queued_jobProgress with (q := enrichmentValue total (processedCount st));
        [|exact Hup].
      eapply queued_db; eauto.
    + exists (Math_round (enrichmentValue total (S (processedCount st)))).
      split; [|reflexivity].
      eapply stored_set; [| |reflexivity].
      * apply stored_jobProgress. eapply tracked_db; eauto.
      * etransitivity; [exact Hn|]. now apply Math_round_mono.
    + lia.
  - rewrite Hc. split; [|split].
    + eapply queued_db; eauto.
    + exists n. split; [|exact Hn]. eapply tracked_db; eauto.
    + lia.
Qed.

Lemma enrichment_rises (listings : list JobListing) (st : LoopState) (n : Z) :
  sent (world st) (enrichmentValue total (processedCount st)) ->
  stored (world st) n ->
  n <= Math_round (enrichmentValue total (processedCount st)) ->
  (processedCount st + length listings <= total)%nat ->
  let st' := fold_left (processListing env id criteria total) listings st in
  sent (world st') (enrichmentValue total (processedCount st')) /\
  (exists n', stored (world st') n' /\
              n' <= Math_round (enrichmentValue total (processedCount st'))) /\
  (processedCount st' <= total)%nat.
Proof.
  revert st n. induction listings as [|l ls IH]; intros st n Hq Hs Hn Hc; simpl.
  - repeat split; eauto. simpl in Hc. lia.
  - simpl in Hc.
    destruct (enrichment_step st l n Hq Hs Hn ltac:(lia)) as (Hq' & (n' & Hs' & Hn') & Hc').
    cbv zeta in Hq', Hs', Hn', Hc'.
    apply (IH _ n'); auto. lia.
Qed.

(** The last stage reports 90 and 100 on the queue and stores 100. *)
Lemma last_stage_rises (st : LoopState) (q : Q) (n : Z) :
  sent (world st) q -> (q <= 90)%Q -> stored (world st) n -> n <= 100 ->
  let r := exportAndComplete env id total st in
  (exists q', sent (snd r) q') /\ (exists n', stored (snd r) n').
Proof.
  intros Hq Hq90 Hs Hn. unfold exportAndComplete, completeJob, failJob.
  assert (H90 : sent (jobProgress 90 (world st)) 90)
    by now apply queued_jobProgress with (q := q).
  assert (S90 : stored (jobProgress 90 (world st)) n) by now apply stored_jobProgress.
  destruct (0 <? length (validLeads st))%nat.
  - destruct (spreadsheet env) as [sheet|]; [destruct (exportSucceeds env)|]; cbn [snd].
    + split.
      * exists 100%Q. apply queued_jobProgress with (q := 90%Q); [|lra].
        apply queued_updateJob.
        eapply queued_db with (w := emit (SheetExported sheet (validLeads st))
                                         (jobProgress 90 (world st))).
        -- now apply queued_emit_sheet.
        -- reflexivity.
      * exists 100. apply stored_jobProgress.
        eapply stored_set; [|exact Hn|reflexivity].
        eapply tracked_db with (w := emit (SheetExported sheet (validLeads st))
                                          (jobProgress 90 (world st))).
        -- apply tracked_emit; [assumption | reflexivity].
        -- cbn [db]. apply markLeads_frame; exact id.
        -- reflexivity.
    + split; [exists 90%Q; now apply queued_updateJob|].
      exists n. now apply stored_keep.
    + split; [exists 90%Q; now apply queued_updateJob|].
      exists n. now apply stored_keep.
  - cbn [snd]. split.
    + exists 100%Q. apply queued_jobProgress with (q := 90%Q); [|lra].
      apply queued_updateJob. eapply queued_weaken; eauto.
    + exists 100. apply stored_jobProgress.
      eapply stored_set; [exact Hs|exact Hn|reflexivity].
Qed.

End ProgressLoop.

(** X11. What the pipeline does guarantee about progress. When the number of
    pages of the job is integral (as every submission of the form is) and the
    job's row starts at progress 0, the values reported to the queue and the
    values stored in the row never go down during the run, and the row
    holds exactly 100 once the job has reached [completed]. *)
Lemma progress_rises_for_whole_pages
    (env : Env) (data : ScrapingJobData) (w : World) (row0 : JobRow) (n : Z) :
  jobs (db w) !! jobId data = Some row0 ->
  job_progress row0 = 0 ->
  1 <= n ->
  (orDefault (maxPages (searchCriteria data)) 5 == inject_Z n)%Q ->
  let w' := snd (process env data w) in
  exists row new,
    jobs (db w') !! jobId data = Some row /\
    events w' = events w ++ new /\
    nondecreasing Qle (queueProgress new) /\
    nondecreasing Z.le (job_progress row0 :: map job_progress (rowsWritten (jobId data) new)) /\
    (job_status row = completed -> job_progress row = 100).
Proof.
  intros Hrow0 Hzero Hn Hlimit w'. subst w'.
  set (id := jobId data) in *.
  assert (Hfinish : forall w',
    (exists q, queued w w' q) ->
    (exists k, tracked id w Z.le job_progress 0 w' k /\
               (forall row, jobs (db w') !! id = Some row ->
                            job_status row = completed -> job_progress row = 100)) ->
    exists row new,
      jobs (db w') !! id = Some row /\
      events w' = events w ++ new /\
      nondecreasing Qle (queueProgress new) /\
      nondecreasing Z.le (job_progress row0 :: map job_progress (rowsWritten id new)) /\
      (job_status row = completed -> job_progress row = 100)).
  { intros w' (q & new' & He' & Hr') (k & (row & new & Hrow & Hm & He & Hr) & Hdone).
    assert (new' = new) as -> by (rewrite He in He'; now apply app_inv_head in He').
    exists row, new. rewrite Hzero. repeat split; auto.
    - eapply rising_nondecreasing; eauto.
    - eapply rising_nondecreasing; eauto. }
  assert (S0 : tracked id w Z.le job_progress 0 w 0)
    by (eapply tracked_start; eauto using Z.le_refl).
  pose proof (queued_start w 0) as Q0.
  set (w1 := updateJob id (patchRunning (now env)) w).
  assert (S1 : tracked id w Z.le job_progress 0 w1 0) by (apply stored_keep; auto).
  assert (Q1 : queued w w1 0) by now apply queued_updateJob.
  destruct (process_cases env data w)
    as [(message & _ & ->)|(_ & _ & ->)]; fold id; fold w1.
  - (* setup failed *)
    unfold failJob. cbn [snd]. apply Hfinish.
    + exists 0%Q. now apply queued_updateJob.
    + exists 0. split; [apply stored_keep; auto|].
      intros row Hrow. unfold w1 in Hrow.
      rewrite !updateJob_row, Hrow0 in Hrow. injection Hrow as <-. discriminate.
  - (* discovery, loop and last stage *)
    set (limit := orDefault (maxPages (searchCriteria data)) 5) in *.
    assert (Hpos : (0 < limit)%Q).
    { rewrite Hlimit. change 0%Q with (inject_Z 0). rewrite <- Zlt_Qlt. lia. }
    set (run := searchLoop (fetch env) limit (pageIndices limit) emptyRun).
    destruct (reports_rise (fetch env) limit Hpos n Hlimit) as [Hchain Hbound].
    fold run in Hchain, Hbound.
    set (w3 := updateJob id (patchProgress 10) (jobProgress 10 w1)).
    assert (Q3 : queued w w3 (discoveryValue 0)).
    { apply queued_updateJob. eapply queued_weaken.
      - apply queued_jobProgress with (q := 0%Q); [exact Q1 | lra].
      - unfold discoveryValue. change (inject_Z 0) with 0%Q. lra. }
    assert (S3 : tracked id w Z.le job_progress 0 w3 10).
    { eapply stored_set; [apply stored_jobProgress; exact S1 | lia | reflexivity]. }
    destruct (discovery_rises id w 100 (reports run) w3 0 10 Q3 S3)
      as (QA & nA & SA & HnA); auto; try lia.
    { vm_compute. discriminate. }
    set (wA := fold_left (onProgress id) (reports run) w3) in *.
    set (total := length (found run)).
    set (st0 := {| world := wA; processedCount := 0; validLeads := [] |}).
    assert (H70 : (discoveryValue 100 <= enrichmentValue total 0)%Q).
    { rewrite enrichmentValue_zero. unfold discoveryValue.
      change (inject_Z 100) with 100%Q. lra. }
    destruct (enrichment_rises env id (searchCriteria data) w total (found run) st0 nA)
      as (QB & (nB & SB & HnB) & HcB).
    { cbn [st0 world processedCount]. eapply queued_weaken; eauto. }
    { exact SA. }
    { cbn [st0 processedCount]. etransitivity; [exact HnA|]. now apply Math_round_mono. }
    { cbn [st0 processedCount]. unfold total. lia. }
    set (st := fold_left _ (found run) st0) in *.
    pose proof (enrichmentValue_le_90 total (processedCount st) HcB) as H90.
    destruct (last_stage_rises env id w total st _ nB QB H90 SB) as [Qend (k & Send)].
    { etransitivity; [exact HnB|].
      etransitivity; [apply Math_round_mono; exact H90|]. vm_compute. discriminate. }
    apply Hfinish; [exact Qend|].
    exists k. split; [exact Send|].
    intros row Hrow Hdone.
    pose proof (exportAndComplete_row env id total st) as [Hlast _]. cbv zeta in Hlast.
    destruct SB as (rowS & _ & HrowS & _).
    destruct (fst (exportAndComplete env id total st)) as [t g|message].
    + destruct Hlast as (Hlast & _). rewrite Hrow, HrowS in Hlast.
      injection Hlast as ->. reflexivity.
    + rewrite Hrow, HrowS in Hlast. injection Hlast as ->. discriminate.
Qed.

(** ** What the marking of exported leads does guarantee *)

Section Marking.

Variables (env : Env) (id : string) (criteria : SearchCriteria).

Lemma markLeads_leads (valid : list LeadData) (d : Db) :
  leads (markLeads env valid d) = map (markedBy env (map ld_jobUrl valid)) (leads d).
Proof.
  unfold markLeads. revert d. induction valid as [|v vs IH]; intros d; simpl.
  - unfold markedBy; simpl. now rewrite map_id.
  - rewrite IH. unfold markExported; simpl. rewrite map_map.
    apply map_ext. intros row. unfold markedBy; simpl.
    destruct (String.eqb (lead_jobUrl row) (ld_jobUrl v)); simpl; [|reflexivity].
    now destruct (existsb _ _).
Qed.

Lemma onProgress_leads (rs : list ScrapingProgress) (w : World) :
  leads (db (fold_left (onProgress id) rs w)) = leads (db w).
Proof.
  revert w. induction rs as [|r rs IH]; intros w; simpl; [reflexivity|].
  rewrite IH. unfold onProgress.
  destruct (integer _); [now rewrite updateJob_leads | reflexivity].
Qed.

(** The loop appends one unexported row of the job for each lead it keeps. *)
Lemma loop_appends (total : nat) (listings : list JobListing) (st : LoopState) :
  let st' := fold_left (processListing env id criteria total) listings st in
  exists fresh,
    leads (db (world st')) = leads (db (world st)) ++ fresh /\
    map ld_jobUrl (validLeads st') = map ld_jobUrl (validLeads st) ++ map lead_jobUrl fresh /\
    Forall (fun row => lead_jobId row = id /\ lead_exportedToSheets row = false) fresh.
Proof.
  revert st. induction listings as [|l ls IH]; intros st; simpl.
  - exists []. rewrite !app_nil_r. auto.
  - destruct (IH (processListing env id criteria total st l)) as (fresh & Hl & Hv & Hf).
    destruct (processListing_cases env id criteria total st l)
      as [[_ E]|[(s & _ & _ & El & _ & Ev & _)
                |[(s & row & _ & _ & _ & El & Hj & _ & _ & _ & Hex & Ev & _)
                 |(s & _ & _ & _ & El & Ev & _)]]];
      cbv zeta in *.
    + rewrite E in *. eauto.
    + exists fresh. rewrite Hl, Hv, El, Ev. auto.
    + exists (row :: fresh). rewrite Hl, Hv, El, Ev, map_app, <- !app_assoc. simpl.
      repeat split; auto.
    + exists fresh. rewrite Hl, Hv, El, Ev. auto.
Qed.

End Marking.

(** X12. After a successful export, every Lead row of the exported job (a job
    that had no lead before the run) is marked as exported with
    [exportedAt] set, and a row that was in the store before the run is
    changed only if its [jobUrl] is that of one of the exported leads. *)
Lemma export_marks_every_lead_of_job
    (env : Env) (data : ScrapingJobData) (w : World) (total generated : Z) :
  leadsOf (jobId data) (db w) = [] ->
  fst (process env data w) = Returned total generated ->
  0 < generated ->
  let w' := snd (process env data w) in
  (forall row, In row (leadsOf (jobId data) (db w')) ->
               lead_exportedToSheets row = true /\ lead_exportedAt row = Some (now env)) /\
  exists fresh,
    Forall (fun row => lead_jobId row = jobId data) fresh /\
    leads (db w') =
      map (markedBy env (map lead_jobUrl fresh)) (leads (db w)) ++
      map (setExported (now env)) fresh.
Proof.
  intros Hnone Hret Hgen w'. subst w'.
  set (id := jobId data) in *.
  destruct (process_cases env data w)
    as [(message & _ & E)|(_ & _ & E)]; fold id in E; rewrite E in *.
  { discriminate. }
  clear E.
  set (limit := orDefault (maxPages (searchCriteria data)) 5) in *.
  set (run := searchLoop (fetch env) limit (pageIndices limit) emptyRun) in *.
  set (wA := fold_left (onProgress id) (reports run) _) in *.
  set (st0 := {| world := wA; processedCount := 0; validLeads := [] |}) in *.
  destruct (loop_appends env id (searchCriteria data) (length (found run)) (found run) st0)
    as (fresh & Hl & Hv & Hf).
  set (st := fold_left _ (found run) st0) in *.
  assert (HA : leads (db wA) = leads (db w)).
  { unfold wA. rewrite onProgress_leads, updateJob_leads. cbn [jobProgress emit db].
    apply updateJob_leads. }
  cbn [st0 world validLeads] in Hl, Hv. simpl in Hv. rewrite HA in Hl.
  assert (Hw' : leads (db (snd (exportAndComplete env id (length (found run)) st))) =
                map (markedBy env (map lead_jobUrl fresh)) (leads (db w) ++ fresh)).
  { revert Hret. unfold exportAndComplete, completeJob, failJob.
    destruct (0 <? length (validLeads st))%nat eqn:Epos.
    - destruct (spreadsheet env); [destruct (exportSucceeds env)|]; try discriminate.
      intros _. cbn [snd jobProgress emit db]. rewrite updateJob_leads. cbn [db].
      now rewrite markLeads_leads, Hv, Hl.
    - cbn [fst]. intros [= _ <-]. apply Nat.ltb_ge in Epos. lia. }
  assert (Hfresh : map (markedBy env (map lead_jobUrl fresh)) fresh =
                   map (setExported (now env)) fresh).
  { apply map_ext_in. intros row Hin. unfold markedBy.
    replace (existsb _ _) with true; [reflexivity|]. symmetry.
    apply existsb_exists. exists (lead_jobUrl row). split.
    - now apply in_map.
    - apply String.eqb_refl. }
  rewrite List.Forall_forall in Hf.
  split.
  - intros row Hin. unfold leadsOf in Hin. rewrite Hw', map_app in Hin.
    apply filter_In in Hin as [Hin Hid].
    apply in_app_or in Hin as [Hin|Hin].
    + exfalso. apply in_map_iff in Hin as (old & <- & Hold).
      assert (In old (leadsOf id (db w))).
      { unfold leadsOf. apply filter_In. split; [assumption|].
        unfold markedBy in Hid. now destruct (existsb _ _). }
      rewrite Hnone in H. contradiction.
    + rewrite Hfresh in Hin. apply in_map_iff in Hin as (r & <- & _). auto.
  - exists fresh. split.
    + apply List.Forall_forall. intros row Hin. now apply Hf.
    + now rewrite Hw', map_app, Hfresh.
Qed.

(** * Further properties of the pipeline *)

(** ** What one run of the processor adds to the store *)

Section LoopEffect.

Variables (env : Env) (id : string) (criteria : SearchCriteria) (total : nat).

Lemma qualifies_computedScore (l : JobListing) :
  qualifies env criteria l = true <->
  exists score, computedScore env criteria l = Some score /\ 40 < score.
Proof.
  unfold qualifies. destruct (computedScore env criteria l) as [s|].
  - rewrite Z.ltb_lt. split; [eauto|]. now intros (s' & [= <-] & H).
  - split; [discriminate | intros (s & H & _); discriminate].
Qed.

Lemma findCompany_some (name : string) (d : Db) (c : CompanyRow) :
  findCompany name d = Some c -> In c (companies d) /\ company_name c = name.
Proof.
  unfold findCompany. intros H. apply find_some in H as [Hin Hn].
  split; [assumption|]. now apply String.eqb_eq.
Qed.

Lemma findCompany_none (name : string) (d : Db) :
  findCompany name d = None -> ~ In name (map company_name (companies d)).
Proof.
  unfold findCompany. intros H Hin. apply in_map_iff in Hin as (c & Hn & Hc).
  pose proof (find_none _ _ H c Hc) as Hf. cbv beta in Hf.
  rewrite Hn, String.eqb_refl in Hf. discriminate.
Qed.

Lemma updateJob_held (p : JobPatch) (w : World) :
  match jobs (db (updateJob id p w)) !! id with Some _ => true | None => false end =
  match jobs (db w) !! id with Some _ => true | None => false end.
Proof. rewrite updateJob_row. now destruct (jobs (db w) !! id). Qed.

(** Whether the store takes the rows of a listing does not change while
    the row of the job stays and companies are added under names that fit
    their column. *)
Lemma stores_same (d d' : Db) :
  match jobs d' !! id with Some _ => true | None => false end =
  match jobs d !! id with Some _ => true | None => false end ->
  (companies d' = companies d \/
   exists c, acceptsCompany (company_name c) = true /\
             companies d' = companies d ++ [c]) ->
  forall l, stores env id d' l = stores env id d l.
Proof.
  intros Hj Hc l. unfold stores, takes. rewrite Hj. f_equal. f_equal.
  unfold findCompany.
  destruct Hc as [->|(c & Ha & ->)]; [reflexivity|].
  induction (companies d) as [|c0 cs IH]; cbn [app find].
  - destruct (String.eqb (company_name c) (company l)) eqn:En; [|reflexivity].
    apply String.eqb_eq in En. rewrite <- En, Ha. reflexivity.
  - destruct (String.eqb (company_name c0) (company l)); [reflexivity | exact IH].
Qed.

(** One iteration of the loop, seen from the tables. *)
Lemma processListing_effect (st : LoopState) (l : JobListing) :
  let st' := processListing env id criteria total st l in
  let d := db (world st) in
  let d' := db (world st') in
  (forall l', stores env id d' l' = stores env id d l') /\
  (companies d' = companies d \/
   qualifies env criteria l = true /\
   ~ In (company l) (map company_name (companies d)) /\
   acceptsCompany (company l) = true /\
   companies d' =
     companies d ++ [fst (insertCompany (company l) (isRecruitmentAgency (company l)) d)]) /\
  if persists env criteria id d l
  then exists c,
         In c (companies d') /\ company_name c = company l /\
         leads d' = leads d ++
           [rowOf env id l (Z.of_nat (length (leads d)) + 1) (company_id c)] /\
         validLeads st' = validLeads st ++
           [leadData (rowOf env id l (Z.of_nat (length (leads d)) + 1) (company_id c))
                     (company l)]
  else leads d' = leads d /\ validLeads st' = validLeads st.
Proof.
  cbv zeta. unfold persists, qualifies, computedScore, processListing.
  destruct (skipped criteria l).
  { cbn [andb]. split; [reflexivity|]. split; [now left | auto]. }
  set (score := calculateLeadScore _).
  destruct (40 <? score) eqn:Eq; cbn [andb].
  - pose proof (keepLead_cases id l (extractJobDescription env (url l))
                  (extractHiringManagerInfo env (url l)) score st) as Hk.
    cbv zeta in Hk.
    change (takes id (db (world st)) l (extractJobDescription env (url l))
                  (extractHiringManagerInfo env (url l)) score)
      with (stores env id (db (world st)) l) in Hk.
    destruct Hk as (Hj & He & Hc & Hcomp & Hk).
    assert (Hcomp' :
              companies (db (world (stateOf (keepLead id l (extractJobDescription env (url l))
                  (extractHiringManagerInfo env (url l)) score st)))) =
                companies (db (world st)) \/
              exists c, acceptsCompany (company_name c) = true /\
                companies (db (world (stateOf (keepLead id l (extractJobDescription env (url l))
                  (extractHiringManagerInfo env (url l)) score st)))) =
                companies (db (world st)) ++ [c]).
    { destruct Hcomp as [Ec|(_ & Ha & Ec)]; [now left|]. right. eexists. split; [|exact Ec].
      exact Ha. }
    assert (Hcomp'' :
              companies (db (world (stateOf (keepLead id l (extractJobDescription env (url l))
                  (extractHiringManagerInfo env (url l)) score st)))) =
                companies (db (world st)) \/
              true = true /\
              ~ In (company l) (map company_name (companies (db (world st)))) /\
              acceptsCompany (company l) = true /\
              companies (db (world (stateOf (keepLead id l (extractJobDescription env (url l))
                  (extractHiringManagerInfo env (url l)) score st)))) =
                companies (db (world st)) ++
                [fst (insertCompany (company l) (isRecruitmentAgency (company l))
                        (db (world st)))]).
    { destruct Hcomp as [Ec|(Hf & Ha & Ec)]; [now left|]. right.
      split; [reflexivity|]. split; [now apply findCompany_none|]. auto. }
    clear Hcomp.
    destruct (stores env id (db (world st)) l).
    + destruct Hk as (c & row & -> & Hin & Hname & -> & Hl & Hv).
      set (st1 := stateOf _) in *. cbn [world validLeads].
      rewrite updateJob_leads, updateJob_companies. cbn [jobProgress emit db].
      split; [|split; [exact Hcomp''|]].
      * apply stores_same; [|now rewrite updateJob_companies].
        rewrite updateJob_held. cbn [jobProgress emit db]. now rewrite Hj.
      * exists c. auto.
    + destruct Hk as (-> & Hl & Hv). set (st1 := stateOf _) in *.
      split; [|split; [exact Hcomp''|auto]].
      apply stores_same; [now rewrite Hj | exact Hcomp'].
  - cbn [world validLeads]. rewrite updateJob_leads, updateJob_companies.
    cbn [jobProgress emit db]. split; [|split; [now left | auto]].
    apply stores_same; [|now rewrite updateJob_companies; left].
    now rewrite updateJob_held.
Qed.

End LoopEffect.

Section LoopRun.

Variables (env : Env) (id : string) (criteria : SearchCriteria) (total : nat).

Lemma NoDup_snoc {A} (l : list A) (x : A) :
  List.NoDup l -> ~ In x l -> List.NoDup (l ++ [x]).
Proof.
  induction l as [|a l IH]; simpl; intros Hnd Hx.
  - apply List.NoDup_cons_iff. split; [intros [] | apply List.NoDup_nil].
  - apply List.NoDup_cons_iff in Hnd as [Ha Hnd].
    apply List.NoDup_cons_iff. split.
    + intros Hin. apply in_app_or in Hin as [Hin|[Hin|[]]]; [tauto | subst; tauto].
    + apply IH; tauto.
Qed.

(** The loop over the listings, seen from the tables: one row per
    qualifying listing that the store takes, in the order of the listings,
    and one company per name not met before. *)
Lemma loop_effect (listings : list JobListing) (st : LoopState) :
  let st' := fold_left (processListing env id criteria total) listings st in
  let d := db (world st) in
  let d' := db (world st') in
  let kept := List.filter (persists env criteria id d) listings in
  exists fresh newCompanies,
    leads d' = leads d ++ fresh /\
    companies d' = companies d ++ newCompanies /\
    validLeads st' =
      validLeads st ++ zip_with (fun row l => leadData row (company l)) fresh kept /\
    Forall2 (fun row l => exists rowId c,
                 row = rowOf env id l rowId (company_id c) /\
                 In c (companies d') /\ company_name c = company l) fresh kept /\
    Forall (fun c => company_isRecruitmentAgency c = isRecruitmentAgency (company_name c) /\
                     company_isBlacklisted c = false /\
                     acceptsCompany (company_name c) = true /\
                     exists l, In l (List.filter (qualifies env criteria) listings) /\
                               company l = company_name c) newCompanies /\
    (List.NoDup (map company_name (companies d)) ->
     List.NoDup (map company_name (companies d'))).
Proof.
  revert st. induction listings as [|l ls IH]; intros st; cbn [fold_left].
  - exists [], []. cbn. rewrite !app_nil_r. repeat split; auto.
  - destruct (IH (processListing env id criteria total st l))
      as (fresh & news & Hl & Hc & Hv & Hrows & Hnews & Hnd).
    cbv zeta in *.
    destruct (processListing_effect env id criteria total st l) as (Hst & Hcomp & Heff).
    cbv zeta in Hst, Hcomp, Heff.
    set (s1 := processListing env id criteria total st l) in *.
    set (st' := fold_left (processListing env id criteria total) ls s1) in *.
    rewrite (List.filter_ext (persists env criteria id (db (world s1)))
                             (persists env criteria id (db (world st)))) in Hv, Hrows
      by (intros l'; unfold persists; now rewrite Hst).
    assert (Hcs : exists pre,
               companies (db (world s1)) = companies (db (world st)) ++ pre /\
               Forall (fun c0 =>
                 company_isRecruitmentAgency c0 = isRecruitmentAgency (company_name c0) /\
                 company_isBlacklisted c0 = false /\
                 acceptsCompany (company_name c0) = true /\
                 exists l0, In l0 (List.filter (qualifies env criteria) (l :: ls)) /\
                            company l0 = company_name c0) (pre ++ news) /\
               (List.NoDup (map company_name (companies (db (world st)))) ->
                List.NoDup (map company_name (companies (db (world s1)))))).
    { assert (Hnews' : Forall (fun c0 =>
                 company_isRecruitmentAgency c0 = isRecruitmentAgency (company_name c0) /\
                 company_isBlacklisted c0 = false /\
                 acceptsCompany (company_name c0) = true /\
                 exists l0, In l0 (List.filter (qualifies env criteria) (l :: ls)) /\
                            company l0 = company_name c0) news).
      { eapply List.Forall_impl; [|exact Hnews].
        intros c' (H1 & H2 & H3 & l' & Hl' & Hn'). repeat split; auto.
        exists l'. split; [|assumption]. cbn [List.filter].
        destruct (qualifies env criteria l); [now right | assumption]. }
      destruct Hcomp as [Ec|(Hq & Hnew & Ha & Ec)].
      - exists []. rewrite app_nil_r, Ec. auto.
      - eexists [_]. split; [exact Ec|]. split.
        + constructor; [|exact Hnews']. cbn [insertCompany fst company_name
            company_isRecruitmentAgency company_isBlacklisted].
          repeat split; auto. exists l. split; [|reflexivity].
          cbn [List.filter]. rewrite Hq. now left.
        + intros Hnd0. rewrite Ec, map_app. cbn [map]. now apply NoDup_snoc. }
    destruct Hcs as (pre & Ec & Hall & Hnd1).
    cbn [List.filter].
    destruct (persists env criteria id (db (world st)) l).
    + destruct Heff as (c & Hin & Hname & El & Ev).
      exists (rowOf env id l (Z.of_nat (length (leads (db (world st)))) + 1)
                    (company_id c) :: fresh), (pre ++ news).
      split; [rewrite Hl, El, <- app_assoc; reflexivity|].
      split; [rewrite Hc, Ec, <- app_assoc; reflexivity|].
      split; [rewrite Hv, Ev, <- app_assoc; reflexivity|].
      split; [|split; [exact Hall | auto]].
      constructor; [|exact Hrows].
      exists (Z.of_nat (length (leads (db (world st)))) + 1), c.
      split; [reflexivity|]. split; [|exact Hname].
      rewrite Hc. apply in_or_app. now left.
    + destruct Heff as (El & Ev). exists fresh, (pre ++ news).
      split; [now rewrite Hl, El|].
      split; [rewrite Hc, Ec, <- app_assoc; reflexivity|].
      split; [now rewrite Hv, Ev|].
      split; [exact Hrows|]. split; [exact Hall | auto].
Qed.

End LoopRun.

(** ** Events and job rows through the stages *)

Section Quiet.

Variable id : string.

Lemma exportedBatches_app (es es' : list Event) :
  exportedBatches (es ++ es') = exportedBatches es ++ exportedBatches es'.
Proof. apply flat_map_app. Qed.

Lemma quiet_refl (w : World) : quiet w w.
Proof. exists []. now rewrite app_nil_r. Qed.

Lemma quiet_trans (w1 w2 w3 : World) : quiet w1 w2 -> quiet w2 w3 -> quiet w1 w3.
Proof.
  intros (n1 & E1 & B1) (n2 & E2 & B2). exists (n1 ++ n2).
  rewrite E2, E1, <- app_assoc, exportedBatches_app, B1, B2. auto.
Qed.

Lemma quiet_updateJob (p : JobPatch) (w : World) : quiet w (updateJob id p w).
Proof.
  eexists. rewrite updateJob_events. split; [reflexivity|].
  now destruct (jobs (db w) !! id).
Qed.

Lemma quiet_jobProgress (v : Q) (w : World) : quiet w (jobProgress v w).
Proof. exists [QueueProgress v]. auto. Qed.

Lemma quiet_same (w w' : World) : events w' = events w -> quiet w w'.
Proof. intros E. exists []. now rewrite app_nil_r. Qed.

Lemma quiet_onProgress (rs : list ScrapingProgress) (w : World) :
  quiet w (fold_left (onProgress id) rs w).
Proof.
  revert w. induction rs as [|r rs IH]; intros w; simpl; [apply quiet_refl|].
  eapply quiet_trans; [|apply IH]. unfold onProgress.
  destruct (integer _); [|apply quiet_jobProgress].
  eapply quiet_trans; [apply quiet_jobProgress | apply quiet_updateJob].
Qed.

Lemma patched_refl (w : World) : patched id w w (fun row => row).
Proof.
  split; [|auto]. symmetry. now apply alter_id.
Qed.

Lemma patched_trans (w1 w2 w3 : World) (f g : JobRow -> JobRow) :
  patched id w1 w2 f -> patched id w2 w3 g -> patched id w1 w3 (g ∘ f).
Proof.
  intros [E1 P1] [E2 P2]. split.
  - rewrite E2, E1. apply alter_alter_eq.
  - intros row. unfold compose. destruct (P1 row) as [A1 B1], (P2 (f row)) as [A2 B2].
    split; congruence.
Qed.

Lemma patched_updateJob (p : JobPatch) (w : World) :
  patched id w (updateJob id p w) (applyPatch p).
Proof.
  split; [|auto]. unfold updateJob.
  destruct (jobs (updateJobRow id p (db w)) !! id); reflexivity.
Qed.

Lemma patched_same (w w' : World) :
  jobs (db w') = jobs (db w) -> patched id w w' (fun row => row).
Proof. intros E. destruct (patched_refl w) as [H P]. split; [now rewrite E | exact P]. Qed.

(** The row of the job after a patched stretch. *)
Lemma patched_lookup (w w' : World) (f : JobRow -> JobRow) :
  patched id w w' f -> jobs (db w') !! id = f <$> jobs (db w) !! id.
Proof. intros [E _]. rewrite E. apply lookup_alter_eq. Qed.


End Quiet.

Section StageRows.

Variables (env : Env) (id : string) (criteria : SearchCriteria) (total : nat).

Lemma processListing_stage (st : LoopState) (l : JobListing) :
  let st' := processListing env id criteria total st l in
  quiet (world st) (world st') /\
  exists f, patched id (world st) (world st') f /\ keepsOutcome f.
Proof.
  unfold processListing. destruct (skipped criteria l).
  - split; [apply quiet_refl|]. exists (fun row => row).
    split; [apply patched_refl | repeat split].
  - set (score := calculateLeadScore _).
    set (a := if 40 <? score then _ else _).
    assert (H1 : jobs (db (world (stateOf a))) = jobs (db (world st)) /\
                 events (world (stateOf a)) = events (world st)).
    { subst a. destruct (40 <? score); [|auto].
      destruct (keepLead_frame id l (extractJobDescription env (url l))
                  (extractHiringManagerInfo env (url l)) score st) as (Hj & He & _).
      auto. }
    destruct H1 as [Hj He]. destruct a as [st1|st1]; cbn [stateOf] in Hj, He.
    + cbn [world]. split.
      * eapply quiet_trans; [apply quiet_same; exact He|].
        eapply quiet_trans; [apply quiet_jobProgress | apply quiet_updateJob].
      * eexists. split.
        -- eapply patched_trans; [apply patched_same; exact Hj|].
           eapply patched_trans; [|apply patched_updateJob].
           apply patched_same. reflexivity.
        -- intros row. repeat split.
    + split; [apply quiet_same; exact He|]. exists (fun row => row).
      split; [apply patched_same; exact Hj | repeat split].
Qed.

Lemma loop_stage (listings : list JobListing) (st : LoopState) :
  let st' := fold_left (processListing env id criteria total) listings st in
  quiet (world st) (world st') /\
  exists f, patched id (world st) (world st') f /\ keepsOutcome f.
Proof.
  revert st. induction listings as [|l ls IH]; intros st; cbn [fold_left].
  - split; [apply quiet_refl|]. exists (fun row => row).
    split; [apply patched_refl | repeat split].
  - destruct (processListing_stage st l) as (Q1 & f & P1 & K1).
    destruct (IH (processListing env id criteria total st l)) as (Q2 & g & P2 & K2).
    cbv zeta in *. split; [eapply quiet_trans; eauto|].
    exists (g ∘ f). split; [eapply patched_trans; eauto|].
    intros row. unfold compose.
    destruct (K1 row) as (A1 & B1 & C1 & D1), (K2 (f row)) as (A2 & B2 & C2 & D2).
    repeat split; congruence.
Qed.

(** Discovery leaves in the row the count of the last report, when the
    store takes the update of every report. *)
Lemma discovery_stage (rs : list ScrapingProgress) (w : World) :
  let w' := fold_left (onProgress id) rs w in
  quiet w w' /\
  exists f, patched id w w' f /\ keepsState f /\
            (Forall (fun r => integer (Math_round (discoveryValue (progress r))) = true) rs ->
             forall row, job_totalJobsFound (f row) =
                         default (job_totalJobsFound row) (jobsFound <$> last rs)).
Proof.
  revert w. induction rs as [|r rs IH]; intros w; cbn [fold_left].
  - split; [apply quiet_refl|]. exists (fun row => row).
    split; [apply patched_refl|]. split; [repeat split | reflexivity].
  - destruct (IH (onProgress id w r)) as (Q2 & g & P2 & K2 & T2). cbv zeta in *.
    assert (H1 : quiet w (onProgress id w r) /\
                 exists f1, patched id w (onProgress id w r) f1 /\ keepsState f1 /\
                   (integer (Math_round (discoveryValue (progress r))) = true ->
                    forall row, job_totalJobsFound (f1 row) = jobsFound r)).
    { unfold onProgress, discoveryValue. destruct (integer _).
      - split; [eapply quiet_trans; [apply quiet_jobProgress | apply quiet_updateJob]|].
        eexists. split; [|split].
        + eapply patched_trans; [|apply patched_updateJob].
          apply patched_same. reflexivity.
        + intros row. repeat split.
        + intros _ row. reflexivity.
      - split; [apply quiet_jobProgress|]. exists (fun row => row).
        split; [apply patched_same; reflexivity|]. split; [repeat split | discriminate]. }
    destruct H1 as (Q1 & f1 & P1 & K1 & T1).
    split; [eapply quiet_trans; eauto|].
    exists (g ∘ f1). split; [eapply patched_trans; eauto|]. split.
    + intros row. unfold compose.
      destruct (K1 row) as (A1 & B1 & C1 & D1), (K2 (f1 row)) as (A2 & B2 & C2 & D2).
      repeat split; congruence.
    + intros Hall row. apply List.Forall_cons_iff in Hall as [Hr Hall].
      unfold compose. rewrite (T2 Hall), (T1 Hr).
      destruct rs as [|r' rs']; [reflexivity|].
      change (last (r :: r' :: rs')) with (last (r' :: rs')).
      destruct (last (r' :: rs')) eqn:E; [reflexivity|].
      apply last_None in E. discriminate.
Qed.

End StageRows.

Section SearchCounts.

Variables (fetch : nat -> PageOutcome) (limit : Q).

Lemma searchLoop_reportsCount (pages : list nat) (r : SearchRun) :
  reportsCount r -> reportsCount (searchLoop fetch limit pages r).
Proof.
  revert r. induction pages as [|page rest IH]; intros r Hr; simpl; [assumption|].
  assert (Hpush : forall pageJobs,
             reportsCount (pushAndReport limit page pageJobs (visit page r))).
  { intros pageJobs. unfold reportsCount, pushAndReport. cbn [reports found].
    now rewrite last_snoc. }
  destruct (fetch page) as [| |pageJobs|pageJobs [|]]; try apply IH; auto.
  apply Hpush.
Qed.

End SearchCounts.

Section LastStage.

Variables (env : Env) (id : string) (total : nat).

Lemma exportsSince_quiet (w w' : World) : quiet w w' -> exportsSince w w' [].
Proof. intros H. exact H. Qed.

Lemma exportsSince_trans (w1 w2 w3 : World) (b1 b2 : list (string * list LeadData)) :
  exportsSince w1 w2 b1 -> exportsSince w2 w3 b2 -> exportsSince w1 w3 (b1 ++ b2).
Proof.
  intros (n1 & E1 & B1) (n2 & E2 & B2). exists (n1 ++ n2).
  rewrite E2, E1, <- app_assoc, exportedBatches_app, B1, B2. auto.
Qed.

Lemma exportsSince_sheet (sheet : string) (rows : list LeadData) (w : World) :
  exportsSince w (emit (SheetExported sheet rows) w) [(sheet, rows)].
Proof. exists [SheetExported sheet rows]. auto. Qed.

(** The three ways the last stage can go. *)
Lemma exportAndComplete_stage (st : LoopState) :
  let r := exportAndComplete env id total st in
  companies (db (snd r)) = companies (db (world st)) /\
  ((validLeads st = [] /\
    fst r = Returned (Z.of_nat total) 0 /\
    leads (db (snd r)) = leads (db (world st)) /\
    exportsSince (world st) (snd r) []) \/
   (validLeads st <> [] /\
    exists sheet,
      spreadsheet env = Some sheet /\ exportSucceeds env = true /\
      fst r = Returned (Z.of_nat total) (Z.of_nat (length (validLeads st))) /\
      leads (db (snd r)) =
        map (markedBy env (map ld_jobUrl (validLeads st))) (leads (db (world st))) /\
      exportsSince (world st) (snd r) [(sheet, validLeads st)]) \/
   (validLeads st <> [] /\
    exists message,
      fst r = Thrown message /\
      ((spreadsheet env = None /\ message = "Failed to create spreadsheet") \/
       (exportSucceeds env = false /\
        message = "Failed to export leads to Google Sheets")) /\
      leads (db (snd r)) = leads (db (world st)) /\
      exportsSince (world st) (snd r) [])).
Proof.
  unfold exportAndComplete, completeJob, failJob.
  destruct (validLeads st) as [|v vs] eqn:Ev; cbn [length Nat.ltb Nat.leb].
  - cbn [fst snd]. split; [cbn [jobProgress emit db]; apply updateJob_companies|].
    left. cbn [jobProgress emit db]. rewrite updateJob_leads. repeat split.
    apply exportsSince_quiet.
    eapply quiet_trans; [apply quiet_updateJob | apply quiet_jobProgress].
  - destruct (spreadsheet env) as [sheet|] eqn:Es;
      [destruct (exportSucceeds env) eqn:Ex|]; cbn [fst snd].
    + split.
      { cbn [jobProgress emit db]. rewrite updateJob_companies. cbn [db].
        apply markLeads_frame; exact id. }
      right. left. split; [discriminate|]. exists sheet.
      cbn [jobProgress emit db]. rewrite updateJob_leads. cbn [db].
      rewrite markLeads_leads. repeat split.
      change [(sheet, v :: vs)] with ([] ++ [(sheet, v :: vs)] ++ [] ++ []).
      eapply exportsSince_trans; [apply exportsSince_quiet, (quiet_jobProgress 90)|].
      eapply exportsSince_trans; [apply exportsSince_sheet|].
      eapply exportsSince_trans;
        [|apply exportsSince_quiet; eapply quiet_trans;
           [apply (quiet_updateJob id) | apply quiet_jobProgress]].
      apply exportsSince_quiet, quiet_same. reflexivity.
    + split; [rewrite updateJob_companies; reflexivity|].
      right. right. split; [discriminate|]. eexists. split; [reflexivity|].
      rewrite updateJob_leads. cbn [jobProgress emit db].
      repeat split; auto. apply exportsSince_quiet.
      eapply quiet_trans; [apply (quiet_jobProgress 90) | apply quiet_updateJob].
    + split; [rewrite updateJob_companies; reflexivity|].
      right. right. split; [discriminate|]. eexists. split; [reflexivity|].
      rewrite updateJob_leads. cbn [jobProgress emit db].
      repeat split; auto. apply exportsSince_quiet.
      eapply quiet_trans; [apply (quiet_jobProgress 90) | apply quiet_updateJob].
Qed.

End LastStage.

Section Run.

Variables (env : Env) (data : ScrapingJobData) (w : World).

(** A run that got past launch and login, up to its last stage: the state
    the loop hands to the last stage, the events so far, the change of the
    job's row, and what the loop added to the tables. *)
Lemma process_stages :
  setupSucceeds env ->
  let id := jobId data in
  let criteria := searchCriteria data in
  let run := searchRun env criteria in
  let kept := List.filter (persists env criteria id (db w)) (found run) in
  exists st f fresh newCompanies,
    process env data w = exportAndComplete env id (length (found run)) st /\
    quiet w (world st) /\
    patched id w (world st) f /\
    (forall row,
        job_status (f row) = running /\
        job_errorMessage (f row) = job_errorMessage row /\
        job_completedAt (f row) = job_completedAt row /\
        (Forall (fun r => integer (Math_round (discoveryValue (progress r))) = true)
                (reports run) ->
         job_totalJobsFound (f row) = Z.of_nat (length (found run)) \/
         (found run = [] /\ job_totalJobsFound (f row) = job_totalJobsFound row))) /\
    leads (db (world st)) = leads (db w) ++ fresh /\
    companies (db (world st)) = companies (db w) ++ newCompanies /\
    validLeads st = zip_with (fun row l => leadData row (company l)) fresh kept /\
    Forall2 (fun row l => exists rowId c,
                 row = rowOf env id l rowId (company_id c) /\
                 In c (companies (db (world st))) /\ company_name c = company l)
            fresh kept /\
    Forall (fun c => company_isRecruitmentAgency c = isRecruitmentAgency (company_name c) /\
                     company_isBlacklisted c = false /\
                     acceptsCompany (company_name c) = true /\
                     exists l, In l (List.filter (qualifies env criteria) (found run)) /\
                               company l = company_name c) newCompanies /\
    (List.NoDup (map company_name (companies (db w))) ->
     List.NoDup (map company_name (companies (db (world st))))).
Proof.
  intros [Hlaunch Hlogin] id criteria run kept.
  destruct (process_cases env data w) as [(message & Hm & _)|(_ & _ & E)].
  { destruct Hm as [Hm|(_ & Hm & _)]; congruence. }
  cbv zeta in E. fold id in E. fold criteria in E.
  change (searchLoop (fetch env) (orDefault (maxPages criteria) 5)
            (pageIndices (orDefault (maxPages criteria) 5)) emptyRun)
    with run in E.
  set (w1 := updateJob id (patchRunning (now env)) w) in *.
  set (w3 := updateJob id (patchProgress 10) (jobProgress 10 w1)) in *.
  set (wA := fold_left (onProgress id) (reports run) w3) in *.
  set (st0 := {| world := wA; processedCount := 0; validLeads := [] |}) in *.
  set (st := fold_left (processListing env id criteria (length (found run)))
               (found run) st0) in *.
  destruct (discovery_stage id (reports run) w3) as (QA & fA & PA & KA & TA).
  fold wA in QA, PA.
  destruct (loop_stage env id criteria (length (found run)) (found run) st0)
    as (QL & fL & PL & KL).
  fold st in QL, PL. cbn [st0 world] in QL, PL.
  assert (HlA : leads (db wA) = leads (db w)).
  { unfold wA. rewrite onProgress_leads. unfold w3. rewrite updateJob_leads.
    cbn [jobProgress emit db]. apply updateJob_leads. }
  assert (HcA : companies (db wA) = companies (db w)).
  { destruct PA as [_ _]. unfold wA. clear.
    induction (reports run) as [|r rs IH] using rev_ind; cbn.
    - unfold w3. rewrite updateJob_companies. cbn [jobProgress emit db].
      apply updateJob_companies.
    - rewrite fold_left_app. cbn. unfold onProgress at 1.
      destruct (integer _); [rewrite updateJob_companies|];
        cbn [jobProgress emit db]; exact IH. }
  assert (P0A : patched id w wA
                  (fA ∘ (applyPatch (patchProgress 10) ∘ applyPatch (patchRunning (now env))))).
  { assert (P13 : patched id w1 w3 (applyPatch (patchProgress 10)))
      by exact (patched_updateJob id (patchProgress 10) (jobProgress 10 w1)).
    eapply patched_trans; [|exact PA].
    eapply patched_trans; [|exact P13]. apply patched_updateJob. }
  assert (HsA : forall l, stores env id (db wA) l = stores env id (db w) l).
  { apply stores_same; [|now left].
    rewrite (patched_lookup id w wA _ P0A). now destruct (jobs (db w) !! id). }
  destruct (loop_effect env id criteria (length (found run)) (found run) st0)
    as (fresh & news & Hl & Hc & Hv & Hrows & Hnews & Hnd).
  fold st in Hl, Hc, Hv, Hrows, Hnd.
  cbn [st0 world validLeads app] in Hl, Hc, Hv, Hrows, Hnd.
  rewrite (List.filter_ext (persists env criteria id (db wA))
                           (persists env criteria id (db w))) in Hv, Hrows
    by (intros l; unfold persists; now rewrite HsA).
  fold kept in Hv, Hrows.
  assert (Hcount : reportsCount run).
  { apply searchLoop_reportsCount. reflexivity. }
  exists st, (fL ∘ (fA ∘ (applyPatch (patchProgress 10) ∘ applyPatch (patchRunning (now env))))),
    fresh, news.
  split; [exact E|]. split; [|split; [|split]].
  - eapply quiet_trans; [|exact QL]. eapply quiet_trans; [|exact QA].
    eapply quiet_trans; [apply quiet_updateJob|].
    eapply quiet_trans; [apply quiet_jobProgress | apply quiet_updateJob].
  - eapply patched_trans; [exact P0A | exact PL].
  - intros row. unfold compose.
    set (r2 := applyPatch (patchProgress 10) (applyPatch (patchRunning (now env)) row)).
    destruct (KL (fA r2)) as (T1 & S1 & M1 & C1).
    destruct (KA r2) as (_ & S2 & M2 & C2).
    rewrite T1, S1, M1, C1, S2, M2, C2.
    repeat split. intros Hall. rewrite (TA Hall).
    unfold reportsCount in Hcount.
    destruct (last (reports run)) as [p|]; cbn.
    + left. exact Hcount.
    + right. split; [exact Hcount | reflexivity].
  - rewrite HlA in Hl. rewrite HcA in Hc, Hnd. repeat split; auto.
Qed.

End Run.

Section RunTables.

Variables (env : Env) (data : ScrapingJobData) (w : World).

Lemma markedBy_nil (l : list LeadRow) : map (markedBy env []) l = l.
Proof. induction l as [|r l IH]; cbn; [reflexivity | now rewrite IH]. Qed.

Lemma zip_with_urls (fresh : list LeadRow) (kept : list JobListing) :
  length fresh = length kept ->
  map ld_jobUrl (zip_with (fun row l => leadData row (company l)) fresh kept) =
  map lead_jobUrl fresh.
Proof.
  revert kept. induction fresh as [|r fresh IH]; intros [|l kept] H;
    try discriminate; cbn; [reflexivity|].
  f_equal. apply IH. now injection H.
Qed.

(** The tables after a run that got past launch and login. *)
Lemma process_tables :
  setupSucceeds env ->
  let id := jobId data in
  let criteria := searchCriteria data in
  let kept := List.filter (persists env criteria id (db w))
                          (found (searchRun env criteria)) in
  let w' := snd (process env data w) in
  exists fresh newCompanies urls,
    leads (db w') = map (markedBy env urls) (leads (db w) ++ fresh) /\
    (urls = [] \/ urls = map lead_jobUrl fresh) /\
    companies (db w') = companies (db w) ++ newCompanies /\
    Forall2 (fun row l => exists rowId c,
                 row = rowOf env id l rowId (company_id c) /\
                 In c (companies (db w')) /\ company_name c = company l)
            fresh kept /\
    Forall (fun c => company_isRecruitmentAgency c = isRecruitmentAgency (company_name c) /\
                     company_isBlacklisted c = false /\
                     acceptsCompany (company_name c) = true /\
                     exists l, In l (List.filter (qualifies env criteria)
                                                 (found (searchRun env criteria))) /\
                               company l = company_name c) newCompanies /\
    (List.NoDup (map company_name (companies (db w))) ->
     List.NoDup (map company_name (companies (db w')))).
Proof.
  intros Hs id criteria kept w'. subst w'.
  destruct (process_stages env data w Hs)
    as (st & f & fresh & news & E & _ & _ & _ & Hl & Hc & Hv & Hrows & Hnews & Hnd).
  cbv zeta in *. fold id criteria in E, Hrows, Hnews. fold id criteria kept in Hv, Hrows.
  rewrite E.
  destruct (exportAndComplete_stage env id
              (length (found (searchRun env criteria))) st) as (Hcomp & Hcases).
  cbv zeta in *.
  assert (Hlen : length fresh = length kept) by (eapply Forall2_length; eauto).
  assert (Hleads : exists urls,
             leads (db (snd (exportAndComplete env id
                               (length (found (searchRun env criteria))) st))) =
             map (markedBy env urls) (leads (db w) ++ fresh) /\
             (urls = [] \/ urls = map lead_jobUrl fresh)).
  { destruct Hcases as [(_ & _ & El & _)|[(_ & sheet & _ & _ & _ & El & _)
                                        |(_ & m & _ & _ & El & _)]].
    - exists []. rewrite El, Hl, markedBy_nil. auto.
    - exists (map lead_jobUrl fresh). rewrite El, Hl, Hv, zip_with_urls; auto.
    - exists []. rewrite El, Hl, markedBy_nil. auto. }
  destruct Hleads as (urls & El & Hu).
  exists fresh, news, urls. rewrite Hcomp. repeat split; auto.
Qed.

(** When the store holds the row of the job and the texts of every found
    listing fit their columns, the listings that become leads are the
    qualifying ones. *)
Lemma persists_qualifies (criteria : SearchCriteria) (id : string) (row0 : JobRow)
    (listings : list JobListing) :
  jobs (db w) !! id = Some row0 ->
  Forall (fun l => fitsColumns env l = true) listings ->
  List.filter (persists env criteria id (db w)) listings =
  List.filter (qualifies env criteria) listings.
Proof.
  intros Hrow Hfit. induction Hfit as [|l ls Hl _ IH]; cbn [List.filter]; [reflexivity|].
  unfold persists at 1.
  rewrite (fitsColumns_stores env id (db w) l row0 Hrow Hl), andb_true_r, IH.
  reflexivity.
Qed.

(** The listings that become leads are among the qualifying ones. *)
Lemma persists_only_qualifying (criteria : SearchCriteria) (id : string)
    (listings : list JobListing) (l : JobListing) :
  In l (List.filter (persists env criteria id (db w)) listings) ->
  In l (List.filter (qualifies env criteria) listings).
Proof.
  rewrite !filter_In. unfold persists. intros [Hin Hp].
  apply andb_true_iff in Hp as [Hq _]. auto.
Qed.

Lemma added_map {A B} (f : A -> B) (old fresh : list A) (before : list B) :
  length before = length old ->
  added before (map f (old ++ fresh)) = map f fresh.
Proof.
  intros H. unfold added. rewrite H, map_app, skipn_app, length_map, Nat.sub_diag.
  rewrite skipn_all2 by (rewrite length_map; lia). reflexivity.
Qed.

End RunTables.

(** ** Leads and companies added by a run *)

Section MarkedFields.

Variables (env : Env) (urls : list string).

Lemma markedBy_fields (row : LeadRow) :
  lead_jobUrl (markedBy env urls row) = lead_jobUrl row /\
  lead_jobTitle (markedBy env urls row) = lead_jobTitle row /\
  lead_jobId (markedBy env urls row) = lead_jobId row /\
  lead_leadScore (markedBy env urls row) = lead_leadScore row /\
  lead_isQualified (markedBy env urls row) = lead_isQualified row /\
  lead_companyId (markedBy env urls row) = lead_companyId row /\
  lead_email (markedBy env urls row) = lead_email row /\
  lead_jobSalary (markedBy env urls row) = lead_jobSalary row.
Proof. unfold markedBy. destruct (existsb _ _); repeat split. Qed.

End MarkedFields.

(** X1. A run that gets past launch and login, for a job whose row is in
    the store and a search whose listings all fit the columns of the leads
    and companies tables, adds to the leads table exactly one row per
    qualifying listing of the search, in the order in which the search found
    the listings: the added rows carry the URLs and titles of those
    listings, belong to the job, are flagged qualified and hold a score
    above 40 and at most 100. (A listing that does not fit is refused by the
    store and leaves no row.) *)
Theorem process_adds_qualifying_leads_in_order
    (env : Env) (data : ScrapingJobData) (w : World) (row0 : JobRow) :
  setupSucceeds env ->
  jobs (db w) !! jobId data = Some row0 ->
  Forall (fun l => fitsColumns env l = true)
         (found (searchRun env (searchCriteria data))) ->
  let kept := List.filter (qualifies env (searchCriteria data))
                          (found (searchRun env (searchCriteria data))) in
  let rows := added (leads (db w)) (leads (db (snd (process env data w)))) in
  length (leads (db (snd (process env data w)))) =
    (length (leads (db w)) + length kept)%nat /\
  map lead_jobUrl rows = map url kept /\
  map lead_jobTitle rows = map title kept /\
  Forall (fun row => lead_jobId row = jobId data /\
                     40 < lead_leadScore row <= 100 /\
                     lead_isQualified row = true) rows.
Proof.
  intros Hs Hrow Hfit kept rows. subst rows.
  destruct (process_tables env data w Hs)
    as (fresh & news & urls & El & _ & _ & Hrows & _). cbv zeta in *.
  rewrite (persists_qualifies env w _ _ row0 _ Hrow Hfit) in Hrows.
  fold kept in Hrows. rewrite El, added_map by reflexivity.
  assert (Hlen : length fresh = length kept) by (eapply Forall2_length; eauto).
  split; [rewrite length_map, length_app; lia|].
  rewrite !map_map.
  assert (Hfield : forall (A : Type) (g : LeadRow -> A) (h : JobListing -> A),
             (forall row, g (markedBy env urls row) = g row) ->
             (forall l rowId cid, g (rowOf env (jobId data) l rowId cid) = h l) ->
             map (fun row => g (markedBy env urls row)) fresh = map h kept).
  { intros A g h Hg Hh. clear El Hlen.
    induction Hrows as [|row l fresh' kept' (rowId & c & -> & _) _ IH]; cbn;
      [reflexivity|].
    now rewrite Hg, Hh, IH. }
  split; [|split].
  - apply Hfield; [intros row; apply markedBy_fields | reflexivity].
  - apply Hfield; [intros row; apply markedBy_fields | reflexivity].
  - assert (Hq : Forall (fun l => qualifies env (searchCriteria data) l = true) kept).
    { apply List.Forall_forall. intros l Hin. now apply filter_In in Hin. }
    clear El Hlen Hfield. rewrite <- map_map. apply Forall_map.
    induction Hrows as [|row l fresh' kept' (rowId & c & -> & _) _ IH];
      [constructor|].
    inversion Hq as [|? ? Hl Hq']; subst. constructor; [|now apply IH].
    destruct (markedBy_fields env urls
                (rowOf env (jobId data) l rowId (company_id c)))
      as (_ & _ & -> & -> & -> & _).
    apply qualifies_computedScore in Hl as (score & Hc & Hgt).
    unfold computedScore in Hc. destruct (skipped _ _); [discriminate|].
    injection Hc as <-. cbn [rowOf leadRow lead_jobId lead_leadScore lead_isQualified].
    repeat split; [exact Hgt|]. unfold calculateLeadScore. lia.
Qed.

Lemma process_adds_qualifying_leads_in_order_witness :
  let env := Sample.browser [Sample.agencyListing; Sample.directListing] in
  let data := Sample.jobData "job-1" (Sample.criteria false 3) in
  let w := Sample.worldWith "job-1" (Sample.criteria false 3) [Sample.earlierLead] in
  setupSucceeds env /\
  length (leads (db (snd (process env data w)))) = 2%nat /\
  map lead_jobUrl (added (leads (db w)) (leads (db (snd (process env data w))))) =
    [url Sample.directListing].
Proof.
  intros env data w.
  assert (Hs : setupSucceeds env) by (split; reflexivity).
  split; [exact Hs|].
  destruct (process_adds_qualifying_leads_in_order env data w _ Hs eq_refl
              ltac:(repeat constructor)) as (Hlen & Hurl & _).
  split; [exact Hlen | exact Hurl].
Defined.

(** ** The job row across a whole run *)

Section RunRow.

Variables (env : Env) (data : ScrapingJobData) (w : World).

Lemma patched_jobProgress (id : string) (v : Q) (w0 : World) :
  patched id w0 (jobProgress v w0) (fun row => row).
Proof. now apply patched_same. Qed.

Lemma exportAndComplete_patched (id : string) (total : nat) (st : LoopState) :
  exists p, patched id (world st) (snd (exportAndComplete env id total st)) (applyPatch p) /\
    match fst (exportAndComplete env id total st) with
    | Returned _ _ => p = patchCompleted (now env)
    | Thrown message => p = patchFailed (now env) message
    end.
Proof.
  unfold exportAndComplete, completeJob, failJob.
  destruct (0 <? length (validLeads st))%nat.
  - destruct (spreadsheet env) as [sheet|]; [destruct (exportSucceeds env)|];
      cbn [fst snd]; eexists; (split; [|reflexivity]).
    + destruct (patched_updateJob id (patchCompleted (now env))
                  {| db := markLeads env (validLeads st)
                             (db (emit (SheetExported sheet (validLeads st))
                                       (jobProgress 90 (world st))));
                     events := events (emit (SheetExported sheet (validLeads st))
                                            (jobProgress 90 (world st))) |})
        as [E P].
      split; [|exact P]. cbn [jobProgress emit db] in *. rewrite E.
      cbn [db]. f_equal. apply (markLeads_frame env id).
    + exact (patched_updateJob id _ (jobProgress 90 (world st))).
    + exact (patched_updateJob id _ (jobProgress 90 (world st))).
  - cbn [fst snd]. eexists. split; [|reflexivity].
    destruct (patched_updateJob id (patchCompleted (now env)) (world st)) as [E P].
    split; [exact E | exact P].
Qed.

(** Every path through the processor changes the table of jobs by one
    function applied to the row of its own job. *)
Lemma process_patched :
  exists f, patched (jobId data) w (snd (process env data w)) f /\
    forall row,
      match fst (process env data w) with
      | Returned _ _ =>
          job_status (f row) = completed /\ job_progress (f row) = 100 /\
          job_completedAt (f row) = Some (now env) /\
          job_errorMessage (f row) = job_errorMessage row
      | Thrown message =>
          job_status (f row) = failed /\ job_errorMessage (f row) = Some message /\
          job_completedAt (f row) = job_completedAt row
      end /\
      job_updatedAt (f row) = now env.
Proof.
  destruct (process_cases env data w) as [(message & _ & E)|(Hl & Hg & E)];
    cbv zeta in E.
  - rewrite E. unfold failJob. cbn [fst snd]. eexists. split.
    + eapply patched_trans; apply patched_updateJob.
    + intros row. repeat split.
  - destruct (process_stages env data w (conj Hl Hg))
      as (st & f & _ & _ & E' & _ & P & Hf & _). cbv zeta in *.
    rewrite E'.
    destruct (exportAndComplete_patched (jobId data)
                (length (found (searchRun env (searchCriteria data)))) st)
      as (p & Pp & Hp).
    exists (applyPatch p ∘ f). split; [eapply patched_trans; eassumption|].
    intros row. destruct (Hf row) as (_ & He & Hc & _). unfold compose.
    destruct (fst (exportAndComplete env (jobId data) _ st)); subst p;
      cbn; rewrite ?He, ?Hc; repeat split.
Qed.

End RunRow.


(** ** How a run ends *)

Section RunEnd.

Variables (env : Env) (data : ScrapingJobData) (w : World).

Lemma zip_with_nil_iff {A B C} (g : A -> B -> C) (xs : list A) (ys : list B) :
  length xs = length ys -> zip_with g xs ys = [] <-> ys = [].
Proof. destruct xs, ys; cbn; intros H; try discriminate; split; auto; discriminate. Qed.

(** The three endings of a run that got past launch and login. *)
Lemma process_ends :
  setupSucceeds env ->
  let id := jobId data in
  let criteria := searchCriteria data in
  let total := Z.of_nat (length (found (searchRun env criteria))) in
  let kept := List.filter (persists env criteria id (db w))
                          (found (searchRun env criteria)) in
  let r := process env data w in
  exists fresh,
    Forall2 (fun row l => exists rowId companyId, row = rowOf env id l rowId companyId)
            fresh kept /\
    ((kept = [] /\ fst r = Returned total 0 /\
      leads (db (snd r)) = leads (db w) /\ exportsSince w (snd r) []) \/
     (kept <> [] /\
      exists sheet,
        spreadsheet env = Some sheet /\ exportSucceeds env = true /\
        fst r = Returned total (Z.of_nat (length kept)) /\
        leads (db (snd r)) =
          map (markedBy env (map url kept)) (leads (db w) ++ fresh) /\
        exportsSince w (snd r)
          [(sheet, zip_with (fun row l => leadData row (company l)) fresh kept)]) \/
     (kept <> [] /\
      exists message,
        fst r = Thrown message /\
        ((spreadsheet env = None /\ message = "Failed to create spreadsheet") \/
         (spreadsheet env <> None /\ exportSucceeds env = false /\
          message = "Failed to export leads to Google Sheets")) /\
        leads (db (snd r)) = leads (db w) ++ fresh /\
        exportsSince w (snd r) [])).
Proof.
  intros Hs id criteria total kept r. subst r total.
  destruct (process_stages env data w Hs)
    as (st & f & fresh & news & E & Q & _ & _ & Hl & _ & Hv & Hrows & _).
  cbv zeta in *. fold id criteria in E, Hrows. fold id criteria kept in Hv, Hrows.
  assert (Hlen : length fresh = length kept) by (eapply Forall2_length; eauto).
  assert (Hnil : validLeads st = [] <-> kept = []).
  { rewrite Hv. now apply zip_with_nil_iff. }
  assert (Hurls : map lead_jobUrl fresh = map url kept).
  { clear - Hrows. induction Hrows as [|row l ? ? (rowId & c & -> & _) _ IH];
      cbn; [reflexivity | now rewrite IH]. }
  exists fresh. split.
  { clear - Hrows. induction Hrows as [|row l ? ? (rowId & c & -> & _) _ IH];
      constructor; eauto. }
  rewrite E.
  destruct (exportAndComplete_stage env id
              (length (found (searchRun env criteria))) st) as (_ & Hcases).
  cbv zeta in Hcases.
  destruct Hcases as [(Hn & Ho & El & Ex)|[(Hn & sheet & Hsheet & Hx & Ho & El & Ex)
                                         |(Hn & m & Ho & Hm & El & Ex)]].
  - left. rewrite Ho, El, Hl. apply Hnil in Hn.
    assert (fresh = []) as -> by (destruct fresh; [reflexivity | rewrite Hn in Hlen; discriminate]).
    rewrite app_nil_r. repeat split; auto.
    change (@nil (string * list LeadData)) with (@nil (string * list LeadData) ++ []).
    eapply exportsSince_trans; [apply exportsSince_quiet, Q | exact Ex].
  - right. left. split; [tauto|]. exists sheet.
    rewrite Ho, El, Hl. rewrite Hv at 1. rewrite Hv at 1.
    rewrite length_zip_with, zip_with_urls, Hurls by assumption.
    rewrite Hlen, Nat.min_id. repeat split; auto.
    rewrite <- Hv.
    change [(sheet, validLeads st)] with ([] ++ [(sheet, validLeads st)]).
    eapply exportsSince_trans; [apply exportsSince_quiet, Q | exact Ex].
  - right. right. split; [tauto|]. exists m. rewrite Ho, El, Hl.
    repeat split; auto.
    + destruct Hm as [Hm|[Hx ->]]; [now left|].
      destruct (spreadsheet env) eqn:Es; [right; repeat split; auto; discriminate|].
      exfalso. revert Ho. unfold exportAndComplete.
      destruct (0 <? length (validLeads st))%nat; rewrite ?Es; unfold failJob, completeJob;
        cbn [fst]; intros [=].
    + change (@nil (string * list LeadData)) with (@nil (string * list LeadData) ++ []).
      eapply exportsSince_trans; [apply exportsSince_quiet, Q | exact Ex].
Qed.

End RunEnd.

(** ** Companies of a run *)

(** X3. A run that gets past launch and login only appends to the table of
    companies, and keeps company names unique if they were: a company row is
    created only for the company of a qualifying listing that has no row
    yet, flagged as an agency exactly when its name classifies as one, and
    never blacklisted. *)
Theorem process_keeps_company_names_unique
    (env : Env) (data : ScrapingJobData) (w : World) :
  setupSucceeds env ->
  List.NoDup (map company_name (companies (db w))) ->
  let kept := List.filter (qualifies env (searchCriteria data))
                          (found (searchRun env (searchCriteria data))) in
  let w' := snd (process env data w) in
  List.NoDup (map company_name (companies (db w'))) /\
  exists newCompanies,
    companies (db w') = companies (db w) ++ newCompanies /\
    Forall (fun c => company_isRecruitmentAgency c = isRecruitmentAgency (company_name c) /\
                     company_isBlacklisted c = false /\
                     ~ In (company_name c) (map company_name (companies (db w))) /\
                     exists l, In l kept /\ company l = company_name c) newCompanies.
Proof.
  intros Hs Hnd kept w'. subst w'.
  destruct (process_tables env data w Hs)
    as (fresh & news & urls & _ & _ & Ec & _ & Hnews & Hnd'). cbv zeta in *.
  specialize (Hnd' Hnd). split; [exact Hnd'|].
  exists news. split; [exact Ec|].
  rewrite Ec, map_app in Hnd'.
  apply List.Forall_forall. intros c Hin.
  rewrite List.Forall_forall in Hnews. destruct (Hnews c Hin) as (Ha & Hb & _ & Hl).
  repeat split; auto.
  intros Hold. apply in_split in Hin as (n1 & n2 & ->).
  rewrite map_app in Hnd'. cbn [map] in Hnd'.
  revert Hnd' Hold. generalize (map company_name (companies (db w))) as olds.
  intros olds Hnd' Hold.
  apply in_split in Hold as (o1 & o2 & ->).
  rewrite <- !app_assoc in Hnd'. cbn [app] in Hnd'.
  apply List.NoDup_remove_2 in Hnd'. apply Hnd'.
  rewrite !in_app_iff. right. right. right. now left.
Qed.

Lemma process_keeps_company_names_unique_witness :
  let env := Sample.browser [Sample.directListing; Sample.otherListing] in
  let data := Sample.jobData "job-1" (Sample.criteria false 3) in
  let w := Sample.worldHolding "job-1" (Sample.criteria false 3) [Sample.acme] in
  List.NoDup (map company_name (companies (db (snd (process env data w))))) /\
  exists newCompanies,
    companies (db (snd (process env data w))) = [Sample.acme] ++ newCompanies.
Proof.
  intros env data w.
  assert (Hs : setupSucceeds env) by (split; reflexivity).
  assert (Hnd : List.NoDup (map company_name (companies (db w)))).
  { repeat constructor. simpl. tauto. }
  destruct (process_keeps_company_names_unique env data w Hs Hnd)
    as (Hnd' & news & Ec & _).
  split; [exact Hnd'|]. exists news. exact Ec.
Defined.

(** X4. In a run that gets past launch and login, for a job whose row is
    in the store and a search whose listings all fit the columns of the
    leads and companies tables, every lead row added points, by its
    [companyId], to a row of the table of companies whose name is the
    company of the listing the lead was made from, the qualifying listings
    taken in order. *)
Theorem process_links_lead_to_company
    (env : Env) (data : ScrapingJobData) (w : World) (row0 : JobRow) :
  setupSucceeds env ->
  jobs (db w) !! jobId data = Some row0 ->
  Forall (fun l => fitsColumns env l = true)
         (found (searchRun env (searchCriteria data))) ->
  let kept := List.filter (qualifies env (searchCriteria data))
                          (found (searchRun env (searchCriteria data))) in
  let w' := snd (process env data w) in
  Forall2 (fun row l => exists c, In c (companies (db w')) /\
                                  lead_companyId row = Some (company_id c) /\
                                  company_name c = company l)
          (added (leads (db w)) (leads (db w'))) kept.
Proof.
  intros Hs Hrow Hfit kept w'. subst w'.
  destruct (process_tables env data w Hs)
    as (fresh & news & urls & El & _ & _ & Hrows & _). cbv zeta in *.
  rewrite (persists_qualifies env w _ _ row0 _ Hrow Hfit) in Hrows.
  fold kept in Hrows. rewrite El, added_map by reflexivity. clear El.
  induction Hrows as [|row l fresh' kept' (rowId & c & -> & Hin & Hname) _ IH];
    cbn [map]; [constructor|]. constructor; [|exact IH].
  exists c. destruct (markedBy_fields env urls
                        (rowOf env (jobId data) l rowId (company_id c)))
    as (_ & _ & _ & _ & _ & -> & _).
  repeat split; assumption.
Qed.

Lemma process_links_lead_to_company_witness :
  let env := Sample.browser [Sample.directListing; Sample.otherListing] in
  let data := Sample.jobData "job-1" (Sample.criteria false 3) in
  let w := Sample.worldHolding "job-1" (Sample.criteria false 3) [Sample.acme] in
  setupSucceeds env /\
  Forall2 (fun row l => exists c, In c (companies (db (snd (process env data w)))) /\
                                  lead_companyId row = Some (company_id c) /\
                                  company_name c = company l)
          (added (leads (db w)) (leads (db (snd (process env data w)))))
          (List.filter (qualifies env (searchCriteria data))
                       (found (searchRun env (searchCriteria data)))).
Proof.
  intros env data w.
  assert (Hs : setupSucceeds env) by (split; reflexivity).
  split; [exact Hs|].
  exact (process_links_lead_to_company env data w _ Hs eq_refl
           ltac:(repeat constructor)).
Defined.

(** The URLs of the rows a run adds. *)
Lemma process_added_urls (env : Env) (data : ScrapingJobData) (w : World) :
  setupSucceeds env ->
  map lead_jobUrl (added (leads (db w)) (leads (db (snd (process env data w))))) =
  map url (List.filter (persists env (searchCriteria data) (jobId data) (db w))
                       (found (searchRun env (searchCriteria data)))).
Proof.
  intros Hs.
  destruct (process_tables env data w Hs)
    as (fresh & news & urls & El & _ & _ & Hrows & _). cbv zeta in *.
  rewrite El, added_map by reflexivity. clear El.
  induction Hrows as [|row l fresh' kept' (rowId & c & -> & _) _ IH]; cbn [map];
    [reflexivity|].
  rewrite IH. f_equal. apply markedBy_fields.
Qed.

(** X5. When the criteria ask to exclude agencies, a run that gets past
    launch and login makes no lead from a listing whose company classifies
    as a recruitment agency, and flags no company row it creates as an
    agency. *)
Theorem process_excludes_agencies
    (env : Env) (data : ScrapingJobData) (w : World) :
  setupSucceeds env ->
  excludeAgencies (searchCriteria data) = Some true ->
  let w' := snd (process env data w) in
  (exists listings,
      map lead_jobUrl (added (leads (db w)) (leads (db w'))) = map url listings /\
      Forall (fun l => In l (found (searchRun env (searchCriteria data))) /\
                       isRecruitmentAgency (company l) = false) listings) /\
  Forall (fun c => company_isRecruitmentAgency c = false)
         (added (companies (db w)) (companies (db w'))).
Proof.
  intros Hs Hex w'. subst w'.
  set (kept := List.filter (qualifies env (searchCriteria data))
                           (found (searchRun env (searchCriteria data)))).
  assert (Hkept : forall l, In l kept ->
             In l (found (searchRun env (searchCriteria data))) /\
             isRecruitmentAgency (company l) = false).
  { intros l Hin. apply filter_In in Hin as [Hin Hq]. split; [exact Hin|].
    apply qualifies_computedScore in Hq as (score & Hc & _).
    unfold computedScore, skipped in Hc. rewrite Hex in Hc. cbn [default andb] in Hc.
    destruct (isRecruitmentAgency (company l)); [discriminate | reflexivity]. }
  split.
  - eexists. split.
    + apply (process_added_urls env data w Hs).
    + apply List.Forall_forall. intros l Hin. apply Hkept.
      now apply (persists_only_qualifying env w) in Hin.
  - destruct (process_tables env data w Hs)
      as (fresh & news & urls & _ & _ & Ec & _ & Hnews & _). cbv zeta in *.
    fold kept in Hnews. rewrite Ec. unfold added.
    rewrite skipn_app, Nat.sub_diag, skipn_all. cbn [skipn app].
    apply List.Forall_forall. intros c Hin.
    rewrite List.Forall_forall in Hnews.
    destruct (Hnews c Hin) as (-> & _ & _ & l & Hl & <-). now apply Hkept.
Qed.

Lemma process_excludes_agencies_witness :
  let env := Sample.browser [Sample.agencyListing; Sample.directListing] in
  let data := Sample.jobData "job-1" (Sample.criteria true 3) in
  let w := Sample.worldHolding "job-1" (Sample.criteria true 3) [] in
  setupSucceeds env /\
  Forall (fun c => company_isRecruitmentAgency c = false)
         (added (companies (db w)) (companies (db (snd (process env data w))))).
Proof.
  intros env data w.
  assert (Hs : setupSucceeds env) by (split; reflexivity).
  split; [exact Hs|].
  exact (proj2 (process_excludes_agencies env data w Hs eq_refl)).
Defined.

(** ** The export step of a run *)

Lemma markedBy_listed (env : Env) (urls : list string) (row : LeadRow) :
  In (lead_jobUrl row) urls -> markedBy env urls row = setExported (now env) row.
Proof.
  intros Hin. unfold markedBy.
  destruct (existsb (String.eqb (lead_jobUrl row)) urls) eqn:E; [reflexivity|].
  exfalso. apply not_true_iff_false in E. apply E. apply existsb_exists.
  exists (lead_jobUrl row). split; [exact Hin | apply String.eqb_refl].
Qed.

Lemma zip_with_companies (fresh : list LeadRow) (kept : list JobListing) :
  length fresh = length kept ->
  map ld_companyName (zip_with (fun row l => leadData row (company l)) fresh kept) =
  map company kept.
Proof.
  revert kept. induction fresh as [|r fresh IH]; intros [|l kept] H;
    try discriminate; cbn; [reflexivity|].
  f_equal. apply IH. now injection H.
Qed.

(** X6. When launch, login and the export all work, the row of the job
    is in the store and the listings of the search all fit the columns of
    the leads and companies tables, a run returns the number of listings
    found and the number of qualifying ones, and hands the spreadsheet
    service exactly one batch, one entry per qualifying listing in the order
    of discovery, with the listing's URL and company; when no listing
    qualifies it hands over nothing at all.  Every lead row added by the run
    ends marked as exported. *)
Theorem process_exports_qualifying_leads_once
    (env : Env) (data : ScrapingJobData) (w : World) (sheet : string) (row0 : JobRow) :
  setupSucceeds env ->
  spreadsheet env = Some sheet ->
  exportSucceeds env = true ->
  jobs (db w) !! jobId data = Some row0 ->
  Forall (fun l => fitsColumns env l = true)
         (found (searchRun env (searchCriteria data))) ->
  let listings := found (searchRun env (searchCriteria data)) in
  let kept := List.filter (qualifies env (searchCriteria data)) listings in
  let r := process env data w in
  fst r = Returned (Z.of_nat (length listings)) (Z.of_nat (length kept)) /\
  (exists batch,
      exportsSince w (snd r)
        match kept with [] => [] | _ :: _ => [(sheet, batch)] end /\
      map ld_jobUrl batch = map url kept /\
      map ld_companyName batch = map company kept) /\
  Forall (fun row => lead_exportedToSheets row = true /\
                     lead_exportedAt row = Some (now env))
         (added (leads (db w)) (leads (db (snd r)))).
Proof.
  intros Hs Hsheet Hx Hrow Hfit listings kept r. subst r.
  destruct (process_ends env data w Hs) as (fresh & Hrows & Hcases). cbv zeta in *.
  rewrite (persists_qualifies env w _ _ row0 _ Hrow Hfit) in Hrows, Hcases.
  fold listings in Hcases, Hrows. fold kept in Hcases, Hrows.
  assert (Hlen : length fresh = length kept) by (eapply Forall2_length; eauto).
  assert (Hurls : map lead_jobUrl fresh = map url kept).
  { clear - Hrows. induction Hrows as [|row l ? ? (rowId & c & ->) _ IH];
      cbn; [reflexivity | now rewrite IH]. }
  destruct Hcases as [(Hn & Ho & El & Ex)|[(Hn & sheet' & Hsheet' & _ & Ho & El & Ex)
                                         |(Hn & m & Ho & Hm & _)]].
  - rewrite Hn in *. split; [exact Ho|]. split.
    + exists []. repeat split. exact Ex.
    + rewrite El. unfold added. rewrite skipn_all. constructor.
  - assert (sheet' = sheet) as -> by congruence.
    split; [exact Ho|]. split.
    + exists (zip_with (fun row l => leadData row (company l)) fresh kept).
      split; [destruct kept; [congruence | exact Ex]|].
      split; [now rewrite zip_with_urls | now apply zip_with_companies].
    + rewrite El, added_map by reflexivity. rewrite <- Hurls.
      apply Forall_map, List.Forall_forall. intros row Hin.
      rewrite markedBy_listed by (now apply in_map). split; reflexivity.
  - exfalso. destruct Hm as [[Hm _]|(_ & Hm & _)]; congruence.
Qed.

Lemma process_exports_qualifying_leads_once_witness :
  let env := Sample.browser [Sample.agencyListing; Sample.directListing] in
  let data := Sample.jobData "job-1" (Sample.criteria false 3) in
  let w := Sample.worldHolding "job-1" (Sample.criteria false 3) [] in
  setupSucceeds env /\
  fst (process env data w) =
    Returned (Z.of_nat (length (found (searchRun env (searchCriteria data)))))
             (Z.of_nat (length (List.filter (qualifies env (searchCriteria data))
                                            (found (searchRun env (searchCriteria data)))))).
Proof.
  intros env data w.
  assert (Hs : setupSucceeds env) by (split; reflexivity).
  split; [exact Hs|].
  exact (proj1 (process_exports_qualifying_leads_once env data w "sheet-1" _ Hs
                  eq_refl eq_refl eq_refl ltac:(repeat constructor))).
Defined.

(** X7. When the spreadsheet cannot be created or the export fails after
    at least one listing qualified, in a run for a job whose row is in the
    store and a search whose listings all fit the columns of the leads and
    companies tables, the run throws the matching message, yet the lead rows
    it inserted stay in the store: one per qualifying listing, appended to
    the rows that were there, none of them marked as exported. *)
Theorem process_export_failure_keeps_leads
    (env : Env) (data : ScrapingJobData) (w : World) (row0 : JobRow) :
  setupSucceeds env ->
  spreadsheet env = None \/ exportSucceeds env = false ->
  jobs (db w) !! jobId data = Some row0 ->
  Forall (fun l => fitsColumns env l = true)
         (found (searchRun env (searchCriteria data))) ->
  let listings := found (searchRun env (searchCriteria data)) in
  let kept := List.filter (qualifies env (searchCriteria data)) listings in
  let r := process env data w in
  kept <> [] ->
  fst r = Thrown (match spreadsheet env with
                  | None => "Failed to create spreadsheet"
                  | Some _ => "Failed to export leads to Google Sheets"
                  end) /\
  exists fresh,
    leads (db (snd r)) = leads (db w) ++ fresh /\
    map lead_jobUrl fresh = map url kept /\
    Forall (fun row => lead_exportedToSheets row = false /\
                       lead_exportedAt row = None) fresh.
Proof.
  intros Hs Hfail Hrow Hfit listings kept r Hkept. subst r.
  destruct (process_ends env data w Hs) as (fresh & Hrows & Hcases). cbv zeta in *.
  rewrite (persists_qualifies env w _ _ row0 _ Hrow Hfit) in Hrows, Hcases.
  fold listings in Hcases, Hrows. fold kept in Hcases, Hrows.
  destruct Hcases as [(Hn & _)|[(_ & sheet & Hsheet & Hx & _)
                              |(_ & m & Ho & Hm & El & _)]].
  - contradiction.
  - exfalso. destruct Hfail; congruence.
  - split.
    + rewrite Ho. destruct Hm as [[-> ->]|(Hsome & _ & ->)]; [reflexivity|].
      destruct (spreadsheet env); [reflexivity | contradiction].
    + exists fresh. split; [exact El|]. clear - Hrows.
      induction Hrows as [|row l ? ? (rowId & c & ->) _ [IH1 IH2]]; cbn [map].
      * split; [reflexivity | constructor].
      * split; [now rewrite IH1|]. constructor; [split; reflexivity | exact IH2].
Qed.

Lemma process_export_failure_keeps_leads_witness :
  let env := Sample.failingExport [Sample.directListing] in
  let data := Sample.jobData "job-1" (Sample.criteria false 3) in
  let w := Sample.worldHolding "job-1" (Sample.criteria false 3) [] in
  fst (process env data w) = Thrown "Failed to export leads to Google Sheets" /\
  exists fresh,
    leads (db (snd (process env data w))) = leads (db w) ++ fresh /\
    map lead_jobUrl fresh = [url Sample.directListing].
Proof.
  intros env data w.
  assert (Hs : setupSucceeds env) by (split; reflexivity).
  destruct (process_export_failure_keeps_leads env data w _ Hs (or_intror eq_refl)
              eq_refl ltac:(repeat constructor))
    as (Ho & fresh & El & Hu & _).
  - vm_compute. discriminate.
  - split; [exact Ho|]. exists fresh. split; [exact El | exact Hu].
Defined.

(** X8. When no listing of the search qualifies, a run that gets past
    launch and login completes without touching the spreadsheet service,
    whether or not that service works: it returns the number of listings
    found and zero leads, and leaves the tables of leads and companies as
    they were. *)
Theorem process_without_qualifying_listing
    (env : Env) (data : ScrapingJobData) (w : World) :
  setupSucceeds env ->
  let listings := found (searchRun env (searchCriteria data)) in
  let r := process env data w in
  Forall (fun l => qualifies env (searchCriteria data) l = false) listings ->
  fst r = Returned (Z.of_nat (length listings)) 0 /\
  exportsSince w (snd r) [] /\
  leads (db (snd r)) = leads (db w) /\
  companies (db (snd r)) = companies (db w).
Proof.
  intros Hs listings r Hnone. subst r.
  assert (Hkept : List.filter (qualifies env (searchCriteria data)) listings = []).
  { clear - Hnone. induction Hnone as [|l ls Hl _ IH]; cbn; [reflexivity|].
    now rewrite Hl. }
  assert (Hkept' : List.filter (persists env (searchCriteria data) (jobId data) (db w))
                               listings = []).
  { clear - Hnone. induction Hnone as [|l ls Hl _ IH]; cbn; [reflexivity|].
    unfold persists at 1. now rewrite Hl. }
  destruct (process_ends env data w Hs) as (fresh & _ & Hcases). cbv zeta in *.
  fold listings in Hcases. rewrite Hkept' in Hcases.
  destruct Hcases as [(_ & Ho & El & Ex)|[(Hn & _)|(Hn & _)]]; try contradiction.
  repeat split; try assumption.
  destruct (process_tables env data w Hs)
    as (_ & news & _ & _ & _ & Ec & _ & Hnews & _). cbv zeta in *.
  fold listings in Hnews. rewrite Hkept in Hnews. rewrite Ec.
  destruct news as [|c news]; [apply app_nil_r|].
  inversion Hnews as [|? ? (_ & _ & _ & l & [] & _) _].
Qed.

Lemma process_without_qualifying_listing_witness :
  let env := Sample.failingExport [Sample.agencyListing] in
  let data := Sample.jobData "job-1" (Sample.criteria false 3) in
  let w := Sample.worldHolding "job-1" (Sample.criteria false 3) [] in
  fst (process env data w) = Returned 1 0 /\
  leads (db (snd (process env data w))) = leads (db w).
Proof.
  intros env data w.
  assert (Hs : setupSucceeds env) by (split; reflexivity).
  destruct (process_without_qualifying_listing env data w Hs) as (Ho & _ & El & _).
  - repeat constructor.
  - split; [exact Ho | exact El].
Defined.



(** ** The discovery counter *)

Section DiscoveryRange.

Variables (fetch : nat -> PageOutcome) (limit : Q).
Hypothesis limit_ge_1 : (1 <= limit)%Q.

(** With a page limit of at least 1 the percentage of a page the loop
    visits is between 0 and 200, and the value stored for it fits the
    column. *)
Lemma pageProgress_stored (page : nat) :
  Z.of_nat page < Qceiling limit ->
  integer (Math_round (discoveryValue (pageProgress limit page))) = true.
Proof.
  intros Hpage. unfold pageProgress.
  set (x := (inject_Z (Z.of_nat page + 1) / limit * 100)%Q).
  assert (Hpos : (0 < limit)%Q) by lra.
  assert (Hnum : (0 <= inject_Z (Z.of_nat page + 1))%Q).
  { change 0%Q with (inject_Z 0). rewrite <- Zle_Qle. lia. }
  assert (Hup : (inject_Z (Z.of_nat page + 1) <= 2 * limit)%Q).
  { assert (H1 : (inject_Z (Z.of_nat page) <= inject_Z (Qceiling limit - 1))%Q)
      by (rewrite <- Zle_Qle; lia).
    pose proof (Qceiling_lt limit) as H2.
    rewrite inject_Z_plus. change (inject_Z 1) with 1%Q.
    revert H1 H2. generalize (inject_Z (Z.of_nat page)), (inject_Z (Qceiling limit - 1)).
    intros a c H1 H2. lra. }
  assert (Hq0 : (0 <= inject_Z (Z.of_nat page + 1) / limit)%Q).
  { apply Qle_shift_div_l; [exact Hpos|]. lra. }
  assert (Hq2 : (inject_Z (Z.of_nat page + 1) / limit <= 2)%Q).
  { apply Qle_shift_div_r; [exact Hpos | exact Hup]. }
  assert (Hx : 0 <= Math_round x <= 200).
  { subst x. revert Hq0 Hq2. generalize (inject_Z (Z.of_nat page + 1) / limit)%Q.
    intros q Hq0 Hq2. split.
    - apply Z.le_trans with (Math_round 0%Q); [discriminate|].
      apply Math_round_mono. lra.
    - apply Z.le_trans with (Math_round 200%Q); [|discriminate].
      apply Math_round_mono. lra. }
  assert (Hv : 10 <= Math_round (discoveryValue (Math_round x)) <= 130).
  { destruct Hx as [H0 H200]. rewrite Zle_Qle in H0, H200.
    change (inject_Z 0) with 0%Q in H0. change (inject_Z 200) with 200%Q in H200.
    unfold discoveryValue.
    revert H0 H200. generalize (inject_Z (Math_round x)). intros p H0 H200. split.
    - apply Z.le_trans with (Math_round 10%Q); [discriminate|].
      apply Math_round_mono. lra.
    - apply Z.le_trans with (Math_round 130%Q); [|discriminate].
      apply Math_round_mono. lra. }
  unfold integer. apply andb_true_iff. split; apply Z.leb_le; lia.
Qed.

Lemma searchLoop_reports_stored (pages : list nat) (r : SearchRun) :
  Forall (fun page => Z.of_nat page < Qceiling limit) pages ->
  Forall (fun p => integer (Math_round (discoveryValue (progress p))) = true) (reports r) ->
  Forall (fun p => integer (Math_round (discoveryValue (progress p))) = true)
         (reports (searchLoop fetch limit pages r)).
Proof.
  intros Hpages. revert r. induction Hpages as [|page rest Hpage _ IH]; intros r Hr;
    cbn [searchLoop]; [exact Hr|].
  assert (Hpush : forall pageJobs,
             Forall (fun p => integer (Math_round (discoveryValue (progress p))) = true)
                    (reports (pushAndReport limit page pageJobs (visit page r)))).
  { intros pageJobs. cbn [pushAndReport visit reports]. apply Forall_app.
    split; [exact Hr|]. constructor; [|constructor]. cbn [progress].
    now apply pageProgress_stored. }
  destruct (fetch page) as [| |pageJobs|pageJobs [|]]; try apply IH;
    first [exact Hr | apply Hpush].
Qed.

Lemma searchRun_reports_stored :
  Forall (fun p => integer (Math_round (discoveryValue (progress p))) = true)
         (reports (searchLoop fetch limit (pageIndices limit) emptyRun)).
Proof.
  apply searchLoop_reports_stored; [|constructor].
  unfold pageIndices. apply List.Forall_forall. intros page Hin.
  apply in_seq in Hin. lia.
Qed.

End DiscoveryRange.

(** X10. After a run that gets past launch and login with a page limit of
    at least 1, the row of the job holds in [totalJobsFound] the number of
    listings the search returned, whether the run ends completed or fails at
    the export; the number is also the [totalJobsFound] of the value the
    processor returns.  (The row is taken to start at 0, as the submission
    interface creates it.  Below a limit of 1 the percentage reported with
    the count can leave the range of the [integer] column [progress]; the
    store then refuses the update and the count is not stored.) *)
Theorem process_stores_totalJobsFound
    (env : Env) (data : ScrapingJobData) (w : World) (row0 : JobRow) :
  setupSucceeds env ->
  jobs (db w) !! jobId data = Some row0 ->
  job_totalJobsFound row0 = 0 ->
  (1 <= orDefault (maxPages (searchCriteria data)) 5)%Q ->
  let listings := found (searchRun env (searchCriteria data)) in
  let r := process env data w in
  (exists row,
      jobs (db (snd r)) !! jobId data = Some row /\
      job_totalJobsFound row = Z.of_nat (length listings)) /\
  (forall total generated,
      fst r = Returned total generated -> total = Z.of_nat (length listings)).
Proof.
  intros Hs Hrow0 Hzero Hlimit listings r. subst r.
  destruct (process_stages env data w Hs)
    as (st & f & _ & _ & E & _ & P & Hf & _). cbv zeta in *.
  fold listings in E, Hf. rewrite E.
  destruct (exportAndComplete_patched env (jobId data) (length listings) st)
    as (p & Pp & Hp).
  split.
  - exists (applyPatch p (f row0)). split.
    + rewrite (patched_lookup _ _ _ _ Pp), (patched_lookup _ _ _ _ P), Hrow0.
      reflexivity.
    + assert (Hkeep : job_totalJobsFound (applyPatch p (f row0)) =
                      job_totalJobsFound (f row0)).
      { destruct (fst (exportAndComplete env (jobId data) (length listings) st));
          subst p; reflexivity. }
      rewrite Hkeep. destruct (Hf row0) as (_ & _ & _ & Hcount).
      destruct Hcount as [Ht|[Hnil Ht]];
        [now apply searchRun_reports_stored | exact Ht|].
      rewrite Ht, Hzero, Hnil. reflexivity.
  - intros total generated Ho.
    destruct (exportAndComplete_row env (jobId data) (length listings) st) as [Hr _].
    rewrite Ho in Hr. tauto.
Qed.

Lemma process_stores_totalJobsFound_witness :
  let env := Sample.failingExport [Sample.agencyListing; Sample.directListing] in
  let data := Sample.jobData "job-1" (Sample.criteria false 3) in
  let w := Sample.worldHolding "job-1" (Sample.criteria false 3) [] in
  exists row,
    jobs (db (snd (process env data w))) !! "job-1" = Some row /\
    job_totalJobsFound row =
      Z.of_nat (length (found (searchRun env (searchCriteria data)))).
Proof.
  intros env data w.
  assert (Hs : setupSucceeds env) by (split; reflexivity).
  assert (Hrow : jobs (db w) !! jobId data =
                 Some (Sample.createdRow (Sample.criteria false 3)))
    by (vm_compute; reflexivity).
  exact (proj1 (process_stores_totalJobsFound env data w _ Hs Hrow eq_refl
                  ltac:(vm_compute; discriminate))).
Defined.

(** ** Two runs of the processor, replayed *)

Lemma progress_rises_for_whole_pages_witness :
  let env := Sample.pagedBrowser (Sample.twoPages Sample.directListing Sample.otherListing) in
  let data := Sample.jobData "job-1" (Sample.criteria true 3) in
  let w := Sample.worldWith "job-1" (Sample.criteria true 3) [] in
  exists row new,
    jobs (db (snd (process env data w))) !! "job-1" = Some row /\
    events (snd (process env data w)) = events w ++ new /\
    nondecreasing Qle (queueProgress new).
Proof.
  intros env data w.
  assert (Hrow : jobs (db w) !! jobId data =
                 Some (Sample.createdRow (Sample.criteria true 3)))
    by (vm_compute; reflexivity).
  destruct (progress_rises_for_whole_pages env data w _ 3 Hrow eq_refl
              ltac:(lia) ltac:(reflexivity))
    as (row & new & Hr & He & Hq & _).
  exists row, new. split; [exact Hr|]. split; [exact He | exact Hq].
Defined.

Lemma export_marks_every_lead_of_job_witness :
  let env := Sample.browser [Sample.directListing; Sample.otherListing] in
  let data := Sample.jobData "job-1" (Sample.criteria true 3) in
  let w := Sample.worldWith "job-1" (Sample.criteria true 3) [] in
  Forall (fun row => lead_exportedToSheets row = true /\
                     lead_exportedAt row = Some 1000)
         (leadsOf "job-1" (db (snd (process env data w)))).
Proof.
  intros env data w.
  assert (Hret : fst (process env data w) = Returned 2 2) by (vm_compute; reflexivity).
  apply List.Forall_forall.
  exact (proj1 (export_marks_every_lead_of_job env data w 2 2 eq_refl Hret
                  ltac:(lia))).
Defined.

(** ** The pages and the reports of a search *)

Section SearchPages.

Variables (fetch : nat -> PageOutcome) (limit : Q).

Lemma pagesVisited_prefix (start count : nat) :
  exists k,
    pagesVisited fetch (seq start count) = seq start k /\
    (k <= count)%nat /\
    (forall p, (start <= p < start + k - 1)%nat -> endsSearch (fetch p) = false) /\
    ((k < count)%nat ->
     (0 < k)%nat /\ endsSearch (fetch (start + k - 1)) = true).
Proof.
  revert start. induction count as [|count IH]; intros start; cbn [seq pagesVisited].
  - exists 0%nat. split; [reflexivity|]. split; [lia|]. split; intros; lia.
  - destruct (endsSearch (fetch start)) eqn:E.
    + exists 1%nat. split; [reflexivity|]. split; [lia|]. split; [intros; lia|].
      intros _. split; [lia|]. now replace (start + 1 - 1)%nat with start by lia.
    + destruct (IH (S start)) as (k & Ek & Hk & Hbefore & Hstop).
      exists (S k). cbn [seq]. rewrite Ek. split; [reflexivity|]. split; [lia|]. split.
      * intros p Hp. destruct (Nat.eq_dec p start) as [->|Hne]; [exact E|].
        apply Hbefore. lia.
      * intros Hlt. destruct Hstop as [Hpos Hend]; [lia|]. split; [lia|].
        now replace (start + S k - 1)%nat with (S start + k - 1)%nat by lia.
Qed.

Lemma searchLoop_invariant (P : SearchRun -> Prop) :
  (forall page r, P r -> P (visit page r)) ->
  (forall page r, P r -> P (logPageError page r)) ->
  (forall page pageJobs r, P r -> P (pushAndReport limit page pageJobs r)) ->
  forall pages r, P r -> P (searchLoop fetch limit pages r).
Proof.
  intros Hv He Hp pages. induction pages as [|page rest IH]; intros r Hr;
    cbn [searchLoop]; [exact Hr|].
  destruct (fetch page) as [| |pageJobs|pageJobs [|]]; auto.
Qed.

(** Every report names the page limit as [totalPages], and the numbers of
    listings reported only rise, up to the number collected so far. *)
Lemma searchLoop_reports_rise (pages : list nat) :
  let r := searchLoop fetch limit pages emptyRun in
  Forall (fun p => totalPages p = limit) (reports r) /\
  rising Z.le (Z.of_nat (length (found r))) (map jobsFound (reports r)).
Proof.
  apply (searchLoop_invariant
           (fun r => Forall (fun p => totalPages p = limit) (reports r) /\
                     rising Z.le (Z.of_nat (length (found r)))
                                 (map jobsFound (reports r)))); auto.
  - intros page pageJobs r [Ht Hr]. unfold pushAndReport. cbn [reports found]. split.
    + apply Forall_app. split; [exact Ht|]. repeat constructor.
    + rewrite map_app. cbn [map jobsFound].
      apply (rising_snoc Z.le Z.le_refl Z.le_trans (Z.of_nat (length (found r))));
        [exact Hr|]. rewrite length_app. lia.
  - split; [constructor|]. apply (rising_nil Z.le).
Qed.

Lemma searchLoop_currentPages (pages : list nat) (r : SearchRun) :
  map currentPage (reports (searchLoop fetch limit pages r)) =
  map currentPage (reports r) ++
  map (fun page => Z.of_nat page + 1)
      (List.filter (fun page => pageReports (fetch page)) (pagesVisited fetch pages)).
Proof.
  revert r. induction pages as [|page rest IH]; intros r; cbn [searchLoop pagesVisited].
  - cbn. now rewrite app_nil_r.
  - destruct (fetch page) as [| |pageJobs|pageJobs [|]] eqn:E;
      cbn [endsSearch List.filter]; rewrite ?E; cbn [pageReports map];
      rewrite ?IH; cbn [logPageError pushAndReport visit reports found fetched pageErrors];
      rewrite ?map_app; cbn [map currentPage]; rewrite <- ?app_assoc; try reflexivity.
Qed.

End SearchPages.

(** X13. A search by a logged-in scraper fetches the result pages
    0, 1, 2, ... in order, each once, and never more than the page limit
    rounded up (the limit is [maxPages], or 5 when [maxPages] is absent or
    0).  It stops before the limit only right after a page that loaded and
    showed no Next button. *)
Theorem searchJobs_fetches_consecutive_pages
    (fetch : nat -> PageOutcome) (criteria : SearchCriteria) :
  let limit := orDefault (maxPages criteria) 5 in
  exists run k,
    searchJobs loggedIn fetch criteria = inr run /\
    fetched run = seq 0 k /\
    (k <= Z.to_nat (Qceiling limit))%nat /\
    (forall page, (page < k - 1)%nat -> endsSearch (fetch page) = false) /\
    ((k < Z.to_nat (Qceiling limit))%nat ->
     (0 < k)%nat /\ endsSearch (fetch (k - 1)%nat) = true).
Proof.
  intros limit.
  destruct (pagesVisited_prefix fetch 0 (Z.to_nat (Qceiling limit)))
    as (k & Ek & Hk & Hbefore & Hstop).
  exists (searchLoop fetch limit (pageIndices limit) emptyRun), k.
  split; [reflexivity|].
  destruct (searchLoop_run fetch limit (pageIndices limit) emptyRun) as (Hf & _).
  cbn [emptyRun fetched app] in Hf. unfold pageIndices in Hf at 2.
  rewrite Hf, Ek. repeat split; try assumption.
  - intros page Hp. apply Hbefore. lia.
  - apply Hstop. assumption.
  - apply Hstop. assumption.
Qed.

(** X14. A search by a logged-in scraper reports progress once for each
    fetched page that got as far as extracting its listings, under the page
    number (index plus one), always with the page limit as [totalPages].  The
    reported numbers of listings never go down, and the last report gives the
    number of listings the search returns; a search that reports nothing
    returns no listing. *)
Theorem searchJobs_reports_running_total
    (fetch : nat -> PageOutcome) (criteria : SearchCriteria) :
  let limit := orDefault (maxPages criteria) 5 in
  exists run,
    searchJobs loggedIn fetch criteria = inr run /\
    map currentPage (reports run) =
      map (fun page => Z.of_nat page + 1)
          (List.filter (fun page => pageReports (fetch page)) (fetched run)) /\
    Forall (fun p => totalPages p = limit) (reports run) /\
    nondecreasing Z.le (map jobsFound (reports run)) /\
    match last (reports run) with
    | Some p => jobsFound p = Z.of_nat (length (found run))
    | None => found run = []
    end.
Proof.
  intros limit.
  exists (searchLoop fetch limit (pageIndices limit) emptyRun).
  split; [reflexivity|].
  destruct (searchLoop_reports_rise fetch limit (pageIndices limit)) as [Ht Hr].
  cbv zeta in *. split; [|split; [exact Ht|split]].
  - destruct (searchLoop_run fetch limit (pageIndices limit) emptyRun) as (Hf & _).
    cbn [emptyRun fetched app] in Hf. rewrite Hf.
    apply (searchLoop_currentPages fetch limit (pageIndices limit) emptyRun).
  - exact (proj1 Hr).
  - apply (searchLoop_reportsCount fetch limit). reflexivity.
Qed.

(** ** From the form to the queue *)

Section Submission.



End Submission.

Section Creation.

Variables (env : ApiEnv) (s : Server).


End Creation.

Section Form.

Import SearchForm.


End Form.



Section Queueing.

Variables (env : ApiEnv) (s : Server).

Lemma truthy_default (o : option string) :
  truthy o = true -> Some (default "" o) = o.
Proof. destruct o; [reflexivity | discriminate]. Qed.

(** A created job, in the store and in the queue. *)
Lemma POST_created (body : option json) (id : string) (status : JobStatus) :
  fst (POST env body s) = JobCreated id status ->
  exists criteria row,
    id = uuid env /\ job_searchCriteria row = criteria /\ job_status row = pending /\
    truthy (LINKEDIN_EMAIL env) = true /\ truthy (LINKEDIN_PASSWORD env) = true /\
    jobs (store s) !! id = None /\
    snd (POST env body s) =
      {| store := {| jobs := <[id := row]> (jobs (store s));
                     companies := companies (store s);
                     leads := leads (store s) |};
         queue := addScrapingJob id criteria
                    (default "" (LINKEDIN_EMAIL env))
                    (default "" (LINKEDIN_PASSWORD env)) (queue s) |}.
Proof.
  unfold POST. destruct body as [b|]; [|discriminate].
  assert (Hmain : forall r : PostResponse * Server,
    r = match searchCriteriaSchema (member "searchCriteria" b) with
        | None => (PostError 400 "Invalid search criteria", s)
        | Some criteria =>
            if truthy (LINKEDIN_EMAIL env) && truthy (LINKEDIN_PASSWORD env) then
              match insertJob (uuid env)
                      {| job_status := pending; job_searchCriteria := criteria;
                         job_totalJobsFound := 0; job_leadsGenerated := 0;
                         job_progress := 0; job_errorMessage := None;
                         job_createdAt := requestTime env;
                         job_updatedAt := requestTime env;
                         job_completedAt := None |} (store s) with
              | None => (PostError 500 "Failed to create job", s)
              | Some d =>
                  (JobCreated (uuid env) pending,
                   {| store := d;
                      queue := addScrapingJob (uuid env) criteria
                                 (default "" (LINKEDIN_EMAIL env))
                                 (default "" (LINKEDIN_PASSWORD env)) (queue s) |})
              end
            else (PostError 500 "LinkedIn credentials not configured", s)
        end ->
    fst r = JobCreated id status ->
    exists criteria row,
      id = uuid env /\ job_searchCriteria row = criteria /\ job_status row = pending /\
      truthy (LINKEDIN_EMAIL env) = true /\ truthy (LINKEDIN_PASSWORD env) = true /\
      jobs (store s) !! id = None /\
      snd r =
        {| store := {| jobs := <[id := row]> (jobs (store s));
                       companies := companies (store s);
                       leads := leads (store s) |};
           queue := addScrapingJob id criteria
                      (default "" (LINKEDIN_EMAIL env))
                      (default "" (LINKEDIN_PASSWORD env)) (queue s) |}).
  { intros r ->. destruct (searchCriteriaSchema _) as [criteria|]; [|discriminate].
    destruct (truthy (LINKEDIN_EMAIL env)) eqn:He; [|discriminate].
    destruct (truthy (LINKEDIN_PASSWORD env)) eqn:Hp; [|discriminate].
    cbn [andb]. unfold insertJob.
    destruct (jobs (store s) !! uuid env) eqn:Hnew; [discriminate|].
    cbn [fst snd]. intros [= <- <-]. eexists criteria, _.
    repeat split; try reflexivity; assumption. }
  destruct b; try (apply Hmain; reflexivity). discriminate.
Qed.

End Queueing.

(** X16. A job that [POST] creates is stored and queued consistently:
    unless the queue already held an entry under the new id, it now holds
    one, not taken by a worker, that carries the id, the same criteria as the
    stored row and the two configured credentials.  No other job row and no
    other queue entry is touched, nor are the leads and the companies. *)
Theorem POST_queues_the_job_it_stores
    (env : ApiEnv) (body : option json) (s : Server) (id : string) (status : JobStatus) :
  fst (POST env body s) = JobCreated id status ->
  queue s !! id = None ->
  let s' := snd (POST env body s) in
  (exists row entry,
      jobs (store s') !! id = Some row /\
      queue s' !! id = Some entry /\
      entry_locked entry = false /\
      jobId (entry_data entry) = id /\
      searchCriteria (entry_data entry) = job_searchCriteria row /\
      Some (linkedinEmail (entry_data entry)) = LINKEDIN_EMAIL env /\
      Some (linkedinPassword (entry_data entry)) = LINKEDIN_PASSWORD env) /\
  (forall other, other <> id ->
     jobs (store s') !! other = jobs (store s) !! other /\
     queue s' !! other = queue s !! other) /\
  companies (store s') = companies (store s) /\
  leads (store s') = leads (store s).
Proof.
  intros Ho Hq s'. subst s'.
  destruct (POST_created env s body id status Ho)
    as (criteria & row & _ & Hrc & _ & He & Hp & _ & E).
  rewrite E. cbn [store queue jobs companies leads].
  unfold addScrapingJob. rewrite Hq. split; [|split; [|split; reflexivity]].
  - eexists row, _. rewrite !lookup_insert_eq. split; [reflexivity|].
    split; [reflexivity|]. cbn [entry_locked entry_data jobId searchCriteria
                                linkedinEmail linkedinPassword].
    repeat split; auto using truthy_default.
  - intros other Hne. rewrite !lookup_insert_ne by congruence. auto.
Qed.

Lemma POST_queues_the_job_it_stores_witness :
  exists row entry,
    jobs (store (snd (POST Sample.apiEnv (Some (Sample.request 3)) Sample.emptyServer)))
      !! "job-7" = Some row /\
    queue (snd (POST Sample.apiEnv (Some (Sample.request 3)) Sample.emptyServer))
      !! "job-7" = Some entry /\
    searchCriteria (entry_data entry) = job_searchCriteria row.
Proof.
  destruct (POST_queues_the_job_it_stores Sample.apiEnv (Some (Sample.request 3))
              Sample.emptyServer "job-7" pending)
    as ((row & entry & Hr & Hq & _ & _ & Hc & _) & _).
  - vm_compute. reflexivity.
  - reflexivity.
  - exists row, entry. split; [exact Hr|]. split; [exact Hq | exact Hc].
Defined.

(** X17. A cancel request either succeeds or changes nothing.  It
    succeeds only for a stored job that is not [completed] and whose queue
    entry exists and is not held by a worker; it then removes that entry and
    rewrites the row with status [cancelled], keeping its criteria, its
    progress, its two counters, its error message and its times of creation
    and completion.  It answers 404 exactly when the id reads as a uuid and
    no row has it; for an id that no row has and that does not read as a
    uuid the lookup throws and the answer is 500.  It never touches the
    leads or the companies. *)
Theorem DELETE_changes_only_the_status (now : Z) (id : string) (s : Server) :
  let r := DELETE now id s in
  (fst r <> JobCancelled -> snd r = s) /\
  (fst r = JobCancelled ->
   exists key row entry row',
     (key = id \/ parseUuid id = Some key) /\
     jobs (store s) !! key = Some row /\ job_status row <> completed /\
     queue s !! id = Some entry /\ entry_locked entry = false /\
     queue (snd r) = delete id (queue s) /\
     jobs (store (snd r)) = <[key := row']> (jobs (store s)) /\
     job_status row' = cancelled /\
     job_searchCriteria row' = job_searchCriteria row /\
     job_progress row' = job_progress row /\
     job_totalJobsFound row' = job_totalJobsFound row /\
     job_leadsGenerated row' = job_leadsGenerated row /\
     job_errorMessage row' = job_errorMessage row /\
     job_createdAt row' = job_createdAt row /\
     job_completedAt row' = job_completedAt row) /\
  (fst r = DeleteError 404 "Job not found" <->
   jobs (store s) !! id = None /\
   exists key, parseUuid id = Some key /\ jobs (store s) !! key = None) /\
  (jobs (store s) !! id = None -> parseUuid id = None ->
   fst r = DeleteError 500 "Failed to cancel job") /\
  companies (store (snd r)) = companies (store s) /\
  leads (store (snd r)) = leads (store s).
Proof.
  intros r. subst r. unfold DELETE.
  assert (Hfound : forall key row,
             (key = id \/ parseUuid id = Some key) ->
             jobs (store s) !! key = Some row ->
             (jobs (store s) !! id = None ->
              exists key', parseUuid id = Some key' /\ jobs (store s) !! key' = Some row) ->
             let r := if JobStatus_eqb (job_status row) completed
                      then (DeleteError 400 "Cannot cancel completed job", s)
                      else let (cancelled, q) := cancelJob id (queue s) in
                           if cancelled
                           then (JobCancelled,
                                 {| store := updateJobRow key (patchCancelled now) (store s);
                                    queue := q |})
                           else (DeleteError 500 "Failed to cancel job",
                                 {| store := store s; queue := q |}) in
             (fst r <> JobCancelled -> snd r = s) /\
             (fst r = JobCancelled ->
              exists key row entry row',
                (key = id \/ parseUuid id = Some key) /\
                jobs (store s) !! key = Some row /\ job_status row <> completed /\
                queue s !! id = Some entry /\ entry_locked entry = false /\
                queue (snd r) = delete id (queue s) /\
                jobs (store (snd r)) = <[key := row']> (jobs (store s)) /\
                job_status row' = cancelled /\
                job_searchCriteria row' = job_searchCriteria row /\
                job_progress row' = job_progress row /\
                job_totalJobsFound row' = job_totalJobsFound row /\
                job_leadsGenerated row' = job_leadsGenerated row /\
                job_errorMessage row' = job_errorMessage row /\
                job_createdAt row' = job_createdAt row /\
                job_completedAt row' = job_completedAt row) /\
             (fst r = DeleteError 404 "Job not found" <->
              jobs (store s) !! id = None /\
              exists key, parseUuid id = Some key /\ jobs (store s) !! key = None) /\
             (jobs (store s) !! id = None -> parseUuid id = None ->
              fst r = DeleteError 500 "Failed to cancel job") /\
             companies (store (snd r)) = companies (store s) /\
             leads (store (snd r)) = leads (store s)).
  { intros key row Hkey Hrow Hother. cbv zeta.
    assert (H404 : ~ (jobs (store s) !! id = None /\
                      exists key', parseUuid id = Some key' /\
                                   jobs (store s) !! key' = None)).
    { intros (Hnone & key' & Hp & Hn).
      destruct (Hother Hnone) as (key'' & Hp' & Hr). congruence. }
    assert (H500 : jobs (store s) !! id = None -> parseUuid id = None -> False).
    { intros Hnone Hp. destruct (Hother Hnone) as (key' & Hp' & _). congruence. }
    destruct (JobStatus_eqb (job_status row) completed) eqn:Ec.
    { cbn [fst snd]. repeat split; try discriminate; auto; try tauto. }
    assert (Hnc : job_status row <> completed).
    { intros H. apply JobStatus_eqb_spec in H. congruence. }
    unfold cancelJob.
    destruct (queue s !! id) as [entry|] eqn:Hq; [destruct (entry_locked entry) eqn:Hl|];
      cbn [fst snd store queue].
    - destruct s. repeat split; try discriminate; auto; try tauto.
    - split; [congruence|]. split; [|repeat split; try discriminate; try tauto].
      intros _. exists key, row, entry, (applyPatch (patchCancelled now) row).
      repeat split; auto. unfold updateJobRow. cbn [jobs].
      apply map_eq. intros k. destruct (decide (k = key)) as [->|Hne].
      + now rewrite lookup_alter_eq, lookup_insert_eq, Hrow.
      + now rewrite lookup_alter_ne, lookup_insert_ne by congruence.
    - destruct s. repeat split; try discriminate; auto; try tauto. }
  unfold findJob.
  destruct (jobs (store s) !! id) as [row|] eqn:Hrow.
  { apply (Hfound id row); [now left | exact Hrow | discriminate]. }
  destruct (parseUuid id) as [key|] eqn:Hp.
  2: { cbn [fst snd]. repeat split; try discriminate; auto.
       intros (_ & key & [=] & _). }
  destruct (jobs (store s) !! key) as [row|] eqn:Hkey; cbn [fmap option_fmap option_map].
  - apply (Hfound key row); [now right | exact Hkey|]. intros _. eauto.
  - cbn [fst snd]. repeat split; try discriminate; eauto.
Qed.

Section Cancelling.

Variables (now : Z) (id : string) (s : Server) (row : JobRow).

Lemma DELETE_success (entry : QueueEntry) :
  jobs (store s) !! id = Some row ->
  job_status row <> completed ->
  queue s !! id = Some entry ->
  entry_locked entry = false ->
  DELETE now id s =
    (JobCancelled,
     {| store := updateJobRow id (patchCancelled now) (store s);
        queue := delete id (queue s) |}).
Proof.
  intros Hrow Hnc Hq Hl. unfold DELETE, cancelJob.
  rewrite (findJob_found _ _ _ Hrow), Hq, Hl.
  destruct (JobStatus_eqb (job_status row) completed) eqn:E; [|reflexivity].
  apply JobStatus_eqb_spec in E. contradiction.
Qed.

Lemma DELETE_gone :
  jobs (store s) !! id = Some row ->
  job_status row <> completed ->
  queue s !! id = None ->
  DELETE now id s = (DeleteError 500 "Failed to cancel job", s).
Proof.
  intros Hrow Hnc Hq. unfold DELETE, cancelJob.
  rewrite (findJob_found _ _ _ Hrow), Hq.
  destruct (JobStatus_eqb (job_status row) completed) eqn:E.
  - apply JobStatus_eqb_spec in E. contradiction.
  - now destruct s.
Qed.

End Cancelling.

(** X18. Submission followed by cancellation: a job that [POST] has just
    created (under an id the queue did not hold) is cancelled by the first
    cancel request, which leaves its row in status [cancelled] and the
    queue without the entry; a second cancel request for the same job is
    refused with status 500 and changes nothing. *)
Theorem POST_then_DELETE_twice
    (env : ApiEnv) (body : option json) (s : Server) (id : string)
    (status : JobStatus) (t1 t2 : Z) :
  fst (POST env body s) = JobCreated id status ->
  queue s !! id = None ->
  let first := DELETE t1 id (snd (POST env body s)) in
  let second := DELETE t2 id (snd first) in
  fst first = JobCancelled /\
  job_status <$> jobs (store (snd first)) !! id = Some cancelled /\
  queue (snd first) !! id = None /\
  second = (DeleteError 500 "Failed to cancel job", snd first).
Proof.
  intros Ho Hq first second. subst second first.
  destruct (POST_created env s body id status Ho)
    as (criteria & row & _ & _ & Hst & _ & _ & _ & E).
  rewrite E. clear E.
  set (s1 := {| store := _; queue := _ |}).
  assert (Hrow1 : jobs (store s1) !! id = Some row) by apply lookup_insert_eq.
  assert (Hq1 : exists entry, queue s1 !! id = Some entry /\ entry_locked entry = false).
  { unfold s1, addScrapingJob. cbn [queue]. rewrite Hq. eexists.
    split; [apply lookup_insert_eq | reflexivity]. }
  destruct Hq1 as (entry & Hq1 & Hl).
  assert (Hnc : job_status row <> completed) by (rewrite Hst; discriminate).
  rewrite (DELETE_success t1 id s1 row entry Hrow1 Hnc Hq1 Hl). cbn [fst snd].
  set (s2 := {| store := _; queue := _ |}).
  assert (Hrow2 : jobs (store s2) !! id = Some (applyPatch (patchCancelled t1) row)).
  { unfold s2. cbn [store]. now rewrite updateJobRow_lookup, Hrow1. }
  assert (Hq2 : queue s2 !! id = None) by apply lookup_delete_eq.
  split; [reflexivity|]. split; [now rewrite Hrow2|]. split; [exact Hq2|].
  apply (DELETE_gone t2 id s2 _ Hrow2); [discriminate | exact Hq2].
Qed.

Lemma POST_then_DELETE_twice_witness :
  fst (DELETE 2000 "job-7"
         (snd (POST Sample.apiEnv (Some (Sample.request 3)) Sample.emptyServer))) =
  JobCancelled /\
  fst (DELETE 3000 "job-7"
         (snd (DELETE 2000 "job-7"
                 (snd (POST Sample.apiEnv (Some (Sample.request 3))
                            Sample.emptyServer))))) =
  DeleteError 500 "Failed to cancel job".
Proof.
  destruct (POST_then_DELETE_twice Sample.apiEnv (Some (Sample.request 3))
              Sample.emptyServer "job-7" pending 2000 3000)
    as (H1 & _ & _ & H2).
  - vm_compute. reflexivity.
  - reflexivity.
  - split; [exact H1|]. now rewrite H2.
Defined.

(** ** The exported sheet *)

Section Sheets.

Import GoogleSheetsService.

Variables (today : string) (leads : list LeadData).

Lemma row_length (lead : LeadData) : length (row today lead) = length headers.
Proof. reflexivity. Qed.

(** Clearing the columns A to Z empties a sheet whose rows end within
    them. *)
Lemma clear_narrow (held : list (list string)) :
  Forall (fun cells => (length cells <= 26)%nat) held ->
  usedRows (map clearColumns held) = [].
Proof.
  intros H. induction H as [|cells below Hc _ IH]; cbn [map usedRows]; [reflexivity|].
  rewrite IH. unfold clearColumns.
  apply Nat.leb_le in Hc. rewrite Hc. reflexivity.
Qed.

(** The sheet that [exportLeads] writes, and the sheets it leaves alone. *)
Lemma exportLeads_sheet (options : ExportOptions) (doc : Spreadsheet) :
  let name := default "Leads" (sheetName options) in
  let held := if default false (clearExisting options)
              then usedRows (map clearColumns (default [] (doc !! name)))
              else default [] (doc !! name) in
  let values := if default true (includeHeaders options)
                then headers :: map (row today) leads
                else map (row today) leads in
  exportLeads today leads options doc !! name = Some (held ++ values) /\
  forall other, other <> name ->
    exportLeads today leads options doc !! other = doc !! other.
Proof.
  intros name held values. subst held values.
  unfold exportLeads, append, clearSheet, ensureSheetExists. cbv zeta. fold name.
  generalize (if default true (includeHeaders options)
              then headers :: map (row today) leads
              else map (row today) leads) as values.
  intros values. split.
  - rewrite lookup_alter_eq.
    destruct (default false (clearExisting options)), (doc !! name) eqn:E;
      rewrite ?lookup_alter_eq, ?lookup_insert_eq, ?E; reflexivity.
  - intros other Hne. rewrite lookup_alter_ne by congruence.
    destruct (default false (clearExisting options)), (doc !! name) eqn:E;
      rewrite ?lookup_alter_ne, ?lookup_insert_ne by congruence; reflexivity.
Qed.

(** With [clearExisting] set, on a sheet whose rows end within the columns
    A to Z. *)
Lemma exportLeads_cleared (options : ExportOptions) (doc : Spreadsheet) :
  default false (clearExisting options) = true ->
  let name := default "Leads" (sheetName options) in
  Forall (fun cells => (length cells <= 26)%nat) (default [] (doc !! name)) ->
  exportLeads today leads options doc !! name =
    Some (if default true (includeHeaders options)
          then headers :: map (row today) leads
          else map (row today) leads).
Proof.
  intros Hclear name Hnarrow.
  destruct (exportLeads_sheet options doc) as [Hs _]. cbv zeta in Hs. fold name in Hs.
  rewrite Hclear, (clear_narrow _ Hnarrow) in Hs. exact Hs.
Qed.

End Sheets.





(** X21. The sheet a run produces.  When launch, login and the export
    work, the row of the job is in the store, the listings of the search all
    fit the columns of the leads and companies tables and at least one of
    them qualifies, the batch the run hands to [exportLeads] with the
    processor's options fills the sheet [Leads] with the header row followed
    by one row per qualifying listing, in the order of discovery, whatever
    the sheet held in the columns A to Z.  Each row has a cell under every
    header, and the cells under Company, Job Title, Job URL and Job Location
    are those of the listing. *)
Theorem process_fills_the_sheet
    (env : Env) (data : ScrapingJobData) (w : World) (sheet : string) (row0 : JobRow) :
  setupSucceeds env ->
  spreadsheet env = Some sheet ->
  exportSucceeds env = true ->
  jobs (db w) !! jobId data = Some row0 ->
  Forall (fun l => fitsColumns env l = true)
         (found (searchRun env (searchCriteria data))) ->
  let kept := List.filter (qualifies env (searchCriteria data))
                          (found (searchRun env (searchCriteria data))) in
  kept <> [] ->
  exists batch,
    exportsSince w (snd (process env data w)) [(sheet, batch)] /\
    forall today (doc : GoogleSheetsService.Spreadsheet),
    Forall (fun cells => (length cells <= 26)%nat) (default [] (doc !! "Leads")) ->
    exists rows,
      GoogleSheetsService.exportLeads today batch
        GoogleSheetsService.processorOptions doc !! "Leads" =
        Some (GoogleSheetsService.headers :: rows) /\
      Forall2 (fun cells l =>
                 length cells = length GoogleSheetsService.headers /\
                 GoogleSheetsService.cellUnder "Company" cells = Some (company l) /\
                 GoogleSheetsService.cellUnder "Job Title" cells = Some (title l) /\
                 GoogleSheetsService.cellUnder "Job URL" cells = Some (url l) /\
                 GoogleSheetsService.cellUnder "Job Location" cells = Some (location l))
              rows kept.
Proof.
  intros Hs Hsheet Hx Hrow Hfit kept Hkept.
  destruct (process_ends env data w Hs) as (fresh & Hrows & Hcases). cbv zeta in *.
  rewrite (persists_qualifies env w _ _ row0 _ Hrow Hfit) in Hrows, Hcases.
  fold kept in Hcases, Hrows.
  destruct Hcases as [(Hn & _)|[(_ & sheet' & Hsheet' & _ & _ & _ & Ex)
                              |(_ & m & _ & Hm & _)]].
  - contradiction.
  - assert (sheet' = sheet) as -> by congruence.
    exists (zip_with (fun row l => leadData row (company l)) fresh kept).
    split; [exact Ex|]. intros today doc Hnarrow.
    exists (map (GoogleSheetsService.row today)
                (zip_with (fun row l => leadData row (company l)) fresh kept)).
    split; [exact (exportLeads_cleared today _ GoogleSheetsService.processorOptions doc
                     eq_refl Hnarrow)|].
    clear - Hrows.
    induction Hrows as [|row l fresh' kept' (rowId & c & ->) _ IH];
      cbn [zip_with map]; constructor; [|exact IH].
    repeat split.
  - exfalso. destruct Hm as [[Hm _]|(_ & Hm & _)]; congruence.
Qed.

Lemma process_fills_the_sheet_witness :
  let env := Sample.browser [Sample.agencyListing; Sample.directListing] in
  let data := Sample.jobData "job-1" (Sample.criteria false 3) in
  let w := Sample.worldHolding "job-1" (Sample.criteria false 3) [] in
  let doc : GoogleSheetsService.Spreadsheet := <["Leads" := [["stale"; "row"]]]> ∅ in
  exists batch,
    exportsSince w (snd (process env data w)) [("sheet-1", batch)] /\
    exists rows,
      GoogleSheetsService.exportLeads "2024-05-01" batch
        GoogleSheetsService.processorOptions doc !! "Leads" =
      Some (GoogleSheetsService.headers :: rows).
Proof.
  intros env data w doc.
  assert (Hs : setupSucceeds env) by (split; reflexivity).
  destruct (process_fills_the_sheet env data w "sheet-1" _ Hs eq_refl eq_refl eq_refl
              ltac:(repeat constructor))
    as (batch & Hb & Hrows).
  - vm_compute. discriminate.
  - exists batch. split; [exact Hb|].
    destruct (Hrows "2024-05-01" doc ltac:(repeat constructor)) as (rows & Hr & _).
    exists rows. exact Hr.
Defined.

(** ** What the threshold filters *)

Lemma rawLeadScore_direct (job : JobListing) :
  isRecruitmentAgency (company job) = false -> 80 <= rawLeadScore job.
Proof.
  intros H. unfold rawLeadScore. rewrite H. cbn [negb].
  repeat match goal with |- context [if ?b then _ else _] => destruct b end; lia.
Qed.

Lemma rawLeadScore_agency (job : JobListing) :
  isRecruitmentAgency (company job) = true -> 30 <= rawLeadScore job <= 90.
Proof.
  intros H. unfold rawLeadScore. rewrite H. cbn [negb].
  repeat match goal with |- context [if ?b then _ else _] => destruct b end; lia.
Qed.

(** X22. The threshold of 40 only ever rejects agencies.  A listing whose
    company does not classify as a recruitment agency scores at least 80
    whatever else it shows, so a run that gets past launch and login, for a
    job whose row is in the store and a search whose listings all fit the
    columns of the leads and companies tables, makes a lead of every such
    listing the search returns; a listing of an agency scores between 30 and
    90. *)
Theorem process_keeps_every_direct_listing
    (env : Env) (data : ScrapingJobData) (w : World) (row0 : JobRow) :
  setupSucceeds env ->
  jobs (db w) !! jobId data = Some row0 ->
  Forall (fun l => fitsColumns env l = true)
         (found (searchRun env (searchCriteria data))) ->
  let listings := found (searchRun env (searchCriteria data)) in
  let rows := added (leads (db w)) (leads (db (snd (process env data w)))) in
  (forall job, if isRecruitmentAgency (company job)
               then 30 <= calculateLeadScore job <= 90
               else 80 <= calculateLeadScore job <= 100) /\
  (forall l, In l listings -> isRecruitmentAgency (company l) = false ->
             In (url l) (map lead_jobUrl rows)) /\
  (excludeAgencies (searchCriteria data) = Some true ->
   map lead_jobUrl rows =
   map url (List.filter (fun l => negb (isRecruitmentAgency (company l))) listings)).
Proof.
  intros Hs Hrow Hfit listings rows. subst rows.
  rewrite (process_added_urls env data w Hs).
  rewrite (persists_qualifies env w _ _ row0 _ Hrow Hfit). fold listings.
  assert (Hscore : forall job, if isRecruitmentAgency (company job)
               then 30 <= calculateLeadScore job <= 90
               else 80 <= calculateLeadScore job <= 100).
  { intros job. unfold calculateLeadScore.
    destruct (isRecruitmentAgency (company job)) eqn:E.
    - pose proof (rawLeadScore_agency job E). lia.
    - pose proof (rawLeadScore_direct job E). lia. }
  assert (Hdirect : forall l, isRecruitmentAgency (company l) = false ->
                              qualifies env (searchCriteria data) l = true).
  { intros l Hl. apply qualifies_computedScore. unfold computedScore, skipped.
    rewrite Hl, andb_false_r. eexists. split; [reflexivity|].
    match goal with |- 40 < calculateLeadScore ?j => pose proof (Hscore j) as Hj end.
    cbn [enhance company] in Hj. rewrite Hl in Hj. lia. }
  split; [exact Hscore|]. split.
  - intros l Hin Hl. apply in_map. apply filter_In. auto.
  - intros Hex. f_equal. apply List.filter_ext_in. intros l _.
    destruct (isRecruitmentAgency (company l)) eqn:Hl; cbn [negb].
    + unfold qualifies, computedScore, skipped. now rewrite Hex, Hl.
    + now apply Hdirect.
Qed.

Lemma process_keeps_every_direct_listing_witness :
  let env := Sample.browser [Sample.agencyListing; Sample.directListing] in
  let data := Sample.jobData "job-1" (Sample.criteria true 3) in
  let w := Sample.worldHolding "job-1" (Sample.criteria true 3) [] in
  map lead_jobUrl (added (leads (db w)) (leads (db (snd (process env data w))))) =
  map url (List.filter (fun l => negb (isRecruitmentAgency (company l)))
                       (found (searchRun env (searchCriteria data)))).
Proof.
  intros env data w.
  assert (Hs : setupSucceeds env) by (split; reflexivity).
  exact (proj2 (proj2 (process_keeps_every_direct_listing env data w _ Hs eq_refl
                         ltac:(repeat constructor))) eq_refl).
Defined.

(** ** What the scraper reads *)

Section Trim.

Import LinkedInScraper.

Lemma trimStart_startsBlack (s : string) : startsBlack (trimStart s).
Proof.
  induction s as [|c rest IH]; cbn [trimStart]; [exact I|].
  destruct (isWhiteSpace c) eqn:E; [exact IH | exact E].
Qed.

Lemma trimStart_fixed (s : string) : startsBlack s -> trimStart s = s.
Proof. destruct s as [|c rest]; cbn; [reflexivity|]. now intros ->. Qed.

Lemma trimEnd_startsBlack (s : string) : startsBlack s -> startsBlack (trimEnd s).
Proof.
  destruct s as [|c rest]; cbn [trimEnd startsBlack]; [auto|]. intros E.
  destruct (trimEnd rest); [rewrite E|]; exact E.
Qed.

Lemma trimEnd_cons (c : ascii) (rest : string) :
  trimEnd (String c rest) =
  match trimEnd rest with
  | EmptyString => if isWhiteSpace c then EmptyString else String c EmptyString
  | kept => String c kept
  end.
Proof. reflexivity. Qed.

Lemma trimEnd_idempotent (s : string) : trimEnd (trimEnd s) = trimEnd s.
Proof.
  induction s as [|c rest IH]; [reflexivity|]. rewrite trimEnd_cons.
  destruct (trimEnd rest) as [|k kept] eqn:E.
  - destruct (isWhiteSpace c) eqn:Ec; [reflexivity|].
    rewrite trimEnd_cons. cbn [trimEnd]. now rewrite Ec.
  - rewrite trimEnd_cons, IH. reflexivity.
Qed.

Lemma trim_idempotent (s : string) : trim (trim s) = trim s.
Proof.
  unfold trim.
  rewrite (trimStart_fixed (trimEnd (trimStart s)))
    by apply trimEnd_startsBlack, trimStart_startsBlack.
  apply trimEnd_idempotent.
Qed.

End Trim.

Section Cards.

Import LinkedInScraper.

Lemma extractJob_readFromCard (card : Card) (l : JobListing) :
  In l (extractJob card) -> readFromCard l.
Proof.
  unfold extractJob.
  destruct (titleElement card) as [link|], (companyElement card) as [text|];
    cbn [In]; try tauto.
  intros [<-|[]]. unfold readFromCard. cbn [title company location description
                                           salary postedDate hiringManager].
  rewrite !trim_idempotent. repeat split.
  destruct (locationElement card); [apply trim_idempotent | reflexivity].
Qed.

Lemma extractJobsFromPage_readFromCard (cards : list Card) (l : JobListing) :
  In l (extractJobsFromPage cards) -> readFromCard l.
Proof.
  unfold extractJobsFromPage. rewrite in_flat_map.
  intros (card & _ & Hl). eapply extractJob_readFromCard; eauto.
Qed.

(** Every listing a search of the site returns was read from a card. *)
Lemma searchRun_onSite (site : Site) (base : Env) (criteria : SearchCriteria)
    (l : JobListing) :
  In l (found (searchRun (onSite site base) criteria)) -> readFromCard l.
Proof.
  unfold searchRun.
  destruct (searchLoop_run (fetch (onSite site base))
              (orDefault (maxPages criteria) 5)
              (pageIndices (orDefault (maxPages criteria) 5)) emptyRun)
    as (_ & _ & Hf).
  cbv zeta in Hf. rewrite Hf. cbn [emptyRun found app]. rewrite in_flat_map.
  intros (page & _ & Hl). cbn [onSite fetch] in Hl.
  destruct (results site page) as [| |cards|cards next]; cbn in Hl; try contradiction;
    eapply extractJobsFromPage_readFromCard; eauto.
Qed.

End Cards.

(** X23. [extractJobsFromPage] makes a listing of exactly the cards that
    have both a title link and a company element, in the order of the page,
    and drops the others; a card without a location element is kept with an
    empty location.  The title, company and location of every listing are
    trimmed (trimming them again changes nothing), its URL is the [href] of
    the title link, and it carries no description, salary, posting date or
    hiring manager. *)
Theorem extractJobsFromPage_keeps_complete_cards (cards : list LinkedInScraper.Card) :
  let kept := List.filter LinkedInScraper.isComplete cards in
  let listings := LinkedInScraper.extractJobsFromPage cards in
  map (fun l => Some (url l)) listings =
    map (fun card => LinkedInScraper.href <$> LinkedInScraper.titleElement card) kept /\
  map (fun l => Some (company l)) listings =
    map (fun card => LinkedInScraper.trim <$> LinkedInScraper.companyElement card) kept /\
  map location listings =
    map (fun card => match LinkedInScraper.locationElement card with
                     | Some text => LinkedInScraper.trim text
                     | None => ""
                     end) kept /\
  Forall (fun l => LinkedInScraper.trim (title l) = title l /\
                   LinkedInScraper.trim (company l) = company l /\
                   LinkedInScraper.trim (location l) = location l /\
                   description l = None /\ salary l = None /\
                   postedDate l = None /\ hiringManager l = None) listings.
Proof.
  intros kept listings. subst kept listings.
  unfold LinkedInScraper.extractJobsFromPage. split; [|split; [|split]].
  - induction cards as [|card cards IH]; [reflexivity|].
    cbn [flat_map List.filter].
    unfold LinkedInScraper.isComplete at 1, LinkedInScraper.extractJob at 1.
    destruct (LinkedInScraper.titleElement card) eqn:Et,
             (LinkedInScraper.companyElement card) eqn:Ec;
      cbn [app map]; rewrite ?Et, ?IH; reflexivity.
  - induction cards as [|card cards IH]; [reflexivity|].
    cbn [flat_map List.filter].
    unfold LinkedInScraper.isComplete at 1, LinkedInScraper.extractJob at 1.
    destruct (LinkedInScraper.titleElement card) eqn:Et,
             (LinkedInScraper.companyElement card) eqn:Ec;
      cbn [app map]; rewrite ?Ec, ?IH; reflexivity.
  - induction cards as [|card cards IH]; [reflexivity|].
    cbn [flat_map List.filter].
    unfold LinkedInScraper.isComplete at 1, LinkedInScraper.extractJob at 1.
    destruct (LinkedInScraper.titleElement card) eqn:Et,
             (LinkedInScraper.companyElement card) eqn:Ec;
      cbn [app map]; rewrite ?IH; reflexivity.
  - apply List.Forall_forall. intros l Hin.
    exact (extractJobsFromPage_readFromCard cards l Hin).
Qed.

Section OnSite.

Variables (site : LinkedInScraper.Site) (base : Env).

Lemma onSite_no_email (jobUrl : string) :
  extractHiringManagerInfo (onSite site base) jobUrl ≫= hm_email = None.
Proof.
  cbn [onSite extractHiringManagerInfo]. unfold LinkedInScraper.extractHiringManagerInfo.
  destruct (LinkedInScraper.visitForHiringManager site jobUrl) as [p|]; [|reflexivity].
  destruct (LinkedInScraper.hiringSection p); reflexivity.
Qed.

(** The score of a listing read from a card, once enriched by the two
    extractors: neither the email nor the salary bonus is in it. *)
Lemma onSite_score (l : JobListing) :
  LinkedInScraper.readFromCard l ->
  let job := enhance l (extractJobDescription (onSite site base) (url l))
                     (extractHiringManagerInfo (onSite site base) (url l)) in
  calculateLeadScore job <=
    (if isRecruitmentAgency (company l) then 60 else 100).
Proof.
  intros (_ & _ & _ & _ & Hsal & _) job. unfold calculateLeadScore.
  destruct (isRecruitmentAgency (company l)) eqn:Ea; [|lia].
  assert (rawLeadScore job <= 60); [|lia].
  unfold rawLeadScore, managerEmail. subst job. cbn [enhance company salary hiringManager].
  rewrite Ea, Hsal, onSite_no_email. cbn [negb truthy].
  repeat match goal with |- context [if ?b then _ else _] => destruct b end; lia.
Qed.

End OnSite.

(** X24. In a run whose scraper reads a site, the email and the salary
    bonus of the scorer are never awarded: when the row of the job is in the
    store and the listings of the search all fit the columns of the leads
    and companies tables, the run adds one row per qualifying listing, every
    such row has no email and no salary, and the lead of a listing whose
    company classifies as an agency scores at most 60.  The company name of
    every such listing is trimmed. *)
Theorem process_onSite_awards_no_email_or_salary
    (site : LinkedInScraper.Site) (base : Env) (data : ScrapingJobData) (w : World)
    (row0 : JobRow) :
  setupSucceeds base ->
  jobs (db w) !! jobId data = Some row0 ->
  Forall (fun l => fitsColumns (onSite site base) l = true)
         (found (searchRun (onSite site base) (searchCriteria data))) ->
  let env := onSite site base in
  let kept := List.filter (qualifies env (searchCriteria data))
                          (found (searchRun env (searchCriteria data))) in
  let rows := added (leads (db w)) (leads (db (snd (process env data w)))) in
  Forall2 (fun row l =>
             lead_jobUrl row = url l /\
             lead_email row = None /\ lead_jobSalary row = None /\
             lead_leadScore row <= (if isRecruitmentAgency (company l) then 60 else 100) /\
             LinkedInScraper.trim (company l) = company l)
          rows kept.
Proof.
  intros Hs Hrow Hfit env kept rows. subst rows.
  assert (Hs' : setupSucceeds env) by exact Hs.
  destruct (process_tables env data w Hs')
    as (fresh & news & urls & El & _ & _ & Hrows & _). cbv zeta in *.
  rewrite (persists_qualifies env w _ _ row0 _ Hrow Hfit) in Hrows.
  change (List.filter _ _) with kept in Hrows.
  rewrite El, added_map by reflexivity. clear El.
  assert (Hcards : Forall LinkedInScraper.readFromCard kept).
  { apply List.Forall_forall. intros l Hin. apply filter_In in Hin as [Hin _].
    exact (searchRun_onSite site base (searchCriteria data) l Hin). }
  induction Hrows as [|row l fresh' kept' (rowId & c & -> & _) _ IH];
    cbn [map]; [constructor|].
  inversion Hcards as [|? ? Hl Hrest]; subst.
  constructor; [|exact (IH Hrest)].
  destruct (markedBy_fields env urls (rowOf env (jobId data) l rowId (company_id c)))
    as (-> & _ & _ & -> & _ & _ & -> & ->).
  cbn [rowOf leadRow lead_jobUrl lead_email lead_jobSalary lead_leadScore].
  split; [reflexivity|]. split; [apply onSite_no_email|].
  split; [apply Hl|]. split; [exact (onSite_score site base l Hl) | apply Hl].
Qed.

Lemma process_onSite_awards_no_email_or_salary_witness :
  let env := onSite Sample.site (Sample.browser []) in
  let data := Sample.jobData "job-1" (Sample.criteria false 3) in
  let w := Sample.worldHolding "job-1" (Sample.criteria false 3) [] in
  length (leads (db (snd (process env data w)))) = 2%nat /\
  Forall2 (fun row l =>
             lead_jobUrl row = url l /\
             lead_email row = None /\ lead_jobSalary row = None /\
             lead_leadScore row <= (if isRecruitmentAgency (company l) then 60 else 100) /\
             LinkedInScraper.trim (company l) = company l)
          (added (leads (db w)) (leads (db (snd (process env data w)))))
          (List.filter (qualifies env (searchCriteria data))
                       (found (searchRun env (searchCriteria data)))).
Proof.
  intros env data w. split; [vm_compute; reflexivity|].
  apply (process_onSite_awards_no_email_or_salary Sample.site (Sample.browser [])
           data w (Sample.createdRow (Sample.criteria false 3))).
  - split; reflexivity.
  - reflexivity.
  - repeat constructor.
Defined.

(** ** A second attempt *)

Section Retry.

Variables (env : Env) (data : ScrapingJobData).

(** The URLs of the leads table after a run. *)
Lemma process_urls (w : World) :
  setupSucceeds env ->
  map lead_jobUrl (leads (db (snd (process env data w)))) =
  map lead_jobUrl (leads (db w)) ++
  map url (List.filter (persists env (searchCriteria data) (jobId data) (db w))
                       (found (searchRun env (searchCriteria data)))).
Proof.
  intros Hs. rewrite <- (process_added_urls env data w Hs).
  destruct (process_tables env data w Hs) as (fresh & _ & urls & El & _).
  cbv zeta in El. rewrite El, added_map by reflexivity.
  rewrite !map_map, map_app. f_equal; apply map_ext; intros row;
    apply markedBy_fields.
Qed.

(** A run creates no company when every qualifying listing has its
    company in the table already. *)
Lemma process_known_companies (w : World) :
  setupSucceeds env ->
  List.NoDup (map company_name (companies (db w))) ->
  (forall l, In l (List.filter (qualifies env (searchCriteria data))
                               (found (searchRun env (searchCriteria data)))) ->
             In (company l) (map company_name (companies (db w)))) ->
  companies (db (snd (process env data w))) = companies (db w).
Proof.
  intros Hs Hnd Hknown.
  destruct (process_tables env data w Hs)
    as (_ & news & _ & _ & _ & Ec & _ & Hnews & Hnd'). cbv zeta in *.
  specialize (Hnd' Hnd). rewrite Ec in *. destruct news as [|c news];
    [apply app_nil_r|]. exfalso.
  inversion Hnews as [|? ? (_ & _ & _ & l & Hl & Hname) _]; subst.
  specialize (Hknown l Hl). rewrite Hname in Hknown.
  rewrite map_app in Hnd'. cbn [map] in Hnd'.
  apply in_split in Hknown as (o1 & o2 & E). rewrite E, <- app_assoc in Hnd'.
  cbn [app] in Hnd'. apply List.NoDup_remove_2 in Hnd'. apply Hnd'.
  rewrite !in_app_iff. right. right. now left.
Qed.

End Retry.

(** X25. The processor is not idempotent: a second run for the same job
    over the same search results (a retry by the queue, say after a failed
    export) inserts a lead row for every qualifying listing again, so that
    each listing then has two rows.  Companies are not duplicated: the second
    run finds the rows the first one created and adds none.  (The row of the
    job is in the store and the listings of the search all fit the columns
    of the leads and companies tables.) *)
Theorem process_retry_inserts_leads_again
    (env : Env) (data : ScrapingJobData) (w : World) (row0 : JobRow) :
  setupSucceeds env ->
  List.NoDup (map company_name (companies (db w))) ->
  jobs (db w) !! jobId data = Some row0 ->
  Forall (fun l => fitsColumns env l = true)
         (found (searchRun env (searchCriteria data))) ->
  let kept := List.filter (qualifies env (searchCriteria data))
                          (found (searchRun env (searchCriteria data))) in
  let first := snd (process env data w) in
  let second := snd (process env data first) in
  map lead_jobUrl (leads (db second)) =
    map lead_jobUrl (leads (db w)) ++ map url kept ++ map url kept /\
  companies (db second) = companies (db first).
Proof.
  intros Hs Hnd Hrow Hfit kept first second. subst second first.
  destruct (process_patched env data w) as (f & P & _).
  assert (Hrow1 : jobs (db (snd (process env data w))) !! jobId data = Some (f row0))
    by now rewrite (patched_lookup _ _ _ _ P), Hrow.
  split.
  - rewrite !process_urls by assumption.
    rewrite (persists_qualifies env _ _ _ _ _ Hrow1 Hfit),
            (persists_qualifies env _ _ _ _ _ Hrow Hfit).
    fold kept. now rewrite <- app_assoc.
  - destruct (process_tables env data w Hs)
      as (fresh & news & urls & _ & _ & _ & Hrows & _ & Hnd'). cbv zeta in *.
    rewrite (persists_qualifies env w _ _ row0 _ Hrow Hfit) in Hrows.
    fold kept in Hrows.
    apply process_known_companies; [exact Hs | exact (Hnd' Hnd) |].
    fold kept. intros l Hin. clear - Hrows Hin.
    induction Hrows as [|row l' fresh' kept' (rowId & c & _ & Hc & Hname) _ IH];
      [contradiction|].
    destruct Hin as [->|Hin]; [|exact (IH Hin)].
    rewrite <- Hname. now apply in_map.
Qed.

Lemma process_retry_inserts_leads_again_witness :
  let env := Sample.failingExport [Sample.directListing] in
  let data := Sample.jobData "job-1" (Sample.criteria false 3) in
  let w := Sample.worldHolding "job-1" (Sample.criteria false 3) [] in
  map lead_jobUrl (leads (db (snd (process env data (snd (process env data w)))))) =
  [url Sample.directListing; url Sample.directListing].
Proof.
  intros env data w.
  assert (Hs : setupSucceeds env) by (split; reflexivity).
  exact (proj1 (process_retry_inserts_leads_again env data w _ Hs (List.NoDup_nil _)
                  eq_refl ltac:(repeat constructor))).
Defined.

(** ** The queue *)

(** X26. Cancelling undoes queueing: a job queued under an id the queue
    did not hold is removed again by [cancelJob], which reports success and
    leaves the queue exactly as it was before [addScrapingJob]; queueing
    touches no other entry, and cancelling an id the queue does not hold is
    refused and changes nothing. *)
Theorem cancelJob_undoes_addScrapingJob
    (id : string) (criteria : SearchCriteria) (email password : string)
    (q : gmap string QueueEntry) :
  q !! id = None ->
  cancelJob id (addScrapingJob id criteria email password q) = (true, q) /\
  cancelJob id q = (false, q) /\
  (exists entry,
      addScrapingJob id criteria email password q !! id = Some entry /\
      jobId (entry_data entry) = id /\
      searchCriteria (entry_data entry) = criteria) /\
  forall other, other <> id ->
    addScrapingJob id criteria email password q !! other = q !! other.
Proof.
  intros Hnew. unfold cancelJob, addScrapingJob. rewrite Hnew, lookup_insert_eq.
  cbn [entry_locked]. rewrite delete_insert_id by exact Hnew.
  split; [reflexivity|]. split; [reflexivity|]. split.
  - eexists. split; [reflexivity|]. split; reflexivity.
  - intros other Hne. apply lookup_insert_ne. congruence.
Qed.

Lemma cancelJob_undoes_addScrapingJob_witness :
  cancelJob "job-1"
    (addScrapingJob "job-1" (Sample.criteria true 3) "user@example.com" "secret" ∅) =
  (true, ∅).
Proof.
  exact (proj1 (cancelJob_undoes_addScrapingJob "job-1" (Sample.criteria true 3)
                  "user@example.com" "secret" ∅ (lookup_empty _))).
Defined.

(** ** The routes and the processor together *)




